(** * Order synchronisation engine: extraction and spreadsheet reconciliation

  A shallow embedding of the parts of [core/order_export.py]
  (class [ShopifyOrderExporter]) and [core/spreadsheet_uploader.py]
  (class [SpreadsheetUploader]) that decide the synchronisation
  properties of the specification, together with their proofs.

  Conventions of the embedding:
  - a Python [str] is a [string] (its UTF-8 bytes); the byte order mark
    U+FEFF is the three bytes 239 187 191;
  - a Python [int] is a [Z], a row index or row number is a [nat];
  - a [dict] that the code only looks keys up in is a [gmap]; a [dict]
    that is later iterated over keeps its insertion order and is an
    association list ([Py.dict_set]);
  - a [set] is a [gset];
  - logging and sleeping are the only effects of the modelled functions:
    they are threaded explicitly as a list of events. *)

From Stdlib Require Import ZArith Ascii String.
From stdpp Require Import gmap strings list pretty.

#[local] Open Scope string_scope.
#[local] Open Scope nat_scope.
#[local] Open Scope list_scope.

(** ** Python built-ins used by the source *)

Module Py.

(** Truthiness of a [str]: only the empty string is falsy. *)
Definition truthy (s : string) : bool :=
  match s with
  | EmptyString => false
  | String _ _ => true
  end.

(** *** Characters

    A [str] is held as the bytes of its UTF-8 form; the functions of
    [str] that look at characters read it code point by code point. *)

#[local] Open Scope Z_scope.

Definition byte (c : ascii) : Z := Z.of_nat (nat_of_ascii c).

(** The six low bits of a continuation byte. *)
Definition continuation (c : ascii) : option Z :=
  let b := byte c in
  if (128 <=? b) && (b <=? 191) then Some (b - 128) else None.

(** The first character of a string, as its code point, and the rest of
    the string; [None] when the string is empty or does not start with
    the UTF-8 form of a code point (the shortest form, and no
    surrogate). *)
Definition decode_one (s : string) : option (Z * string) :=
  match s with
  | EmptyString => None
  | String c rest =>
      let b := byte c in
      if b <? 128 then Some (b, rest)
      else if (194 <=? b) && (b <=? 223) then
        match rest with
        | String c1 rest =>
            x1 ← continuation c1; Some ((b - 192) * 64 + x1, rest)
        | _ => None
        end
      else if (224 <=? b) && (b <=? 239) then
        match rest with
        | String c1 (String c2 rest) =>
            x1 ← continuation c1; x2 ← continuation c2;
            let cp := ((b - 224) * 64 + x1) * 64 + x2 in
            if (2048 <=? cp) && negb ((55296 <=? cp) && (cp <=? 57343))
            then Some (cp, rest) else None
        | _ => None
        end
      else if (240 <=? b) && (b <=? 244) then
        match rest with
        | String c1 (String c2 (String c3 rest)) =>
            x1 ← continuation c1; x2 ← continuation c2;
            x3 ← continuation c3;
            let cp := (((b - 240) * 64 + x1) * 64 + x2) * 64 + x3 in
            if (65536 <=? cp) && (cp <=? 1114111)
            then Some (cp, rest) else None
        | _ => None
        end
      else None
  end.

(** The code points of a string; a character takes a byte or more, so
    as many passes as the string has bytes read it whole. *)
Fixpoint chars_fuel (fuel : nat) (s : string) : option (list Z) :=
  match s with
  | EmptyString => Some []
  | String _ _ =>
      match fuel with
      | O => None
      | S fuel =>
          '(cp, rest) ← decode_one s;
          cps ← chars_fuel fuel rest;
          Some (cp :: cps)
      end
  end.

Definition chars (s : string) : option (list Z) :=
  chars_fuel (String.length s) s.

Definition in_ranges (ranges : list (Z * Z)) (cp : Z) : bool :=
  existsb (λ r, (r.1 <=? cp) && (cp <=? r.2)) ranges.

(** The code points of which [str.isspace] is true (CPython 3.11,
    Unicode 14). *)
Definition space_ranges : list (Z * Z) :=
  [(9, 13); (28, 32); (133, 133); (160, 160); (5760, 5760); (8192, 8202);
   (8232, 8233); (8239, 8239); (8287, 8287); (12288, 12288)].

Definition is_space (cp : Z) : bool := in_ranges space_ranges cp.

(** The code points of which [str.isdigit] is true: the characters whose
    Numeric_Type is Decimal or Digit (CPython 3.11, Unicode 14).  The
    ASCII digits are the first range; the fullwidth digits are
    65296 to 65305. *)
Definition digit_ranges : list (Z * Z) :=
  [(48, 57); (178, 179); (185, 185); (1632, 1641); (1776, 1785);
   (1984, 1993); (2406, 2415); (2534, 2543); (2662, 2671); (2790, 2799);
   (2918, 2927); (3046, 3055); (3174, 3183); (3302, 3311); (3430, 3439);
   (3558, 3567); (3664, 3673); (3792, 3801); (3872, 3881); (4160, 4169);
   (4240, 4249); (4969, 4977); (6112, 6121); (6160, 6169); (6470, 6479);
   (6608, 6618); (6784, 6793); (6800, 6809); (6992, 7001); (7088, 7097);
   (7232, 7241); (7248, 7257); (8304, 8304); (8308, 8313); (8320, 8329);
   (9312, 9320); (9332, 9340); (9352, 9360); (9450, 9450); (9461, 9469);
   (9471, 9471); (10102, 10110); (10112, 10120); (10122, 10130);
   (42528, 42537); (43216, 43225); (43264, 43273); (43472, 43481);
   (43504, 43513); (43600, 43609); (44016, 44025); (65296, 65305);
   (66720, 66729); (68160, 68163); (68912, 68921); (69216, 69224);
   (69714, 69722); (69734, 69743); (69872, 69881); (69942, 69951);
   (70096, 70105); (70384, 70393); (70736, 70745); (70864, 70873);
   (71248, 71257); (71360, 71369); (71472, 71481); (71904, 71913);
   (72016, 72025); (72784, 72793); (73040, 73049); (73120, 73129);
   (92768, 92777); (92864, 92873); (93008, 93017); (120782, 120831);
   (123200, 123209); (123632, 123641); (125264, 125273);
   (127232, 127242); (130032, 130041)].

Definition is_digit (cp : Z) : bool := in_ranges digit_ranges cp.

(** [s.isdigit()]: the string has a character and all its characters
    are digits. *)
Definition isdigit (s : string) : bool :=
  match chars s with
  | Some (cp :: cps) => forallb is_digit (cp :: cps)
  | Some [] | None => false
  end.

(** [s.lstrip()]: the leading white space is removed. *)
Fixpoint lstrip_fuel (fuel : nat) (s : string) : string :=
  match fuel with
  | O => s
  | S fuel =>
      match decode_one s with
      | Some (cp, rest) => if is_space cp then lstrip_fuel fuel rest else s
      | None => s
      end
  end.

Definition lstrip (s : string) : string := lstrip_fuel (String.length s) s.

(** [s.rstrip()]: a character is removed when it is white space and
    nothing is left of what follows it. *)
Fixpoint rstrip_fuel (fuel : nat) (s : string) : string :=
  match fuel with
  | O => s
  | S fuel =>
      match decode_one s with
      | Some (cp, rest) =>
          let kept := rstrip_fuel fuel rest in
          if is_space cp && negb (truthy kept) then EmptyString
          else
            (String.substring 0
               (String.length s - String.length rest)%nat s
             +:+ kept)%string
      | None => s
      end
  end.

Definition rstrip (s : string) : string := rstrip_fuel (String.length s) s.

(** [s.strip()] *)
Definition strip (s : string) : string := rstrip (lstrip s).

(** The UTF-8 encoding of U+FEFF. *)
Definition bom : string :=
  String (ascii_of_nat 239%nat) (String (ascii_of_nat 187%nat)
    (String (ascii_of_nat 191%nat) EmptyString)).

(** [s.lstrip('U+FEFF')]: every leading byte order mark is removed.
    The recursion peels one three-byte mark per two steps of fuel. *)
Fixpoint lstrip_bom_fuel (fuel : nat) (s : string) : string :=
  match fuel with
  | O => s
  | S fuel' =>
      match s with
      | String a (String b (String c rest)) =>
          if bool_decide (nat_of_ascii a = 239%nat
                          ∧ nat_of_ascii b = 187%nat
                          ∧ nat_of_ascii c = 191%nat)
          then lstrip_bom_fuel fuel' rest
          else s
      | _ => s
      end
  end.

Definition lstrip_bom (s : string) : string :=
  lstrip_bom_fuel (String.length s) s.

(** A [dict] with [str] keys that remembers insertion order:
    [d[k] = v] overwrites in place when [k] is present and appends
    otherwise. *)
Fixpoint dict_set {V} (k : string) (v : V) (d : list (string * V))
  : list (string * V) :=
  match d with
  | [] => [(k, v)]
  | (k', v') :: rest =>
      if decide (k' = k) then (k, v) :: rest
      else (k', v') :: dict_set k v rest
  end.

Fixpoint dict_get {V} (k : string) (d : list (string * V)) : option V :=
  match d with
  | [] => None
  | (k', v') :: rest => if decide (k' = k) then Some v' else dict_get k rest
  end.

Definition dict_keys {V} (d : list (string * V)) : list string := d.*1.
Definition dict_values {V} (d : list (string * V)) : list V := d.*2.

End Py.

(** ** The reconciler: [SpreadsheetUploader.find_duplicate_rows] *)

Module Uploader.

Definition Row := list string.

(** What the function writes to its logger. *)
Inductive LogEvent :=
| InfoNameColumn                      (* the Name column is the key *)
| WarnNameMissing                     (* falling back to the Id column *)
| ErrorNoKeyColumn                    (* neither Name nor Id *)
| InfoResult (dups next_row : nat).   (* the closing summary *)

(** One entry of the [duplicates] dict. *)
Record DupInfo := { existing_row : nat; new_data : Row }.

(** The returned dict. The two early returns carry no
    ['filtered_new_rows'] key. *)
Record Result := {
  duplicates : list (string * DupInfo);
  next_empty_row : nat;
  filtered_new_rows : option (list Row)
}.

(** [header.strip().lstrip('U+FEFF')] *)
Definition clean_header (header : string) : string :=
  Py.lstrip_bom (Py.strip header).

(** The [for i, header in enumerate(headers)] search, from index [i]. *)
Fixpoint find_name_column (i : nat) (headers : Row) : option nat :=
  match headers with
  | [] => None
  | header :: rest =>
      if decide (clean_header header = "Name") then Some i
      else find_name_column (S i) rest
  end.

(** [headers.index('Id')], [None] standing for the [ValueError]. *)
Fixpoint index_of (x : string) (i : nat) (l : Row) : option nat :=
  match l with
  | [] => None
  | y :: rest => if decide (y = x) then Some i else index_of x (S i) rest
  end.

(** The key column and what is logged while it is resolved. *)
Definition resolve_id_column (headers : Row)
  : option nat * list LogEvent :=
  match find_name_column 0 headers with
  | Some i => (Some i, [InfoNameColumn])
  | None =>
      match index_of "Id" 0 headers with
      | Some i => (Some i, [WarnNameMissing])
      | None => (None, [WarnNameMissing; ErrorNoKeyColumn])
      end
  end.

(** [len(row) > id_column_index and row[id_column_index]] *)
Definition key_of (idx : nat) (row : Row) : option string :=
  match row !! idx with
  | Some c => if Py.truthy c then Some c else None
  | None => None
  end.

(** [for i, row in enumerate(existing_rows): existing_ids[key] = i + 2],
    from enumeration index [i]. *)
Fixpoint build_existing_ids (idx i : nat) (rows : list Row)
    (ids : gmap string nat) : gmap string nat :=
  match rows with
  | [] => ids
  | row :: rest =>
      build_existing_ids idx (S i) rest
        (match key_of idx row with
         | Some k => <[k := i + 2]> ids
         | None => ids
         end)
  end.

(** The classification loop over [new_rows]; the accumulator is the pair
    of [duplicates] and [new_rows_filtered]. *)
Fixpoint classify (idx : nat) (existing_ids : gmap string nat)
    (new_rows : list Row) (dups : list (string * DupInfo))
    (filtered : list Row) : list (string * DupInfo) * list Row :=
  match new_rows with
  | [] => (dups, filtered)
  | new_row :: rest =>
      match key_of idx new_row with
      | Some order_id =>
          match existing_ids !! order_id with
          | Some n =>
              classify idx existing_ids rest
                (Py.dict_set order_id
                   {| existing_row := n; new_data := new_row |} dups)
                filtered
          | None =>
              classify idx existing_ids rest dups (filtered ++ [new_row])
          end
      | None => classify idx existing_ids rest dups (filtered ++ [new_row])
      end
  end.

(** [find_duplicate_rows(existing_data, new_data)], started with the
    logger holding [log]. *)
Definition find_duplicate_rows (existing_data new_data : list Row)
    (log : list LogEvent) : Result * list LogEvent :=
  match existing_data with
  | [] | [_] =>
      ({| duplicates := []; next_empty_row := 2;
          filtered_new_rows := None |}, log)
  | headers :: existing_rows =>
      let new_rows := tail new_data in
      match resolve_id_column headers with
      | (None, evs) =>
          ({| duplicates := [];
              next_empty_row := length existing_data + 1;
              filtered_new_rows := None |}, log ++ evs)
      | (Some idx, evs) =>
          let existing_ids := build_existing_ids idx 0 existing_rows ∅ in
          let '(dups, filtered) :=
            classify idx existing_ids new_rows [] [] in
          let next := length existing_data + 1 in
          ({| duplicates := dups; next_empty_row := next;
              filtered_new_rows := Some filtered |},
           log ++ evs ++ [InfoResult (length dups) next])
      end
  end.

(** The reconciliation proper, without the logger. *)
Definition reconcile (existing_data new_data : list Row) : Result :=
  (find_duplicate_rows existing_data new_data []).1.

End Uploader.


(** ** Vocabulary for the reconciler's properties *)

Module UploaderSpec.
Import Uploader.

(** Data row number [n] (1-based, the header being row 1) of the rows
    [rows], enumerated from index [i], holds the natural key [k]. *)
Definition row_has_key (idx i : nat) (rows : list Row) (n : nat)
    (k : string) : Prop :=
  i + 2 ≤ n ∧ ∃ row, rows !! (n - (i + 2)) = Some row
                     ∧ key_of idx row = Some k.

Definition first_occurrence (idx : nat) (rows : list Row) (k : string)
    (n : nat) : Prop :=
  row_has_key idx 0 rows n k ∧ ∀ m, m < n → ¬ row_has_key idx 0 rows m k.

Definition last_occurrence (idx : nat) (rows : list Row) (k : string)
    (n : nat) : Prop :=
  row_has_key idx 0 rows n k ∧ ∀ m, n < m → ¬ row_has_key idx 0 rows m k.

(** The row number of the last row holding [k], computed. *)
Fixpoint last_row_of (idx : nat) (k : string) (i : nat) (rows : list Row)
  : option nat :=
  match rows with
  | [] => None
  | row :: rest =>
      match last_row_of idx k (S i) rest with
      | Some n => Some n
      | None => if decide (key_of idx row = Some k) then Some (i + 2)
                else None
      end
  end.

(** The new rows that carry the key [k], in input order. *)
Definition matching (idx : nat) (k : string) (new_rows : list Row)
  : list Row :=
  filter (λ r, key_of idx r = Some k) new_rows.

(** A new row is an update when its key is in the lookup. *)
Definition is_update (idx : nat) (ids : gmap string nat) (r : Row) : bool :=
  match key_of idx r with
  | Some k => bool_decide (is_Some (ids !! k))
  | None => false
  end.

(** The lookup the reconciler builds for a table. *)
Definition existing_ids_of (idx : nat) (existing_data : list Row)
  : gmap string nat :=
  build_existing_ids idx 0 (tail existing_data) ∅.

(** The key column the reconciler settles on for a table. *)
Definition key_column (existing_data : list Row) : option nat :=
  match existing_data with
  | [] => None
  | headers :: _ => (resolve_id_column headers).1
  end.

End UploaderSpec.

(** ** Row capacity of a sheet:
     [SpreadsheetUploader._ensure_sheet_has_rows] and
     [SpreadsheetUploader._ensure_sheet_capacity] *)

Module Sheets.
#[local] Open Scope Z_scope.

(** The properties of one sheet that the two functions read. *)
Record Sheet := { title : string; sheetId : Z; rowCount : Z }.

(** The two requests the functions put in a [batchUpdate] body. *)
Inductive Request :=
| UpdateRowCount (sheet_id row_count : Z)
    (* updateSheetProperties, fields gridProperties.rowCount *)
| AppendRows (sheet_id len : Z).
    (* appendDimension, dimension ROWS *)

(** The remote spreadsheet as the client sees it: its sheets, the bodies
    of the [batchUpdate] calls issued so far, and a script that says for
    each coming API call whether it raises ([true]) or answers; an
    exhausted script means that every further call answers. *)
Record Service := {
  sheets : list Sheet;
  sent : list (list Request);
  faults : list bool
}.

(** A client computation: it may raise, and it changes the service. *)
Definition Api (A : Type) : Type := Service → option A * Service.

#[local] Instance api_ret : MRet Api := λ A (a : A) s, (Some a, s).

#[local] Instance api_bind : MBind Api := λ A B (f : A → Api B) (m : Api A) s,
  match m s with
  | (Some a, s') => f a s'
  | (None, s') => (None, s')
  end.

(** [try: m except Exception: return d] *)
Definition catching {A} (m : Api A) (d : A) : Service → A * Service :=
  λ s, match m s with
       | (Some a, s') => (a, s')
       | (None, s') => (d, s')
       end.

(** Does the next API call raise?  Consumes one entry of the script. *)
Definition next_fault (s : Service) : bool * Service :=
  match faults s with
  | [] => (false, s)
  | b :: rest =>
      (b, {| sheets := sheets s; sent := sent s; faults := rest |})
  end.

(** [service.spreadsheets().get(...).execute()] *)
Definition api_get : Api (list Sheet) :=
  λ s, let '(fails, s') := next_fault s in
       if fails then (None, s') else (Some (sheets s'), s').

(** The effect of one accepted request on one sheet. *)
Definition apply_request (r : Request) (sh : Sheet) : Sheet :=
  match r with
  | UpdateRowCount id n =>
      if decide (sheetId sh = id)
      then {| title := title sh; sheetId := sheetId sh; rowCount := n |}
      else sh
  | AppendRows id len =>
      if decide (sheetId sh = id)
      then {| title := title sh; sheetId := sheetId sh;
              rowCount := rowCount sh + len |}
      else sh
  end.

Definition apply_requests (rs : list Request) (shs : list Sheet)
  : list Sheet :=
  foldl (λ acc r, apply_request r <$> acc) shs rs.

(** [service.spreadsheets().batchUpdate(body={'requests': rs}).execute()]:
    the call is issued in any case and takes effect unless it raises. *)
Definition api_batch_update (rs : list Request) : Api unit :=
  λ s, let '(fails, s') := next_fault s in
       if fails
       then (None, {| sheets := sheets s'; sent := sent s' ++ [rs];
                      faults := faults s' |})
       else (Some tt, {| sheets := apply_requests rs (sheets s');
                         sent := sent s' ++ [rs];
                         faults := faults s' |}).

(** [for sheet in sheets: if sheet.title == name: ...; break] and the
    same search by sheet id. *)
Fixpoint sheet_by_title (name : string) (shs : list Sheet)
  : option Sheet :=
  match shs with
  | [] => None
  | sh :: rest =>
      if decide (title sh = name) then Some sh
      else sheet_by_title name rest
  end.

Fixpoint sheet_by_id (id : Z) (shs : list Sheet) : option Sheet :=
  match shs with
  | [] => None
  | sh :: rest =>
      if decide (sheetId sh = id) then Some sh else sheet_by_id id rest
  end.

(** [_get_sheet_id(sheet_name)]; an [HttpError] gives [None] there, any
    other exception is caught by the caller's own [except]: both ways
    the caller returns [False]. *)
Definition _get_sheet_id (sheet_name : string) : Api (option Z) :=
  shs ← api_get;
  mret (sheetId <$> sheet_by_title sheet_name shs).

(** [_ensure_sheet_has_rows(sheet_name, required_rows)] *)
Definition _ensure_sheet_has_rows (sheet_name : string) (required_rows : Z)
  : Service → bool * Service :=
  catching
    (sheet_id ← _get_sheet_id sheet_name;
     match sheet_id with
     | None => mret false
     | Some sheet_id =>
         shs ← api_get;
         match rowCount <$> sheet_by_id sheet_id shs with
         | None => mret false
         | Some current_rows =>
             if bool_decide (current_rows >= required_rows) then mret true
             else
               _ ← api_batch_update
                     [UpdateRowCount sheet_id required_rows];
               mret true
         end
     end)
    false.

(** [_ensure_sheet_capacity(sheet_name, required_rows)] *)
Definition _ensure_sheet_capacity (sheet_name : string) (required_rows : Z)
  : Service → bool * Service :=
  catching
    (shs ← api_get;
     match sheet_by_title sheet_name shs with
     | None => mret false
     | Some sh =>
         let sheet_id := sheetId sh in
         let current_rows := rowCount sh in
         if bool_decide (required_rows > current_rows) then
           let additional_rows := required_rows - current_rows in
           _ ← api_batch_update [AppendRows sheet_id additional_rows];
           mret true
         else mret true
     end)
    false.

(** *** Vocabulary for the capacity properties *)

(** The declared capacity of the table called [name]. *)
Definition capacity (name : string) (s : Service) : option Z :=
  rowCount <$> sheet_by_title name (sheets s).

(** The row count a request asks the sheets [shs] to have. *)
Definition grow_target (shs : list Sheet) (r : Request) : option Z :=
  match r with
  | UpdateRowCount id n => Some n
  | AppendRows id len => (λ sh, rowCount sh + len) <$> sheet_by_id id shs
  end.

(** The [batchUpdate] bodies issued between two states of the service. *)
Definition issued (before after : Service) : list (list Request) :=
  drop (length (sent before)) (sent after).

(** A service that answers every call. *)
Definition reliable (s : Service) : Prop := faults s = [].

(** Sheet ids identify sheets, as the remote service guarantees. *)
Definition unique_ids (s : Service) : Prop :=
  ∀ sh1 sh2, sh1 ∈ sheets s → sh2 ∈ sheets s →
             sheetId sh1 = sheetId sh2 → sh1 = sh2.

(** The two implementations of [ensureCapacity]. *)
Definition ensure_functions
  : list (string → Z → Service → bool * Service) :=
  [_ensure_sheet_has_rows; _ensure_sheet_capacity].

End Sheets.

(** ** Paginated extraction: [ShopifyOrderExporter.execute_graphql_query],
     [fetch_orders_from_store], [fetch_orders_from_store_no_duplicate_check],
     [fetch_all_orders_parallel] and [fetch_all_orders_chunked] *)

Module Exporter.
#[local] Open Scope Z_scope.

(** One entry of [self.active_stores]. *)
Record StoreConfig := {
  store_key : string;
  store_name : string;
  shop_url : string
}.

(** A money amount as the transformer meets it.  The API serialises
    decimal amounts as strings, so the value is [null] or a string. *)
Inductive JValue :=
| JNull
| JStr (s : string).

(** [{'amount': ...}]; [None] when the key is absent. *)
Record ShopMoney := { amount : option JValue }.

(** The value under a [...PriceSet] key of an order or a line item:
    the key is absent, is [null], or is an object whose ['shopMoney'] is
    falsy ([None]) or a money object. *)
Inductive MoneyBag :=
| BagMissing
| BagNull
| Bag (shopMoney : option ShopMoney).

(** A line item node.  [quantity] is [None] when absent or [null]
    (the schema types it as an integer).  [compareAtPrice] is the value
    under [variant.compareAtPrice], [None] when the variant or the key is
    absent or [null]. *)
Record LineItem := {
  item_name : string;
  quantity : option Z;
  originalUnitPriceSet : MoneyBag;
  compareAtPrice : option JValue
}.

(** An order node (a [dict]).  [name] is the natural key, [None] when
    absent or [null]; [store] holds the three [_store_*] entries once the
    extractor has added them. *)
Record Order := {
  name : option string;
  gid : string;                  (* the [id] entry *)
  subtotalPriceSet : MoneyBag;
  totalShippingPriceSet : MoneyBag;
  totalTaxSet : MoneyBag;
  totalPriceSet : MoneyBag;
  lineItems : list LineItem;
  store : option StoreConfig
}.

(** An element of ['edges']. *)
Inductive Edge :=
| EdgeInvalid             (* falsy edge, no ['node'], or a falsy node *)
| EdgeNotDict             (* a truthy node that is not a dict *)
| EdgeNode (order : Order).

(** The ['orders'] connection of a response. *)
Record Connection := {
  edges : list Edge;
  hasNextPage : bool;
  endCursor : option string
}.

(** What the HTTP layer gives back for one POST. *)
Inductive JsonData :=
| DataAbsent                          (* no ['data'] key *)
| DataNull                            (* ['data'] is null or empty *)
| DataNoOrders                        (* a dict without ['orders'] *)
| DataOrders (orders : Connection).

Inductive Reply :=
| RequestFailed (status : option Z)
    (* [requests] raised a [RequestException]: no response ([None]), or
       [raise_for_status] on an error status such as 429 *)
| BodyNotJson                         (* [response.json()] raised *)
| Body (errors : option (list string)) (data : JsonData).
    (* a JSON object, with the messages under ['errors'] if present *)

(** What a call of [execute_graphql_query] amounts to for its caller. *)
Inductive QueryResult :=
| NoData                              (* [None] or an empty dict *)
| NoOrders                            (* a dict without ['orders'] *)
| Orders (orders : Connection).

Inductive Fetched :=
| Returned (result : QueryResult)
| Raised (error_msg : string).

(** [execute_graphql_query]: request and JSON errors are logged and turned
    into [None], and so is a body with an ['errors'] key; only a body
    without ['data'] escapes, as the [KeyError] of [result['data']]. *)
Definition execute_graphql_query (reply : Reply) : Fetched :=
  match reply with
  | RequestFailed _ => Returned NoData
  | BodyNotJson => Returned NoData
  | Body (Some _) _ => Returned NoData
  | Body None DataAbsent => Raised "'data'"
  | Body None DataNull => Returned NoData
  | Body None DataNoOrders => Returned NoOrders
  | Body None (DataOrders orders) => Returned (Orders orders)
  end.

(** [needle in s] *)
Fixpoint contains (needle s : string) : bool :=
  if String.prefix needle s then true
  else match s with
       | EmptyString => false
       | String _ s' => contains needle s'
       end.

(** The local variables of [fetch_orders_from_store]. *)
Record FetchState := {
  store_orders : list Order;
  seen_order_names : gset string;
  cursor : option string;
  page_count : Z;
  batch_size : Z;
  consecutive_small_batches : Z;
  retry_count : Z
}.

(** What the loop does that the outside can observe. *)
Inductive Event :=
| Query (cursor : option string) (batch_size : Z)
    (* [create_orders_query(..., cursor, batch_size)] is sent *)
| Page (requested : Z) (edges : list Edge) (page_duplicates : Z)
    (* a page is taken in: the size asked for, the edges received and
       the number of them skipped as duplicates *)
| Adjusted (batch_size : Z)
    (* the batch size is recomputed after three small pages in a row *)
| Sleep (seconds : Z).

Definition max_retries : Z := 3.

Definition initial_state : FetchState := {|
  store_orders := []; seen_order_names := ∅; cursor := None;
  page_count := 0; batch_size := 75; consecutive_small_batches := 0;
  retry_count := 0
|}.

(** [order.get('name')] when truthy. *)
Definition order_name (order : Order) : option string :=
  match name order with
  | Some n => if Py.truthy n then Some n else None
  | None => None
  end.

(** [order['_store_key'] = ...] and its two companions. *)
Definition tag (cfg : StoreConfig) (order : Order) : Order :=
  {| name := name order; gid := gid order;
     subtotalPriceSet := subtotalPriceSet order;
     totalShippingPriceSet := totalShippingPriceSet order;
     totalTaxSet := totalTaxSet order;
     totalPriceSet := totalPriceSet order;
     lineItems := lineItems order;
     store := Some cfg |}.

(** The [for edge in edges] loop.  [dedup] is [true] for
    [fetch_orders_from_store] and [false] for the variant without the
    duplicate check, which has no [seen_order_names].  The accumulator is
    [(store_orders, seen_order_names, page_duplicates)]. *)
Fixpoint process_edges (dedup : bool) (cfg : StoreConfig)
    (es : list Edge) (acc : list Order * gset string * Z)
  : list Order * gset string * Z :=
  match es with
  | [] => acc
  | edge :: rest =>
      let '(orders, seen, page_duplicates) := acc in
      process_edges dedup cfg rest
        (match edge with
         | EdgeNode order =>
             match order_name order with
             | Some n =>
                 if dedup && bool_decide (n ∈ seen)
                 then (orders, seen, page_duplicates + 1)
                 else (orders ++ [tag cfg order],
                       if dedup then {[n]} ∪ seen else seen,
                       page_duplicates)
             | None => acc
             end
         | EdgeInvalid | EdgeNotDict => acc
         end)
  end.

(** The dynamic batch size adjustment.  [actual_count < batch_size * 0.5]
    compares an integer with a float that is exact here; it is the
    integer test [2 * actual_count < batch_size]. *)
Definition adjust (actual_count batch consecutive : Z)
  : Z * Z * list Event :=
  if bool_decide (2 * actual_count < batch) then
    let consecutive := consecutive + 1 in
    if bool_decide (consecutive >= 3)
    then let batch := Z.max 25 (batch - 10) in (batch, 0, [Adjusted batch])
    else (batch, consecutive, [])
  else (batch, 0, []).

(** How one pass through the body of the inner [while] ends. *)
Inductive Step :=
| Return (st : FetchState)       (* [return store_orders] *)
| Continue (st : FetchState).    (* the loops go on *)

Definition truthy_cursor (c : option string) : bool :=
  match c with
  | Some s => Py.truthy s
  | None => false
  end.

(** One pass through the body of the inner [while] loop, the page fetch
    yielding [fetched].  After a success the outer loop sleeps 2 seconds
    and resets [retry_count]; after a rate-limit exception the inner loop
    goes on while [retry_count < max_retries]. *)
Definition attempt (dedup : bool) (cfg : StoreConfig) (st : FetchState)
    (fetched : Fetched) : Step * list Event :=
  let page_count := page_count st + 1 in
  let query := Query (cursor st) (batch_size st) in
  let st0 := {| store_orders := store_orders st;
                seen_order_names := seen_order_names st;
                cursor := cursor st; page_count := page_count;
                batch_size := batch_size st;
                consecutive_small_batches := consecutive_small_batches st;
                retry_count := retry_count st |} in
  match fetched with
  | Returned NoData | Returned NoOrders => (Return st0, [query])
  | Returned (Orders orders) =>
      match edges orders with
      | [] => (Return st0, [query])
      | _ :: _ =>
          let '(store_orders, seen, page_duplicates) :=
            process_edges dedup cfg (edges orders)
              (store_orders st, seen_order_names st, 0) in
          let actual_count :=
            Z.of_nat (length (edges orders)) - page_duplicates in
          let '(batch, consecutive, adjusted) :=
            adjust actual_count (batch_size st)
              (consecutive_small_batches st) in
          let evs :=
            [query; Page (batch_size st) (edges orders) page_duplicates]
            ++ adjusted in
          let st1 c r := {| store_orders := store_orders;
                            seen_order_names := seen;
                            cursor := c; page_count := page_count;
                            batch_size := batch;
                            consecutive_small_batches := consecutive;
                            retry_count := r |} in
          if negb (hasNextPage orders)
          then (Return (st1 (cursor st) (retry_count st)), evs)
          else if negb (truthy_cursor (endCursor orders))
          then (Return (st1 (endCursor orders) (retry_count st)), evs)
          else (Continue (st1 (endCursor orders) 0), evs ++ [Sleep 2])
      end
  | Raised error_msg =>
      let retry_count := retry_count st + 1 in
      let st1 := {| store_orders := store_orders st;
                    seen_order_names := seen_order_names st;
                    cursor := cursor st; page_count := page_count;
                    batch_size := batch_size st;
                    consecutive_small_batches :=
                      consecutive_small_batches st;
                    retry_count := retry_count |} in
      if contains "Throttled" error_msg || contains "RATE_LIMIT" error_msg
      then
        let wait_time := Z.min (20 * retry_count) 120 in
        if bool_decide (retry_count < max_retries)
        then (Continue st1, [query; Sleep wait_time])
        else (Return st1, [query; Sleep wait_time])
      else (Return st1, [query])
  end.

(** How far a run got on a finite script of page fetches. *)
Inductive Run :=
| Finished (st : FetchState)     (* the function returned *)
| Pending (st : FetchState).     (* it is about to fetch again *)

Definition state_of (r : Run) : FetchState :=
  match r with Finished st | Pending st => st end.

(** The two nested loops, fed the outcome of each successive page fetch. *)
Fixpoint run (dedup : bool) (cfg : StoreConfig) (st : FetchState)
    (script : list Fetched) : Run * list Event :=
  match script with
  | [] => (Pending st, [])
  | fetched :: rest =>
      match attempt dedup cfg st fetched with
      | (Return st', evs) => (Finished st', evs)
      | (Continue st', evs) =>
          let '(r, evs') := run dedup cfg st' rest in (r, evs ++ evs')
      end
  end.

(** [fetch_orders_from_store(store_key, start_date, end_date)] against a
    server whose successive replies are [replies]. *)
Definition fetch_orders_from_store (cfg : StoreConfig)
    (replies : list Reply) : Run * list Event :=
  run true cfg initial_state (execute_graphql_query <$> replies).

Definition fetch_orders_from_store_no_duplicate_check (cfg : StoreConfig)
    (replies : list Reply) : Run * list Event :=
  run false cfg initial_state (execute_graphql_query <$> replies).

(** [fetch_all_orders_parallel(start_date, end_date)]: each store is
    fetched by a worker and the results are appended to [all_orders] as
    the workers complete; [stores] lists them in completion order. *)
Definition fetch_all_orders_parallel
    (stores : list (StoreConfig * list Reply)) : list Order :=
  stores ≫= λ '(cfg, replies),
    store_orders (state_of (fetch_orders_from_store cfg replies).1).

(** The global duplicate check of [fetch_all_orders_chunked] on the
    orders of one period; the accumulator is
    [(unique_orders, global_seen_order_names)]. *)
Fixpoint unique_in_period (period_orders : list Order)
    (acc : list Order * gset string) : list Order * gset string :=
  match period_orders with
  | [] => acc
  | order :: rest =>
      let '(unique_orders, seen) := acc in
      unique_in_period rest
        (match order_name order with
         | Some n =>
             if bool_decide (n ∈ seen) then acc
             else (unique_orders ++ [order], {[n]} ∪ seen)
         | None => acc
         end)
  end.

(** The [for i, (start_date, end_date) in enumerate(date_ranges, 1)] loop
    over the orders fetched for each period; the accumulator is
    [(all_orders, global_seen_order_names)]. *)
Fixpoint collect_periods (periods : list (list Order))
    (acc : list Order * gset string) : list Order * gset string :=
  match periods with
  | [] => acc
  | period_orders :: rest =>
      let '(all_orders, seen) := acc in
      let '(unique_orders, seen') :=
        unique_in_period period_orders ([], seen) in
      collect_periods rest (all_orders ++ unique_orders, seen')
  end.

(** [fetch_all_orders_chunked(mode)]: one entry of [windows] per date
    range, holding the stores' replies for that range. *)
Definition fetch_all_orders_chunked
    (windows : list (list (StoreConfig * list Reply))) : list Order :=
  (collect_periods (fetch_all_orders_parallel <$> windows) ([], ∅)).1.

(** *** Vocabulary for the extraction properties *)

(** A page is small when the records it adds, the edges received less
    the duplicates skipped, are fewer than half of those asked for. *)
Definition small (requested : Z) (es : list Edge) (page_duplicates : Z)
  : Prop :=
  2 * (Z.of_nat (length es) - page_duplicates) < requested.

#[local] Instance small_dec requested es d : Decision (small requested es d).
Proof. unfold small. apply _. Defined.




(** The pages of a trace: size asked for, edges received, duplicates
    skipped. *)
Definition page_events (trace : list Event) : list (Z * list Edge * Z) :=
  omap (λ ev, match ev with
              | Page requested es d => Some (requested, es, d)
              | Query _ _ | Adjusted _ | Sleep _ => None
              end) trace.






Definition step_state (step : Step) : FetchState :=
  match step with Return st | Continue st => st end.

(** The orders with a natural key among the edges of a page, and among
    the pages of a trace, in the order in which the loop meets them. *)
Definition valid_orders (es : list Edge) : list Order :=
  omap (λ e, match e with
             | EdgeNode order =>
                 match order_name order with
                 | Some _ => Some order
                 | None => None
                 end
             | EdgeInvalid | EdgeNotDict => None
             end) es.

Definition observed (trace : list Event) : list Order :=
  trace ≫= λ ev, match ev with
                 | Page _ es _ => valid_orders es
                 | Query _ _ | Adjusted _ | Sleep _ => []
                 end.

(** The orders of a list that carry the natural key [k]. *)
Definition named (k : string) (l : list Order) : list Order :=
  filter (λ o, order_name o = Some k) l.

(** How the kept orders and the set of seen names relate to the orders met
    so far: a name is seen when an order met carries it, and the kept
    orders with a given name are the first order met with that name,
    passed through [f]. *)
Definition dedup_inv (f : Order → Order) (orders : list Order)
    (seen : gset string) (met : list Order) : Prop :=
  (∀ k, k ∈ seen ↔ named k met ≠ [])
  ∧ (∀ k, named k orders = f <$> take 1 (named k met)).

(** A reply that signals rate limiting: HTTP status 429, or a GraphQL
    error whose message is [Throttled]. *)
Definition rate_limited (reply : Reply) : Prop :=
  reply = RequestFailed (Some 429)
  ∨ ∃ msgs data, reply = Body (Some msgs) data ∧ "Throttled" ∈ msgs.

End Exporter.

(** ** Sample data for the extraction scenarios *)

Module Samples.
Import Exporter.
#[local] Open Scope Z_scope.

Definition photopri : StoreConfig :=
  {| store_key := "photopri"; store_name := "Photopri";
     shop_url := "photopri.example" |}.

Definition money (s : string) : MoneyBag :=
  Bag (Some {| amount := Some (JStr s) |}).

Definition item (qty : Z) (price : string) : LineItem :=
  {| item_name := "print"; quantity := Some qty;
     originalUnitPriceSet := money price; compareAtPrice := None |}.

(** An untagged order named [n] with the line items [items]. *)
Definition order (n : string) (items : list LineItem) : Order :=
  {| name := Some n; gid := "gid://shopify/Order/1";
     subtotalPriceSet := money "10.00";
     totalShippingPriceSet := money "0.00";
     totalTaxSet := money "1.00";
     totalPriceSet := money "11.00";
     lineItems := items; store := None |}.

(** A page of [edges], followed by another page under [cursor]. *)
Definition page (es : list Edge) (next : string) : Reply :=
  Body None (DataOrders {| edges := es; hasNextPage := true;
                           endCursor := Some next |}).

Definition last_page (es : list Edge) : Reply :=
  Body None (DataOrders {| edges := es; hasNextPage := false;
                           endCursor := None |}).

(** The page of the 75 orders [#1001] to [#1075]; a server that pages
    inconsistently may deliver it more than once. *)
Definition full_page : Reply :=
  page ((λ i, EdgeNode (order ("#" +:+ pretty i) [])) <$> seq 1001 75)
    "cursor".

End Samples.

(** ** The transformer: [ShopifyOrderExporter.convert_to_csv_data],
     money and quantity cells *)

Module Transformer.
Import Exporter.
#[local] Open Scope Z_scope.

(** [s.replace(c, '')] for a one-character [c]. *)
Fixpoint remove_char (c : ascii) (s : string) : string :=
  match s with
  | EmptyString => EmptyString
  | String x s' =>
      if decide (x = c) then remove_char c s'
      else String x (remove_char c s')
  end.

(** [s.isdigit()], which is true of the digits of every script, not
    only of [0] to [9]. *)
Definition isdigit (s : string) : bool := Py.isdigit s.

(** Truthiness and [str()] of an amount. *)
Definition truthy (v : JValue) : bool :=
  match v with
  | JNull => false
  | JStr s => Py.truthy s
  end.

Definition str (v : JValue) : string :=
  match v with
  | JNull => "None"
  | JStr s => s
  end.

(** [str(amount) if amount and
     str(amount).replace('.', '').replace('-', '').isdigit() else '0'] *)
Definition money_cell (amount : JValue) : string :=
  if truthy amount
     && isdigit (remove_char "-" (remove_char "." (str amount)))
  then str amount
  else "0".

(** The money cell for a [...PriceSet] entry; [None] stands for the
    [AttributeError] that [.get] raises on a [null] entry.
    [.get('amount', '0')] supplies ['0'] for an absent amount. *)
Definition bag_cell (bag : MoneyBag) : option string :=
  match bag with
  | BagMissing => Some "0"
  | BagNull => None
  | Bag None => Some "0"
  | Bag (Some m) => Some (money_cell (default (JStr "0") (amount m)))
  end.

(** [qty = int(quantity) if quantity else 0;
     str(qty) if qty > 0 else '0'] *)
Definition quantity_cell (quantity : option Z) : string :=
  let qty := default 0 quantity in
  if bool_decide (qty > 0) then pretty qty else "0".

(** [variant.get('compareAtPrice')], checked like an amount. *)
Definition compare_at_cell (v : option JValue) : string :=
  match v with
  | Some amount => money_cell amount
  | None => "0"
  end.

(** The cells of a row that this development follows; the remaining
    columns of the 79-column row are not modelled. *)
Record CsvRow := {
  Name : string;
  Subtotal : string;
  Shipping : string;
  Taxes : string;
  Total : string;
  Lineitem_quantity : string;
  Lineitem_name : string;
  Lineitem_price : string;
  Lineitem_compare_at_price : string
}.

(** One pass of the [for item_edge in line_items] loop: the [row] it
    builds; [None] stands for the [AttributeError] of a [null] price
    entry. *)
Definition item_row (order_name subtotal shipping taxes total : string)
    (item : LineItem) : option CsvRow :=
  lineitem_price ← bag_cell (originalUnitPriceSet item);
  Some {| Name := order_name; Subtotal := subtotal;
          Shipping := shipping; Taxes := taxes; Total := total;
          Lineitem_quantity := quantity_cell (quantity item);
          Lineitem_name := item_name item;
          Lineitem_price := lineitem_price;
          Lineitem_compare_at_price :=
            compare_at_cell (compareAtPrice item) |}.

(** The [for item_edge in line_items] loop.  Each pass rebinds [row];
    nothing is appended inside the loop.  The result is the [row] that
    the last pass leaves ([row] stands for the one left so far), or
    [None] when a pass raises. *)
Fixpoint item_loop (order_name subtotal shipping taxes total : string)
    (items : list LineItem) (row : option CsvRow)
  : option (option CsvRow) :=
  match items with
  | [] => Some row
  | item :: rest =>
      match item_row order_name subtotal shipping taxes total item with
      | None => None
      | Some row =>
          item_loop order_name subtotal shipping taxes total rest
            (Some row)
      end
  end.

(** How the body of the [for i, order in enumerate(orders)] loop ends
    for one order: with a [continue] for an order without a name, with
    an exception, which is caught and logged, or with a row appended to
    [csv_data]. *)
Inductive Conversion :=
| Skipped
| Raised
| Converted (row : CsvRow).

(** The body of the [for i, order in enumerate(orders)] loop.  With line
    items, the one [csv_data.append(row)] comes after the loop over them
    and appends the row of the last line item.  The entries of an order
    that feed the other columns (addresses, discount codes, tax lines and
    so on) are not modelled; of the modelled ones, a [null] money entry
    is what raises. *)
Definition convert_order (order : Order) : Conversion :=
  match order_name order with
  | None => Skipped
  | Some order_name =>
      match bag_cell (subtotalPriceSet order),
            bag_cell (totalShippingPriceSet order),
            bag_cell (totalTaxSet order),
            bag_cell (totalPriceSet order) with
      | Some subtotal, Some shipping, Some taxes, Some total =>
          match lineItems order with
          | [] =>
              Converted
                {| Name := order_name; Subtotal := subtotal;
                   Shipping := shipping; Taxes := taxes; Total := total;
                   Lineitem_quantity := "0"; Lineitem_name := "";
                   Lineitem_price := "0";
                   Lineitem_compare_at_price := "0" |}
          | items =>
              match item_loop order_name subtotal shipping taxes total
                      items None with
              | Some (Some row) => Converted row
              | Some None | None => Raised
              end
          end
      | _, _, _, _ => Raised
      end
  end.

(** The rows that one order adds to [csv_data]: one row, or none when
    the order is skipped or its conversion raises. *)
Definition order_rows (order : Order) : list CsvRow :=
  match convert_order order with
  | Converted row => [row]
  | Skipped | Raised => []
  end.

(** [convert_to_csv_data(orders)], without the header row
    [csv_data[0]]. *)
Definition convert_to_csv_data (orders : list Order) : list CsvRow :=
  orders ≫= order_rows.

(** *** Vocabulary for the transformer's properties *)

(** The characters [0] to [9]. *)
Definition is_ascii_digit (c : ascii) : bool :=
  (48 <=? nat_of_ascii c)%nat && (nat_of_ascii c <=? 57)%nat.

(** Every character is one of [0] to [9]. *)
Fixpoint digits (s : string) : bool :=
  match s with
  | EmptyString => true
  | String c s' => is_ascii_digit c && digits s'
  end.

(** A plain decimal number: an optional minus sign, one or more digits
    [0] to [9] and an optional fraction of one or more such digits. *)
Definition decimal_literal (s : string) : Prop :=
  ∃ sign whole frac,
    s = (sign +:+ whole +:+ frac)%string
    ∧ (sign = "" ∨ sign = "-")
    ∧ whole ≠ "" ∧ digits whole
    ∧ (frac = "" ∨ ∃ f, frac = ("." +:+ f)%string ∧ f ≠ "" ∧ digits f).

(** A plain decimal number without a minus sign. *)
Definition non_negative_literal (s : string) : Prop :=
  decimal_literal s ∧ ∀ rest, s ≠ String "-" rest.

(** The string holds a character that no number is written with: one
    that is neither a digit, of whatever script, nor a point nor a minus
    sign. *)
Definition has_foreign_char (s : string) : Prop :=
  ∃ cps cp, Py.chars s = Some cps ∧ cp ∈ cps
            ∧ Py.is_digit cp = false ∧ cp ≠ 46 ∧ cp ≠ 45.

(** The amount the money cell of a [...PriceSet] entry is computed from,
    if there is one. *)
Definition bag_amount (bag : MoneyBag) : option JValue :=
  match bag with
  | Bag (Some m) => Some (default (JStr "0") (amount m))
  | BagMissing | BagNull | Bag None => None
  end.

(** How a money cell relates to the amount it comes from: a plain decimal
    number, negative or not, is passed through; a missing amount, [null],
    the empty string or a string with a foreign character gives ["0"]. *)
Definition money_cell_rule (source : option JValue) (cell : string) : Prop :=
  match source with
  | None => cell = "0"
  | Some JNull => cell = "0"
  | Some (JStr s) =>
      (decimal_literal s → cell = s)
      ∧ (s = "" ∨ has_foreign_char s → cell = "0")
  end.

(** How a quantity cell relates to the quantity it comes from. *)
Definition quantity_cell_rule (source : option Z) (cell : string) : Prop :=
  match source with
  | Some q => (0 < q → cell = pretty q) ∧ (q <= 0 → cell = "0")
  | None => cell = "0"
  end.

(** No money entry of the order or of its line items is [null]. *)
Definition convertible (order : Order) : Prop :=
  subtotalPriceSet order ≠ BagNull
  ∧ totalShippingPriceSet order ≠ BagNull
  ∧ totalTaxSet order ≠ BagNull
  ∧ totalPriceSet order ≠ BagNull
  ∧ Forall (λ item, originalUnitPriceSet item ≠ BagNull) (lineItems order).

End Transformer.

(** ** Dates and times: the parts of Python's [datetime] module that
     [format_datetime] and [get_date_ranges_chunked] rely on *)

Module Calendar.
#[local] Open Scope Z_scope.

Definition MAXORDINAL : Z := 3652059.     (* date(9999, 12, 31).toordinal() *)

(** The proleptic Gregorian calendar of [datetime]. *)
Definition is_leap (year : Z) : bool :=
  (year mod 4 =? 0) && (negb (year mod 100 =? 0) || (year mod 400 =? 0)).

Definition days_before_year (year : Z) : Z :=
  let y := year - 1 in y * 365 + y / 4 - y / 100 + y / 400.

Definition DAYS_IN_MONTH (month : Z) : Z :=
  match month with
  | 1 => 31 | 2 => 28 | 3 => 31 | 4 => 30 | 5 => 31 | 6 => 30
  | 7 => 31 | 8 => 31 | 9 => 30 | 10 => 31 | 11 => 30 | 12 => 31
  | _ => -1
  end.

Definition DAYS_BEFORE_MONTH (month : Z) : Z :=
  match month with
  | 1 => 0 | 2 => 31 | 3 => 59 | 4 => 90 | 5 => 120 | 6 => 151
  | 7 => 181 | 8 => 212 | 9 => 243 | 10 => 273 | 11 => 304 | 12 => 334
  | _ => -1
  end.

Definition days_in_month (year month : Z) : Z :=
  if (month =? 2) && is_leap year then 29 else DAYS_IN_MONTH month.

Definition days_before_month (year month : Z) : Z :=
  DAYS_BEFORE_MONTH month + (if (2 <? month) && is_leap year then 1 else 0).

(** [date(year, month, day).toordinal()] *)
Definition ymd2ord (year month day : Z) : Z :=
  days_before_year year + days_before_month year month + day.

(** Month and day of the [n]-th day (from 0) of a year. *)
Definition month_day (leapyear : bool) (n : Z) : Z * Z :=
  let month := (n + 50) / 32 in
  let preceding :=
    DAYS_BEFORE_MONTH month + (if (2 <? month) && leapyear then 1 else 0) in
  if preceding >? n then
    let month := month - 1 in
    let preceding :=
      preceding
      - (DAYS_IN_MONTH month + (if (month =? 2) && leapyear then 1 else 0)) in
    (month, n - preceding + 1)
  else (month, n - preceding + 1).

(** The month and day estimate, checked on every day of a year. *)
Definition month_day_check (leapyear : bool) (n : Z) : bool :=
  let '(m, d) := month_day leapyear n in
  (1 <=? m) && (m <=? 12) && (1 <=? d)
  && (d <=? DAYS_IN_MONTH m + (if (m =? 2) && leapyear then 1 else 0))
  && (DAYS_BEFORE_MONTH m + (if (2 <? m) && leapyear then 1 else 0) + d
      =? n + 1).

(** [date.fromordinal(n)] as year, month and day. *)
Definition ord2ymd (n : Z) : Z * Z * Z :=
  let n := n - 1 in
  let n400 := n / 146097 in
  let n := n mod 146097 in
  let n100 := n / 36524 in
  let n := n mod 36524 in
  let n4 := n / 1461 in
  let n := n mod 1461 in
  let n1 := n / 365 in
  let n := n mod 365 in
  let year := n400 * 400 + 1 + n100 * 100 + n4 * 4 + n1 in
  if (n1 =? 4) || (n100 =? 4) then (year - 1, 12, 31)
  else
    let leapyear := (n1 =? 3) && (negb (n4 =? 24) || (n100 =? 3)) in
    let '(month, day) := month_day leapyear n in
    (year, month, day).

(** Microseconds in a second, a minute, an hour and a day. *)
Definition SECOND : Z := 1000000.
Definition MINUTE : Z := 60 * SECOND.
Definition HOUR : Z := 60 * MINUTE.
Definition DAY : Z := 24 * HOUR.

(** A [datetime] object: the microseconds from the midnight that starts
    ordinal day 0 to its wall-clock reading, and its [tzinfo], the UTC
    offset in microseconds of a fixed-offset [timezone], if any. *)
Record datetime := { ticks : Z; tzinfo : option Z }.

Definition toordinal (dt : datetime) : Z := ticks dt / DAY.

(** [datetime(year, month, day, hour, minute, second, microsecond,
    tzinfo)]; [None] stands for the [ValueError] of a field out of
    range. *)
Definition new_datetime (year month day hour minute second microsecond : Z)
    (tz : option Z) : option datetime :=
  if bool_decide (1 <= year <= 9999 ∧ 1 <= month <= 12
                  ∧ 1 <= day <= days_in_month year month
                  ∧ 0 <= hour <= 23 ∧ 0 <= minute <= 59
                  ∧ 0 <= second <= 59 ∧ 0 <= microsecond <= 999999)
  then Some {| ticks := ymd2ord year month day * DAY + hour * HOUR
                        + minute * MINUTE + second * SECOND + microsecond;
               tzinfo := tz |}
  else None.

(** [dt + timedelta(microseconds=delta)]; [None] stands for the
    [OverflowError] of a result outside years 1 to 9999. *)
Definition add (dt : datetime) (delta : Z) : option datetime :=
  let t := ticks dt + delta in
  if bool_decide (0 < t / DAY <= MAXORDINAL)
  then Some {| ticks := t; tzinfo := tzinfo dt |}
  else None.

(** [timedelta(days=n)] in microseconds; [None] stands for the
    [OverflowError] of a magnitude above 999999999 days. *)
Definition timedelta_days (n : Z) : option Z :=
  if bool_decide (-999999999 <= n <= 999999999) then Some (n * DAY)
  else None.

(** [dt.astimezone(timezone(timedelta(microseconds=target)))] for an
    aware [dt]: the UTC reading is computed first, then the reading at
    the target offset, each with its range check. *)
Definition astimezone (dt : datetime) (target : Z) : option datetime :=
  offset ← tzinfo dt;
  utc ← add dt (- offset);
  local ← add utc target;
  Some {| ticks := ticks local; tzinfo := Some target |}.

(** [dt.replace(tzinfo=None)] *)
Definition naive (dt : datetime) : datetime :=
  {| ticks := ticks dt; tzinfo := None |}.

(** The calendar and clock fields of a [datetime]. *)
Definition date_fields (dt : datetime) : Z * Z * Z :=
  ord2ymd (toordinal dt).

Definition hour (dt : datetime) : Z := ticks dt mod DAY / HOUR.
Definition minute (dt : datetime) : Z := ticks dt mod HOUR / MINUTE.
Definition second (dt : datetime) : Z := ticks dt mod MINUTE / SECOND.

(** Printing a number on two and on four digits. *)
Definition digit (k : Z) : ascii := ascii_of_nat (48 + Z.to_nat (k mod 10)).

Definition pad2 (n : Z) : string :=
  String (digit (n / 10)) (String (digit n) EmptyString).

Definition pad4 (n : Z) : string :=
  String (digit (n / 1000)) (String (digit (n / 100))
    (String (digit (n / 10)) (String (digit n) EmptyString))).

(** [%Y] as the C library of Linux prints it: the decimal form of the
    year, without leading zeros, so that a year below 1000 takes fewer
    than four characters. *)
Definition format_year (year : Z) : string :=
  if year <? 10 then String (digit year) EmptyString
  else if year <? 100 then pad2 year
  else if year <? 1000 then String (digit (year / 100)) (pad2 year)
  else pad4 year.

(** [strftime('%Y-%m-%d')] of year, month and day. *)
Definition format_date (ymd : Z * Z * Z) : string :=
  (format_year ymd.1.1 +:+ "-" +:+ pad2 ymd.1.2 +:+ "-"
   +:+ pad2 ymd.2)%string.

(** [strftime('%H:%M:%S')] of hour, minute and second. *)
Definition format_time (hh mm ss : Z) : string :=
  (pad2 hh +:+ ":" +:+ pad2 mm +:+ ":" +:+ pad2 ss)%string.

(** [dt.strftime('%Y-%m-%d')] and [dt.strftime('%Y-%m-%d %H:%M:%S')] *)
Definition strftime_date (dt : datetime) : string :=
  format_date (date_fields dt).

Definition strftime (dt : datetime) : string :=
  (format_date (date_fields dt) +:+ " "
   +:+ format_time (hour dt) (minute dt) (second dt))%string.

(** *** [datetime.fromisoformat] on the forms that CPython 3.7 to 3.10
    accept: [YYYY-MM-DD[*HH[:MM[:SS[.fff[fff]]]][+HH:MM[:SS[.ffffff]]]]].
    Later versions read these forms the same way and accept further
    ones (the basic format, fractions of other lengths, [+HHMM]). *)

Definition digit_val (c : ascii) : option Z :=
  let n := nat_of_ascii c in
  if ((48 <=? n) && (n <=? 57))%nat then Some (Z.of_nat n - 48) else None.

(** The value of the first [n] characters, which must be digits, and the
    rest of the string. *)
Fixpoint parse_digits (n : nat) (acc : Z) (s : string)
  : option (Z * string) :=
  match n with
  | O => Some (acc, s)
  | S n' =>
      match s with
      | EmptyString => None
      | String c rest =>
          d ← digit_val c; parse_digits n' (10 * acc + d) rest
      end
  end.

(** The rest of the string after the character [c]. *)
Definition expect (c : ascii) (s : string) : option string :=
  match s with
  | String x rest => if decide (x = c) then Some rest else None
  | EmptyString => None
  end.

(** [_parse_isoformat_date] on the first ten characters; the rest of the
    string comes back with the fields. *)
Definition parse_isoformat_date (s : string)
  : option (Z * Z * Z * string) :=
  '(year, s) ← parse_digits 4 0 s;
  s ← expect "-" s;
  '(month, s) ← parse_digits 2 0 s;
  s ← expect "-" s;
  '(day, s) ← parse_digits 2 0 s;
  Some (year, month, day, s).

(** The fraction after the point: three or six digits and nothing
    else. *)
Definition parse_fraction (s : string) : option Z :=
  match String.length s with
  | 3%nat => '(ms, _) ← parse_digits 3 0 s; Some (ms * 1000)
  | 6%nat => '(us, _) ← parse_digits 6 0 s; Some us
  | _ => None
  end.

(** [_parse_hh_mm_ss_ff]: hours, then optionally minutes, then optionally
    seconds, then optionally a fraction. *)
Definition parse_hh_mm_ss_ff (s : string) : option (Z * Z * Z * Z) :=
  '(hh, s) ← parse_digits 2 0 s;
  match s with
  | EmptyString => Some (hh, 0, 0, 0)
  | String c s =>
      if decide (c = ":"%char) then
        '(mm, s) ← parse_digits 2 0 s;
        match s with
        | EmptyString => Some (hh, mm, 0, 0)
        | String c s =>
            if decide (c = ":"%char) then
              '(ss, s) ← parse_digits 2 0 s;
              match s with
              | EmptyString => Some (hh, mm, ss, 0)
              | String c s =>
                  if decide (c = "."%char) then
                    ff ← parse_fraction s; Some (hh, mm, ss, ff)
                  else None
              end
            else None
        end
      else None
  end.

(** The string before and after the first occurrence of [c]. *)
Fixpoint split_at (c : ascii) (s : string) : option (string * string) :=
  match s with
  | EmptyString => None
  | String x rest =>
      if decide (x = c) then Some (EmptyString, rest)
      else '(before, after) ← split_at c rest;
           Some (String x before, after)
  end.

(** The offset after the sign: a string of 5, 8 or 15 characters read
    like a time.  An offset of no whole second is UTC, whatever its
    fraction says; an offset of a day or more is a [ValueError]. *)
Definition parse_offset (negative : bool) (tzstr : string) : option Z :=
  if bool_decide (String.length tzstr ∈ [5; 8; 15]%nat) then
    '(hh, mm, ss, ff) ← parse_hh_mm_ss_ff tzstr;
    let tzoffset := hh * 3600 + mm * 60 + ss in
    if tzoffset =? 0 then Some 0
    else
      let td := tzoffset * SECOND + ff in
      let offset := if negative then - td else td in
      if bool_decide (- DAY < offset < DAY) then Some offset else None
  else None.

(** [_parse_isoformat_time]: the time and the offset, which starts at the
    first [-] if there is one and at the first [+] otherwise. *)
Definition parse_isoformat_time (tstr : string)
  : option (Z * Z * Z * Z * option Z) :=
  if bool_decide (String.length tstr < 2)%nat then None
  else
    match split_at "-" tstr with
    | Some (timestr, tzstr) =>
        time ← parse_hh_mm_ss_ff timestr;
        offset ← parse_offset true tzstr;
        Some (time, Some offset)
    | None =>
        match split_at "+" tstr with
        | Some (timestr, tzstr) =>
            time ← parse_hh_mm_ss_ff timestr;
            offset ← parse_offset false tzstr;
            Some (time, Some offset)
        | None =>
            time ← parse_hh_mm_ss_ff tstr; Some (time, None)
        end
    end.

(** [datetime.fromisoformat(date_string)]; [None] stands for the
    [ValueError]. *)
Definition fromisoformat (date_string : string) : option datetime :=
  '(year, month, day, rest) ← parse_isoformat_date date_string;
  match rest with
  | EmptyString => new_datetime year month day 0 0 0 0 None
  | String _ tstr =>
      '(hh, mm, ss, ff, tz) ← parse_isoformat_time tstr;
      new_datetime year month day hh mm ss ff tz
  end.

End Calendar.

(** ** Timestamps and windows: [ShopifyOrderExporter.format_datetime] and
     [ShopifyOrderExporter.get_date_ranges_chunked] *)

Module ExporterDates.
Import Calendar.
#[local] Open Scope Z_scope.

(** [s.endswith('Z')] *)
Fixpoint endswith_Z (s : string) : bool :=
  match s with
  | EmptyString => false
  | String c EmptyString => bool_decide (c = "Z"%char)
  | String _ rest => endswith_Z rest
  end.

(** [s.replace('Z', '+00:00')] *)
Fixpoint replace_Z (s : string) : string :=
  match s with
  | EmptyString => EmptyString
  | String c rest =>
      if decide (c = "Z"%char) then ("+00:00" +:+ replace_Z rest)%string
      else String c (replace_Z rest)
  end.

(** The string handed to [datetime.fromisoformat]. *)
Definition iso_argument (datetime_str : string) : string :=
  if endswith_Z datetime_str then replace_Z datetime_str else datetime_str.

(** [timezone(timedelta(hours=9))] *)
Definition JST : Z := 9 * HOUR.

(** [format_datetime(datetime_str)], over the parser of the library:
    what [datetime.fromisoformat] accepts differs from one Python
    version to the next.  Any exception in the [try] block gives the
    argument back unchanged. *)
Definition format_datetime_with
    (fromisoformat : string → option datetime) (datetime_str : string)
  : string :=
  if negb (Py.truthy datetime_str) then ""
  else
    match
      dt ← fromisoformat (iso_argument datetime_str);
      dt ← match tzinfo dt with
            | Some _ => jst ← astimezone dt JST; Some (naive jst)
            | None => Some dt
            end;
      Some (strftime dt)
    with
    | Some formatted => formatted
    | None => datetime_str
    end.

(** [format_datetime(datetime_str)] with the parser of [Calendar]. *)
Definition format_datetime (datetime_str : string) : string :=
  format_datetime_with fromisoformat datetime_str.

(** How a call that may raise ends; [OutOfFuel] marks a loop that the
    fuel given did not let finish. *)
Inductive Outcome (A : Type) :=
| Value (a : A)
| OverflowError
| ValueError
| OutOfFuel.
Arguments Value {A} a.
Arguments OverflowError {A}.
Arguments ValueError {A}.
Arguments OutOfFuel {A}.

(** [datetime(2019, 1, 1)] *)
Definition start_date : datetime :=
  {| ticks := ymd2ord 2019 1 1 * DAY; tzinfo := None |}.

Definition Window : Type := datetime * datetime.

(** The [while current_start < end_date] loop of
    [get_date_ranges_chunked], before the dates are printed. *)
Fixpoint date_ranges_loop (fuel : nat) (chunk_months : Z)
    (end_date current_start : datetime) : Outcome (list Window) :=
  if bool_decide (ticks current_start < ticks end_date) then
    match fuel with
    | O => OutOfFuel
    | S fuel =>
        match timedelta_days (chunk_months * 30) ≫= add current_start with
        | None => OverflowError
        | Some bound =>
            (* min(current_start + timedelta(...), end_date) *)
            let current_end :=
              if bool_decide (ticks end_date < ticks bound) then end_date
              else bound in
            match add current_end DAY with
            | None => OverflowError
            | Some next =>
                match date_ranges_loop fuel chunk_months end_date next with
                | Value ranges => Value ((current_start, current_end) :: ranges)
                | OverflowError => OverflowError
                | ValueError => ValueError
                | OutOfFuel => OutOfFuel
                end
            end
        end
    end
  else Value [].

(** The windows of the full history up to [now], the reading of
    [datetime.now()].  Each pass of the loop moves [current_start] by a
    day or more, forwards or backwards, within the ordinals 1 to
    [MAXORDINAL]: the fuel below lets the loop finish or overflow. *)
Definition date_ranges (now : datetime) (chunk_months : Z)
  : Outcome (list Window) :=
  date_ranges_loop (Z.to_nat (Z.max (toordinal now) (toordinal start_date)
                              + 1))
    chunk_months now start_date.

Definition print_window (w : Window) : string * string :=
  (strftime_date w.1, strftime_date w.2).

(** [get_date_range(mode)] *)
Definition get_date_range (mode : string) (now : datetime)
  : Outcome (string * string) :=
  if decide (mode = "all_time") then
    Value (print_window (start_date, now))
  else if decide (mode = "recent_2months") then
    match timedelta_days 60 ≫= λ d, add now (- d) with
    | Some start => Value (print_window (start, now))
    | None => OverflowError
    end
  else ValueError.

(** [get_date_ranges_chunked(mode, chunk_months)] *)
Definition get_date_ranges_chunked (mode : string) (now : datetime)
    (chunk_months : Z) : Outcome (list (string * string)) :=
  if decide (mode = "all_time") then
    match date_ranges now chunk_months with
    | Value ranges => Value (print_window <$> ranges)
    | OverflowError => OverflowError
    | ValueError => ValueError
    | OutOfFuel => OutOfFuel
    end
  else
    match get_date_range mode now with
    | Value range => Value [range]
    | OverflowError => OverflowError
    | ValueError => ValueError
    | OutOfFuel => OutOfFuel
    end.

(** *** Vocabulary for the window property *)

(** The calendar days of a window: those of its start and of its end. *)
Definition window_days (w : Window) : Z * Z := (toordinal w.1, toordinal w.2).

(** Day [d] lies in a window read as the half-open interval
    [[start, end)], and read as the closed interval [[start, end]]. *)
Definition in_half_open (d : Z) (w : Window) : Prop :=
  toordinal w.1 <= d < toordinal w.2.

Definition in_closed (d : Z) (w : Window) : Prop :=
  toordinal w.1 <= d <= toordinal w.2.

(** The windows follow one another from the instant [first] up to the
    instant [last]: each starts at a midnight, ends after its start and
    at most [span] later, the next one starts a day after the end of the
    one before, and the final one ends at [last] or at the last midnight
    that is within a day of [last]. *)
Fixpoint chained (span first last : Z) (ws : list Window) : Prop :=
  match ws with
  | [] => False
  | (s, e) :: rest =>
      ticks s = first ∧ first mod DAY = 0
      ∧ ticks s < ticks e <= ticks s + span ∧ ticks e <= last
      ∧ match rest with
        | [] => last <= ticks e + DAY
                ∧ (ticks e = last ∨ ticks e mod DAY = 0)
        | _ :: _ => chained span (ticks e + DAY) last rest
        end
  end.

(** *** Vocabulary for the timestamp property *)

(** The instant of an aware reading lies within the years that a
    [datetime] can hold. *)
Definition representable (t : Z) : Prop := 0 < t / DAY <= MAXORDINAL.

(** Year, month, day, hour, minute and second are a reading of the
    calendar and the clock. *)
Definition valid_reading (y m d hh mm ss : Z) : Prop :=
  1 <= y <= 9999 ∧ 1 <= m <= 12 ∧ 1 <= d <= days_in_month y m
  ∧ 0 <= hh <= 23 ∧ 0 <= mm <= 59 ∧ 0 <= ss <= 59.

(** The microseconds at which the second of a reading starts. *)
Definition reading_ticks (y m d hh mm ss : Z) : Z :=
  ymd2ord y m d * DAY + hh * HOUR + mm * MINUTE + ss * SECOND.

End ExporterDates.

(** ** Fetching all stores: [ShopifyOrderExporter.fetch_all_orders], and
     further vocabulary for the extraction loop *)

Module ExporterSpec.
Import Exporter.

(** A reply that is not a page with edges: a failed request, a body that
    is not JSON, that carries errors or that lacks the data, or a page
    without edges. *)
Definition not_a_page (reply : Reply) : Prop :=
  ∀ orders, reply = Body None (DataOrders orders) → edges orders = [].

(** [fetch_all_orders(start_date, end_date)]: the stores are fetched one
    after the other, in the order of [self.active_stores], and their
    orders appended; [stores] pairs each store with the replies its
    server gives. *)
Definition fetch_all_orders (stores : list (StoreConfig * list Reply))
  : list Order :=
  stores ≫= λ '(cfg, replies),
    store_orders (state_of (fetch_orders_from_store cfg replies).1).

(** An order of the output: it has a natural key and carries the entries
    of the store it was fetched from. *)
Definition tagged (cfg : StoreConfig) (order : Order) : Prop :=
  is_Some (order_name order) ∧ store order = Some cfg.

(** What one store's fetch keeps of the key [k]. *)
Definition kept_of_store (k : string) (store : StoreConfig * list Reply)
  : list Order :=
  tag store.1
  <$> take 1 (named k (observed (fetch_orders_from_store store.1 store.2).2)).

(** The requests of a trace: the cursor and the page size of each. *)
Definition queries (trace : list Event) : list (option string * Z) :=
  omap (λ ev, match ev with
              | Query c b => Some (c, b)
              | Page _ _ _ | Adjusted _ | Sleep _ => None
              end) trace.

(** The reply is a page with edges that names a next page, under the
    cursor [c]. *)
Definition next_page_of (reply : Reply) (c : option string) : Prop :=
  ∃ orders, reply = Body None (DataOrders orders)
            ∧ edges orders ≠ []
            ∧ hasNextPage orders = true
            ∧ endCursor orders = c
            ∧ truthy_cursor c = true.

End ExporterSpec.

(** ** Further vocabulary for the transformer *)

Module TransformerSpec.
Import Exporter Transformer.

(** Characters of a number only: digits, of whatever script, points
    and minus signs, with a digit or more among them. *)
Definition numeric_chars (cps : list Z) : Prop :=
  (∃ cp, cp ∈ cps ∧ Py.is_digit cp)
  ∧ ∀ cp, cp ∈ cps → Py.is_digit cp ∨ cp = 46%Z ∨ cp = 45%Z.

(** The money cells of a row. *)
Definition money_cells (row : CsvRow) : list string :=
  [Subtotal row; Shipping row; Taxes row; Total row; Lineitem_price row;
   Lineitem_compare_at_price row].

(** The line item whose cells the row of an order carries: the last
    one. *)
Definition row_item (order : Order) : option LineItem :=
  last (lineItems order).

(** The name of the line item on the row of an order; the row of an
    order without line items has none. *)
Definition row_item_name (order : Order) : string :=
  default "" (item_name <$> row_item order).

End TransformerSpec.

(** ** Further vocabulary for the window partitioner *)

Module WindowSpec.
Import Calendar ExporterDates.
#[local] Open Scope Z_scope.

(** The naive reading of the midnight that starts ordinal day [n]. *)
Definition midnight (n : Z) : datetime :=
  {| ticks := n * DAY; tzinfo := None |}.

(** The window that starts and ends at the midnight of day [n]. *)
Definition single_day (n : Z) : Window := (midnight n, midnight n).

(** The number of midnights from that of day [n] on that lie before
    [end_date]. *)
Definition days_left (end_date : datetime) (n : Z) : Z :=
  (ticks end_date - n * DAY + DAY - 1) / DAY.

End WindowSpec.

(** ** Column letters: [SpreadsheetUploader._get_column_letter] and the
     end column of [SpreadsheetUploader.append_new_rows] *)

Module Columns.
#[local] Open Scope Z_scope.

(** [chr(k)] for a code point of the ASCII range. *)
Definition chr (k : Z) : ascii := ascii_of_nat (Z.to_nat k).

(** The [while column_number > 0] loop of [_get_column_letter].  Each
    pass replaces [column_number] by a smaller number, so a fuel of
    [column_number] passes lets the loop finish; [None] marks a loop
    that the fuel given did not let finish. *)
Fixpoint column_letter_loop (fuel : nat) (column_number : Z)
    (result : string) : option string :=
  if bool_decide (column_number > 0) then
    match fuel with
    | O => None
    | S fuel =>
        let column_number := column_number - 1 in
        column_letter_loop fuel (column_number / 26)
          (String (chr (65 + column_number mod 26)) result)
    end
  else Some result.

(** [_get_column_letter(column_number)] *)
Definition _get_column_letter (column_number : Z) : option string :=
  column_letter_loop (Z.to_nat column_number) column_number "".

(** The [end_col] of [append_new_rows] for [col_count] columns; [None]
    stands for a [chr] that raises [ValueError] on a negative number or
    gives a character beyond the ASCII range. *)
Definition end_col (col_count : Z) : option string :=
  let ascii_chr k :=
    if bool_decide (0 <= k < 128) then Some (chr k) else None in
  if bool_decide (col_count <= 26) then
    c ← ascii_chr (65 + col_count - 1);
    Some (String c EmptyString)
  else
    first_char ← ascii_chr (65 + (col_count - 1) / 26 - 1);
    second_char ← ascii_chr (65 + (col_count - 1) mod 26);
    Some (String first_char (String second_char EmptyString)).

(** *** Vocabulary *)

(** The number that a column name stands for, [A] being 1, [Z] 26 and
    [AA] 27; [acc] is the number read so far. *)
Fixpoint column_number_from (acc : Z) (letters : string) : Z :=
  match letters with
  | EmptyString => acc
  | String c rest =>
      column_number_from (26 * acc + (Z.of_nat (nat_of_ascii c) - 64)) rest
  end.

Definition column_number (letters : string) : Z :=
  column_number_from 0 letters.

Definition is_upper (c : ascii) : bool :=
  (65 <=? nat_of_ascii c)%nat && (nat_of_ascii c <=? 90)%nat.

Fixpoint uppercase (letters : string) : bool :=
  match letters with
  | EmptyString => true
  | String c rest => is_upper c && uppercase rest
  end.

End Columns.

(** ** Retries and batched reads: [SpreadsheetUploader._retry_on_error]
     and [SpreadsheetUploader._get_data_in_batches] *)

Module Reader.
Import Uploader.
#[local] Open Scope Z_scope.

(** An exception, as [_retry_on_error] tells them apart: an [HttpError]
    with the status of its response, or another exception with its
    message [str(e)]. *)
Inductive Error :=
| HttpError (status : Z)
| OtherError (message : string).

(** How a call of [func] ends. *)
Inductive Outcome (A : Type) :=
| Returns (a : A)
| Raises (e : Error).
Arguments Returns {A} a.
Arguments Raises {A} e.

(** How a call of [_retry_on_error] ends: with the value of [func];
    with [None], when the loop makes no pass; or with an exception. *)
Inductive Result (A : Type) :=
| Returned (a : option A)
| Raised (e : Error).
Arguments Returned {A} a.
Arguments Raised {A} e.

(** [str.lower()] on the ASCII range; the bytes of other characters are
    left as they are. *)
Definition lower_char (c : ascii) : ascii :=
  let n := nat_of_ascii c in
  if ((65 <=? n) && (n <=? 90))%nat then ascii_of_nat (n + 32) else c.

Fixpoint lower (s : string) : string :=
  match s with
  | EmptyString => EmptyString
  | String c rest => String (lower_char c) (lower rest)
  end.

(** ['timeout' in error_msg or 'timed out' in error_msg] *)
Definition is_timeout (message : string) : bool :=
  let error_msg := lower message in
  Exporter.contains "timeout" error_msg
  || Exporter.contains "timed out" error_msg.

(** The [for attempt in range(max_retries)] loop over the attempts that
    remain; [func k] is how call number [k] of [func] ends, and the
    result comes with the seconds slept between the calls. *)
Fixpoint retry_loop {A} (attempts : list nat) (max_retries : Z)
    (func : nat → Outcome A) : Result A * list Z :=
  match attempts with
  | [] => (Returned None, [])
  | attempt :: rest =>
      let again wait_time :=
        let '(r, sleeps) := retry_loop rest max_retries func in
        (r, wait_time :: sleeps) in
      match func attempt with
      | Returns a => (Returned (Some a), [])
      | Raises (HttpError status) =>
          if bool_decide (status = 429) then
            if bool_decide (Z.of_nat attempt < max_retries - 1)
            then again (2 ^ Z.of_nat attempt * 5)
            else (Raised (HttpError status), [])
          else (Raised (HttpError status), [])
      | Raises (OtherError message) =>
          if is_timeout message then
            if bool_decide (Z.of_nat attempt < max_retries - 1)
            then again (2 ^ Z.of_nat attempt * 10)
            else (Raised (OtherError message), [])
          else (Raised (OtherError message), [])
      end
  end.

(** [_retry_on_error(func, max_retries)] *)
Definition _retry_on_error {A} (func : nat → Outcome A) (max_retries : Z)
  : Result A * list Z :=
  retry_loop (seq 0 (Z.to_nat max_retries)) max_retries func.

(** The spreadsheet service as the reader meets it: how call number [k]
    of [values().get] for the rows [start_row] to [end_row] ends, a
    success giving [result.get('values', [])]. *)
Definition Server : Type := Z → Z → nat → Outcome (list Row).

(** The rows [start_row] to [end_row] of batch number [batch_num]. *)
Definition batch_range (total_rows batch_size batch_num : Z) : Z * Z :=
  (batch_num * batch_size + 1,
   Z.min ((batch_num + 1) * batch_size) total_rows).

(** One pass of the [for batch_num in range(batch_count)] loop: the rows
    added to [all_data]; a batch whose read raises is skipped. *)
Definition get_batch (server : Server) (range : Z * Z) : list Row :=
  match (_retry_on_error (server range.1 range.2) 3).1 with
  | Returned (Some batch_data) => batch_data
  | Returned None | Raised _ => []
  end.

(** [_get_data_in_batches(sheet_name, total_rows, batch_size)]; the
    [ZeroDivisionError] of a zero batch size is caught and gives [[]]. *)
Definition _get_data_in_batches (server : Server)
    (total_rows batch_size : Z) : list Row :=
  if bool_decide (batch_size = 0) then []
  else
    let batch_count := (total_rows + batch_size - 1) / batch_size in
    seqZ 0 batch_count
    ≫= λ batch_num,
         get_batch server (batch_range total_rows batch_size batch_num).

(** *** Vocabulary *)

(** An exception after which the call is made again. *)
Definition retryable (e : Error) : Prop :=
  match e with
  | HttpError status => status = 429
  | OtherError message => is_timeout message
  end.

(** The outcome is a retryable exception. *)
Definition retried {A} (o : Outcome A) : Prop :=
  match o with
  | Returns _ => False
  | Raises e => retryable e
  end.

(** The seconds slept after the exception [o] of attempt [attempt]. *)
Definition backoff {A} (attempt : nat) (o : Outcome A) : Z :=
  match o with
  | Raises (HttpError _) => 2 ^ Z.of_nat attempt * 5
  | Raises (OtherError _) | Returns _ => 2 ^ Z.of_nat attempt * 10
  end.

(** What the last call made gives to the caller. *)
Definition result_of {A} (o : Outcome A) : Result A :=
  match o with
  | Returns a => Returned (Some a)
  | Raises e => Raised e
  end.

(** The batches of a read. *)
Definition batch_ranges (total_rows batch_size : Z) : list (Z * Z) :=
  batch_range total_rows batch_size
  <$> seqZ 0 ((total_rows + batch_size - 1) / batch_size).

(** The rows [start_row] to [end_row] of a sheet, row 1 being the
    first. *)
Definition rows_of (sheet : list Row) (range : Z * Z) : list Row :=
  take (Z.to_nat (range.2 - range.1 + 1)) (drop (Z.to_nat (range.1 - 1)) sheet).

End Reader.

(** ** Updating rows in place: [SpreadsheetUploader.update_duplicate_rows] *)

Module Updater.
Import Uploader.
#[local] Open Scope Z_scope.

(** An [updateCells] request: the grid range and the cells, each
    written as [str(cell)]. *)
Record UpdateCells := {
  sheetId : Z;
  startRowIndex : Z;
  endRowIndex : Z;
  startColumnIndex : Z;
  endColumnIndex : Z;
  values : list string
}.

(** The request appended for one entry of [duplicates]. *)
Definition request_of (sheet_id : Z) (duplicate_info : DupInfo)
  : UpdateCells :=
  let row_number := Z.of_nat (existing_row duplicate_info) in
  let new_data := new_data duplicate_info in
  {| sheetId := sheet_id;
     startRowIndex := row_number - 1;
     endRowIndex := row_number;
     startColumnIndex := 0;
     endColumnIndex := Z.of_nat (length new_data);
     values := new_data |}.

(** [l[i:j]] for [0 <= i <= j] *)
Definition slice {A} (i j : nat) (l : list A) : list A :=
  take (j - i) (drop i l).

Definition batch_size : nat := 200.

(** [requests[i:i + batch_size] for i in range(0, len(requests),
    batch_size)] *)
Definition batches (requests : list UpdateCells)
  : list (list UpdateCells) :=
  (λ k, let i := (k * batch_size)%nat in slice i (i + batch_size) requests)
  <$> seq 0 ((length requests + batch_size - 1) / batch_size)%nat.

(** How a call of [update_duplicate_rows] ends: the value returned, the
    [batchUpdate] bodies sent, and those among them that the service
    applied. *)
Record Outcome := {
  returned : bool;
  sent : list (list UpdateCells);
  applied : list (list UpdateCells)
}.

(** [update_duplicate_rows(sheet_name, duplicates)], where [sheet_id] is
    what [_get_sheet_id(sheet_name)] returns and [fails k] tells whether
    the [batchUpdate] call for batch number [k] raises. *)
Definition update_duplicate_rows (sheet_id : option Z)
    (fails : nat → bool) (duplicates : list (string * DupInfo))
  : Outcome :=
  match duplicates with
  | [] => {| returned := true; sent := []; applied := [] |}
  | _ :: _ =>
      match sheet_id with
      | None => {| returned := false; sent := []; applied := [] |}
      | Some sheet_id =>
          let requests := request_of sheet_id <$> Py.dict_values duplicates in
          let numbered :=
            zip (seq 0 (length (batches requests))) (batches requests) in
          {| returned := true;
             sent := batches requests;
             applied := (filter (λ kb, fails kb.1 = false) numbered).*2 |}
      end
  end.

End Updater.

(** ** Appending rows: [SpreadsheetUploader.append_new_rows] *)

Module Appender.
Import Uploader.
#[local] Open Scope Z_scope.

(** A [values().update] call: the range
    [{sheet_name}!A{start_row}:{end_col}{end_row}] and the rows of its
    body. *)
Record ValuesUpdate := {
  sheet_name : string;
  start_row : Z;
  end_col : option string;
  end_row : Z;
  body : list Row
}.

(** How a call of [append_new_rows] ends: it returns, or an exception
    that is not an [HttpError] leaves it. *)
Inductive Ended :=
| Returned (ok : bool)
| Propagated (e : Reader.Error).

(** [append_new_rows(sheet_name, new_rows, start_row)], where [update]
    is how the [values().update] call ends; the result comes with the
    [values().update] calls made. *)
Definition append_new_rows (name : string) (new_rows : list Row)
    (start : Z) (update : Reader.Outcome unit) (s : Sheets.Service)
  : Ended * list ValuesUpdate * Sheets.Service :=
  match new_rows with
  | [] => (Returned true, [], s)
  | first_row :: _ =>
      let required_rows := start + Z.of_nat (length new_rows) - 1 in
      let '(ok, s') := Sheets._ensure_sheet_has_rows name required_rows s in
      if negb ok then (Returned false, [], s')
      else
        let col_count := Z.of_nat (length first_row) in
        let call :=
          {| sheet_name := name; start_row := start;
             end_col := Columns.end_col col_count;
             end_row := start + Z.of_nat (length new_rows) - 1;
             body := new_rows |} in
        match update with
        | Reader.Returns _ => (Returned true, [call], s')
        | Reader.Raises (Reader.HttpError status) =>
            (Returned false, [call], s')
        | Reader.Raises (Reader.OtherError message) =>
            (Propagated (Reader.OtherError message), [call], s')
        end
  end.

End Appender.

(** * Properties of the reconciler *)

Section DictFacts.
Context {V : Type}.
Implicit Types (d : list (string * V)) (k : string) (v : V).

Lemma dict_get_set_eq k v d : Py.dict_get k (Py.dict_set k v d) = Some v.
Proof.
  induction d as [|[k' v'] d IH]; simpl.
  - by rewrite decide_True.
  - destruct (decide (k' = k)) as [->|Hne]; simpl.
    + by rewrite decide_True.
    + by rewrite decide_False.
Qed.

Lemma dict_get_set_ne k k' v d :
  k ≠ k' → Py.dict_get k' (Py.dict_set k v d) = Py.dict_get k' d.
Proof.
  intros Hne. induction d as [|[k0 v0] d IH]; simpl.
  - by rewrite decide_False.
  - destruct (decide (k0 = k)) as [->|Hne0]; simpl.
    + by rewrite !decide_False.
    + destruct (decide (k0 = k')); [done | apply IH].
Qed.

Lemma dict_keys_set_elem k k' v d :
  k' ∈ Py.dict_keys (Py.dict_set k v d) ↔ k' = k ∨ k' ∈ Py.dict_keys d.
Proof.
  unfold Py.dict_keys. induction d as [|[k0 v0] d IH]; simpl.
  - rewrite list_elem_of_singleton, elem_of_nil. tauto.
  - destruct (decide (k0 = k)) as [->|Hne0]; simpl.
    + rewrite !elem_of_cons. tauto.
    + rewrite !elem_of_cons, IH. tauto.
Qed.

(** Assigning to a key never duplicates it. *)
Lemma dict_set_NoDup k v d :
  NoDup (Py.dict_keys d) → NoDup (Py.dict_keys (Py.dict_set k v d)).
Proof.
  induction d as [|[k0 v0] d IH]; simpl.
  - intros _. apply NoDup_singleton.
  - intros [Hnin Hnd]%NoDup_cons.
    destruct (decide (k0 = k)) as [->|Hne0]; simpl.
    + by apply NoDup_cons.
    + apply NoDup_cons. split; [|by apply IH].
      intros [?|?]%dict_keys_set_elem; [done|]. by apply Hnin.
Qed.

Lemma dict_get_elem k v d : Py.dict_get k d = Some v → (k, v) ∈ d.
Proof.
  induction d as [|[k0 v0] d IH]; simpl; [done|].
  destruct (decide (k0 = k)) as [->|Hne0].
  - intros [= ->]. by left.
  - intros ?. right. by apply IH.
Qed.

Lemma dict_elem_get k v d :
  NoDup (Py.dict_keys d) → (k, v) ∈ d → Py.dict_get k d = Some v.
Proof.
  induction d as [|[k0 v0] d IH]; simpl.
  - by intros _ ?%elem_of_nil.
  - intros [Hnin Hnd]%NoDup_cons [Heq|Hin]%elem_of_cons.
    + simplify_eq. by rewrite decide_True.
    + destruct (decide (k0 = k)) as [->|Hne0]; [|by apply IH].
      exfalso. apply Hnin. unfold Py.dict_keys.
      apply list_elem_of_fmap. by exists (k, v).
Qed.

End DictFacts.

Section ReconcilerFacts.
Import Uploader UploaderSpec.
Implicit Types (rows : list Row) (k : string) (ids : gmap string nat).

(** The lookup holds, for each key, the row number of its last holder. *)
Lemma build_existing_ids_lookup idx k rows : ∀ i ids,
  build_existing_ids idx i rows ids !! k =
    match last_row_of idx k i rows with
    | Some n => Some n
    | None => ids !! k
    end.
Proof.
  induction rows as [|row rest IH]; intros i ids; simpl; [done|].
  rewrite IH. destruct (last_row_of idx k (S i) rest); [done|].
  destruct (key_of idx row) as [k0|] eqn:Hk.
  - destruct (decide (Some k0 = Some k)) as [[= ->]|Hne].
    + by rewrite lookup_insert_eq.
    + rewrite lookup_insert_ne; [done | congruence].
  - by rewrite decide_False.
Qed.

Lemma row_has_key_cons idx i row rest n k :
  row_has_key idx i (row :: rest) n k ↔
    (n = i + 2 ∧ key_of idx row = Some k)
    ∨ row_has_key idx (S i) rest n k.
Proof.
  unfold row_has_key. split.
  - intros (Hle & r & Hr & Hk).
    destruct (decide (n = i + 2)) as [->|Hne].
    + left. replace (i + 2 - (i + 2)) with 0 in Hr by lia. by simplify_eq/=.
    + right. split; [lia|]. exists r. split; [|done].
      replace (n - (i + 2)) with (S (n - (S i + 2))) in Hr by lia. done.
  - intros [[-> Hk]|(Hle & r & Hr & Hk)].
    + split; [lia|]. exists row.
      by replace (i + 2 - (i + 2)) with 0 by lia.
    + split; [lia|]. exists r. split; [|done].
      by replace (n - (i + 2)) with (S (n - (S i + 2))) by lia.
Qed.

Lemma row_has_key_ge idx i rows n k : row_has_key idx i rows n k → i + 2 ≤ n.
Proof. by intros [? _]. Qed.

Lemma last_row_of_None idx k rows : ∀ i,
  last_row_of idx k i rows = None → ∀ n, ¬ row_has_key idx i rows n k.
Proof.
  induction rows as [|row rest IH]; intros i; simpl.
  - intros _ n (_ & r & Hr & _). by rewrite lookup_nil in Hr.
  - destruct (last_row_of idx k (S i) rest) eqn:Hl; [done|].
    destruct (decide (key_of idx row = Some k)) as [|Hrow]; [done|].
    intros _ n [[_ ?]|?]%row_has_key_cons; [done|]. by eapply IH.
Qed.

Lemma last_row_of_Some idx k rows : ∀ i n,
  last_row_of idx k i rows = Some n →
  row_has_key idx i rows n k ∧ ∀ m, n < m → ¬ row_has_key idx i rows m k.
Proof.
  induction rows as [|row rest IH]; intros i n; simpl; [done|].
  destruct (last_row_of idx k (S i) rest) as [n'|] eqn:Hl.
  - intros [= ->]. destruct (IH _ _ Hl) as [Hhas Hlast]. split.
    + apply row_has_key_cons. by right.
    + intros m Hm [[-> _]|?]%row_has_key_cons; [|by eapply Hlast].
      apply row_has_key_ge in Hhas. lia.
  - destruct (decide (key_of idx row = Some k)) as [Hk|]; [|done].
    intros [= <-]. split.
    + apply row_has_key_cons. by left.
    + intros m Hm [[-> _]|?]%row_has_key_cons; [lia|].
      by eapply last_row_of_None.
Qed.

(** [last_row_of] computes the relation [last_occurrence]. *)
Lemma last_occurrence_row idx rows k n :
  last_occurrence idx rows k n ↔ last_row_of idx k 0 rows = Some n.
Proof.
  split.
  - intros [Hhas Hlast].
    destruct (last_row_of idx k 0 rows) as [n'|] eqn:Hl.
    + destruct (last_row_of_Some _ _ _ _ _ Hl) as [Hhas' Hlast'].
      f_equal. destruct (Nat.lt_trichotomy n n') as [?|[?|?]]; [|done|].
      * by destruct (Hlast n').
      * by destruct (Hlast' n).
    + by destruct (last_row_of_None _ _ _ _ Hl n).
  - apply last_row_of_Some.
Qed.

End ReconcilerFacts.

Section HeaderExamples.
Import Uploader.

(** The key column is found behind white space of any script and behind
    a byte order mark that follows it. *)
Example clean_header_white_space :
  clean_header "　Name " = "Name"
  ∧ clean_header (" " +:+ Py.bom +:+ "Name") = "Name"
  ∧ clean_header (Py.bom +:+ " Name") = " Name"
  ∧ find_name_column 0 ["Id"; "　Name"] = Some 1%nat.
Proof. vm_compute. done. Qed.

End HeaderExamples.

Section ClassifyFacts.
Import Uploader UploaderSpec.
Implicit Types (rows : list Row) (k : string) (ids : gmap string nat)
  (dups : list (string * DupInfo)).

Lemma matching_cons idx k row rows :
  matching idx k (row :: rows) =
    if decide (key_of idx row = Some k) then row :: matching idx k rows
    else matching idx k rows.
Proof. unfold matching. by rewrite filter_cons. Qed.

Lemma matching_key idx k rows row :
  row ∈ matching idx k rows ↔ row ∈ rows ∧ key_of idx row = Some k.
Proof. unfold matching. rewrite list_elem_of_filter. tauto. Qed.

(** What the loop leaves under a key of the [duplicates] dict. *)
Lemma classify_dups_get idx ids k rows : ∀ dups filtered,
  Py.dict_get k (classify idx ids rows dups filtered).1 =
    match ids !! k, last (matching idx k rows) with
    | Some n, Some r => Some {| existing_row := n; new_data := r |}
    | _, _ => Py.dict_get k dups
    end.
Proof.
  induction rows as [|row rest IH]; intros dups filtered; simpl.
  { by destruct (ids !! k). }
  rewrite matching_cons.
  destruct (key_of idx row) as [k0|] eqn:Hk0.
  - destruct (decide (Some k0 = Some k)) as [[= ->]|Hne].
    + rewrite last_cons. destruct (ids !! k) as [n|] eqn:Hn.
      * rewrite IH. destruct (last (matching idx k rest)); [done|].
        apply dict_get_set_eq.
      * by rewrite IH.
    + destruct (ids !! k0) as [n0|] eqn:Hn0; rewrite IH; [|done].
      rewrite dict_get_set_ne by congruence. done.
  - rewrite decide_False by done. apply IH.
Qed.

(** The append list is the stable sub-list of the rows that are not
    updates. *)
Lemma classify_filtered idx ids rows : ∀ dups filtered,
  (classify idx ids rows dups filtered).2 =
    filtered ++ filter (λ r, is_update idx ids r = false) rows.
Proof.
  induction rows as [|row rest IH]; intros dups filtered; simpl.
  { by rewrite app_nil_r. }
  rewrite filter_cons.
  destruct (key_of idx row) as [k0|] eqn:Hk0.
  - destruct (ids !! k0) as [n0|] eqn:Hn0; rewrite IH.
    + assert (is_update idx ids row = true) as Hu.
      { unfold is_update. rewrite Hk0, Hn0. by apply bool_decide_eq_true. }
      rewrite decide_False; [done | by rewrite Hu].
    + assert (is_update idx ids row = false) as Hu.
      { unfold is_update. rewrite Hk0, Hn0. apply bool_decide_eq_false.
        by intros [? ?]. }
      rewrite decide_True by done. by rewrite <- app_assoc.
  - assert (is_update idx ids row = false) as Hu.
    { unfold is_update. by rewrite Hk0. }
    rewrite IH, decide_True by done. by rewrite <- app_assoc.
Qed.

Lemma classify_NoDup idx ids rows : ∀ dups filtered,
  NoDup (Py.dict_keys dups) →
  NoDup (Py.dict_keys (classify idx ids rows dups filtered).1).
Proof.
  induction rows as [|row rest IH]; intros dups filtered Hnd; simpl; [done|].
  destruct (key_of idx row) as [k0|]; [|by apply IH].
  destruct (ids !! k0); apply IH; [|done]. by apply dict_set_NoDup.
Qed.

(** The logger does not influence the result. *)
Lemma find_duplicate_rows_result existing incoming log :
  (find_duplicate_rows existing incoming log).1
  = reconcile existing incoming.
Proof.
  unfold reconcile, find_duplicate_rows.
  destruct existing as [|headers [|r0 rest]]; [done..|].
  destruct (resolve_id_column headers) as [[idx|] evs]; [|done].
  by destruct (classify _ _ _ _ _).
Qed.

(** The result for a table with a key column and at least one data row. *)
Lemma reconcile_resolved existing incoming idx :
  key_column existing = Some idx →
  2 ≤ length existing →
  reconcile existing incoming =
    let c := classify idx (existing_ids_of idx existing)
               (tail incoming) [] [] in
    {| duplicates := c.1;
       next_empty_row := length existing + 1;
       filtered_new_rows := Some c.2 |}.
Proof.
  unfold reconcile, find_duplicate_rows, key_column, existing_ids_of.
  destruct existing as [|headers [|r0 rest]]; simpl; [lia..|].
  destruct (resolve_id_column headers) as [[i|] evs]; simpl; [|done].
  intros [= ->] _. by destruct (classify _ _ _ _ _).
Qed.

Lemma row_has_key_length idx rows n k :
  row_has_key idx 0 rows n k → 1 ≤ length rows.
Proof.
  intros (_ & r & Hr & _). apply lookup_lt_Some in Hr. lia.
Qed.

End ClassifyFacts.

Section ReconcilerClaims.
Import Uploader UploaderSpec.

(** C1 (as stated, refuted): with the table
    [Name | A1 | A1] the first data row holding [A1] is row 2, yet the
    update for a new [A1] row is addressed to row 3. *)
Lemma C1_first_occurrence_counterexample :
  let existing := [["Name"; "Total"]; ["A1"; "10"]; ["A1"; "11"]] in
  let new := [["Name"; "Total"]; ["A1"; "12"]] in
  key_column existing = Some 0
  ∧ first_occurrence 0 (tail existing) "A1" 2
  ∧ existing_ids_of 0 existing !! "A1" = Some 3
  ∧ Py.dict_get "A1" (duplicates (reconcile existing new))
    = Some {| existing_row := 3; new_data := ["A1"; "12"] |}.
Proof.
  split; [vm_compute; reflexivity|].
  split; [|split; vm_compute; reflexivity].
  split.
  - split; [simpl; lia|]. by exists ["A1"; "10"].
  - intros m Hm [Hle _]. simpl in Hle. lia.
Qed.

(** C1 (amended): when a key column is resolved and data row [n] is the
    LAST row of the existing table holding the non-empty key [k], the
    lookup maps [k] to [n], and every new row carrying [k] is classified
    as an update addressed to row [n] and is kept out of the append
    list. *)
Theorem C1_lookup_last_occurrence
    (existing incoming : list Row) (idx : nat) (k : string) (n : nat) :
  key_column existing = Some idx →
  last_occurrence idx (tail existing) k n →
  existing_ids_of idx existing !! k = Some n
  ∧ ∀ new_row, new_row ∈ tail incoming → key_of idx new_row = Some k →
      (∃ info,
          Py.dict_get k (duplicates (reconcile existing incoming))
            = Some info
          ∧ existing_row info = n)
      ∧ ∀ appended,
          filtered_new_rows (reconcile existing incoming)
            = Some appended →
          new_row ∉ appended.
Proof.
  intros Hcol Hlast.
  assert (Hids : existing_ids_of idx existing !! k = Some n).
  { unfold existing_ids_of. rewrite build_existing_ids_lookup.
    apply last_occurrence_row in Hlast. by rewrite Hlast. }
  split; [done|]. intros new_row Hin Hkey.
  assert (Hlen : 2 ≤ length existing).
  { destruct Hlast as [Hhas%row_has_key_length _].
    destruct existing; simpl in *; lia. }
  rewrite (reconcile_resolved _ _ _ Hcol Hlen). simpl. split.
  - rewrite classify_dups_get, Hids.
    destruct (last (matching idx k (tail incoming))) as [r|] eqn:Hl.
    + by eexists.
    + apply last_None in Hl.
      assert (new_row ∈ matching idx k (tail incoming)) as Hm
        by by apply matching_key.
      rewrite Hl in Hm. by apply elem_of_nil in Hm.
  - intros appended [= <-]. rewrite classify_filtered. simpl.
    rewrite list_elem_of_filter. intros [Hup _].
    unfold is_update in Hup. rewrite Hkey, Hids in Hup.
    by rewrite bool_decide_true in Hup.
Qed.

Lemma C1_lookup_last_occurrence_witness :
  let existing := [["Name"; "Total"]; ["A1"; "10"]; ["A1"; "11"]] in
  let new := [["Name"; "Total"]; ["A1"; "12"]] in
  existing_ids_of 0 existing !! "A1" = Some 3
  ∧ ∀ new_row, new_row ∈ tail new → key_of 0 new_row = Some "A1" →
      (∃ info,
          Py.dict_get "A1" (duplicates (reconcile existing new)) = Some info
          ∧ existing_row info = 3)
      ∧ ∀ appended,
          filtered_new_rows (reconcile existing new) = Some appended →
          new_row ∉ appended.
Proof.
  apply (C1_lookup_last_occurrence
           [["Name"; "Total"]; ["A1"; "10"]; ["A1"; "11"]]
           [["Name"; "Total"]; ["A1"; "12"]] 0 "A1" 3).
  - vm_compute. reflexivity.
  - apply last_occurrence_row. vm_compute. reflexivity.
Defined.

(** C9: reconciliation is deterministic and repeatable. Whatever the
    logger holds, a run yields the result [reconcile] of its two
    arguments; in particular a second run on the same inputs, started
    where the first one stopped, yields the same duplicates map, the same
    filtered append list and the same next-empty-row number. *)
Theorem C9_reconcile_repeatable
    (existing incoming : list Row) (log : list LogEvent) :
  let first := find_duplicate_rows existing incoming log in
  let second := find_duplicate_rows existing incoming first.2 in
  duplicates second.1 = duplicates first.1
  ∧ filtered_new_rows second.1 = filtered_new_rows first.1
  ∧ next_empty_row second.1 = next_empty_row first.1.
Proof.
  intros first second. unfold first, second.
  by rewrite !find_duplicate_rows_result.
Qed.

(** C10: when the key [k] is held by an existing row and one or more new
    rows carry it, the [duplicates] dict has a single entry for [k], which
    pairs the row number recorded for [k] with the LAST new row carrying
    [k]; no new row carrying [k] reaches the append list, and an earlier
    such row that differs from the last one is the data of no update. *)
Theorem C10_last_new_row_wins
    (existing incoming : list Row) (idx : nat) (k : string)
    (r_last : Row) :
  key_column existing = Some idx →
  (∃ n, row_has_key idx 0 (tail existing) n k) →
  last (matching idx k (tail incoming)) = Some r_last →
  let result := reconcile existing incoming in
  (∃ n, existing_ids_of idx existing !! k = Some n
        ∧ Py.dict_get k (duplicates result)
          = Some {| existing_row := n; new_data := r_last |})
  ∧ NoDup (Py.dict_keys (duplicates result))
  ∧ ∀ row, row ∈ matching idx k (tail incoming) →
      (∀ appended, filtered_new_rows result = Some appended →
                   row ∉ appended)
      ∧ (row ≠ r_last →
         ∀ k' info, (k', info) ∈ duplicates result → new_data info ≠ row).
Proof.
  intros Hcol [n0 Hhas] Hl result.
  assert (Hlen : 2 ≤ length existing).
  { apply row_has_key_length in Hhas.
    destruct existing; simpl in *; lia. }
  assert (∃ n, existing_ids_of idx existing !! k = Some n) as [n Hids].
  { unfold existing_ids_of. rewrite build_existing_ids_lookup.
    destruct (last_row_of idx k 0 (tail existing)) as [n|] eqn:Hn;
      [by eexists|].
    by destruct (last_row_of_None _ _ _ _ Hn n0). }
  unfold result. rewrite (reconcile_resolved _ _ _ Hcol Hlen). simpl.
  split; [|split].
  - exists n. split; [done|]. by rewrite classify_dups_get, Hids, Hl.
  - apply classify_NoDup. apply NoDup_nil_2.
  - intros row [Hin Hkey]%matching_key. split.
    + intros appended [= <-]. rewrite classify_filtered. simpl.
      rewrite list_elem_of_filter. intros [Hup _].
      unfold is_update in Hup. rewrite Hkey, Hids in Hup.
      by rewrite bool_decide_true in Hup.
    + intros Hne k' info Hel Hdata.
      apply dict_elem_get in Hel; [|apply classify_NoDup, NoDup_nil_2].
      rewrite classify_dups_get in Hel. simpl in Hel.
      destruct (existing_ids_of idx existing !! k') as [n'|];
        [|done].
      destruct (last (matching idx k' (tail incoming))) as [r'|] eqn:Hl';
        [|done].
      injection Hel as <-. simpl in Hdata. subst r'.
      assert (row ∈ matching idx k' (tail incoming)) as Hm.
      { apply last_Some in Hl' as [l' ->]. apply elem_of_app. right.
        by left. }
      apply matching_key in Hm as [_ Hkey'].
      assert (k' = k) as -> by congruence. congruence.
Qed.

Lemma C10_last_new_row_wins_witness :
  let existing := [["Name"; "Total"]; ["A1"; "10"]; ["A2"; "20"]] in
  let new := [["Name"; "Total"]; ["A2"; "21"]; ["A3"; "30"]; ["A2"; "22"]] in
  let result := reconcile existing new in
  (∃ n, existing_ids_of 0 existing !! "A2" = Some n
        ∧ Py.dict_get "A2" (duplicates result)
          = Some {| existing_row := n; new_data := ["A2"; "22"] |})
  ∧ NoDup (Py.dict_keys (duplicates result))
  ∧ ∀ row, row ∈ matching 0 "A2" (tail new) →
      (∀ appended, filtered_new_rows result = Some appended →
                   row ∉ appended)
      ∧ (row ≠ ["A2"; "22"] →
         ∀ k' info, (k', info) ∈ duplicates result → new_data info ≠ row).
Proof.
  apply (C10_last_new_row_wins
           [["Name"; "Total"]; ["A1"; "10"]; ["A2"; "20"]]
           [["Name"; "Total"]; ["A2"; "21"]; ["A3"; "30"]; ["A2"; "22"]]
           0 "A2" ["A2"; "22"]).
  - vm_compute. reflexivity.
  - exists 3. split; [simpl; lia|]. exists ["A2"; "20"]. by split.
  - vm_compute. reflexivity.
Defined.

End ReconcilerClaims.

(** * Properties of the capacity functions *)

Section SheetsFacts.
Import Sheets.
#[local] Open Scope Z_scope.
Implicit Types (s : Service) (sh : Sheet) (shs : list Sheet) (r : Request).

Lemma sheet_by_title_elem name shs sh :
  sheet_by_title name shs = Some sh → sh ∈ shs ∧ title sh = name.
Proof.
  induction shs as [|sh0 rest IH]; simpl; [done|].
  destruct (decide (title sh0 = name)) as [Ht|Ht].
  - intros [= ->]. split; [by left | done].
  - intros [? ?]%IH. split; [by right | done].
Qed.

Lemma sheet_by_id_elem id shs sh :
  sheet_by_id id shs = Some sh → sh ∈ shs ∧ sheetId sh = id.
Proof.
  induction shs as [|sh0 rest IH]; simpl; [done|].
  destruct (decide (sheetId sh0 = id)) as [Ht|Ht].
  - intros [= ->]. split; [by left | done].
  - intros [? ?]%IH. split; [by right | done].
Qed.

Lemma sheet_by_id_is_Some id shs sh :
  sh ∈ shs → sheetId sh = id → is_Some (sheet_by_id id shs).
Proof.
  induction shs as [|sh0 rest IH]; simpl; [by intros ?%elem_of_nil|].
  intros [->|Hin]%elem_of_cons Hid.
  - by rewrite decide_True.
  - destruct (decide (sheetId sh0 = id)); [done | by apply IH].
Qed.

(** With unique ids the search by id finds the sheet found by title. *)
Lemma sheet_by_id_of_title name s sh :
  unique_ids s →
  sheet_by_title name (sheets s) = Some sh →
  sheet_by_id (sheetId sh) (sheets s) = Some sh.
Proof.
  intros Huniq [Hin _]%sheet_by_title_elem.
  destruct (sheet_by_id_is_Some (sheetId sh) _ _ Hin eq_refl) as [sh' Hsh'].
  rewrite Hsh'. f_equal.
  apply sheet_by_id_elem in Hsh' as [Hin' Hid']. by apply Huniq.
Qed.

Lemma apply_request_title r sh : title (apply_request r sh) = title sh.
Proof. destruct r; simpl; by case_decide. Qed.

Lemma apply_request_id r sh : sheetId (apply_request r sh) = sheetId sh.
Proof. destruct r; simpl; by case_decide. Qed.

Lemma sheet_by_title_apply r name shs :
  sheet_by_title name (apply_request r <$> shs)
  = apply_request r <$> sheet_by_title name shs.
Proof.
  induction shs as [|sh0 rest IH]; simpl; [done|].
  rewrite apply_request_title. by case_decide.
Qed.

Lemma unique_ids_apply r shs flt snt flt' snt' :
  unique_ids {| sheets := shs; sent := snt; faults := flt |} →
  unique_ids {| sheets := apply_request r <$> shs; sent := snt';
                faults := flt' |}.
Proof.
  unfold unique_ids. simpl. intros Huniq sh1 sh2.
  intros (sh1' & -> & Hin1)%list_elem_of_fmap.
  intros (sh2' & -> & Hin2)%list_elem_of_fmap.
  rewrite !apply_request_id. intros Hid.
  by rewrite (Huniq sh1' sh2' Hin1 Hin2 Hid).
Qed.

Lemma issued_app s snt' shs' flt' :
  issued s {| sheets := shs'; sent := sent s ++ snt'; faults := flt' |}
  = snt'.
Proof. unfold issued. simpl. by rewrite drop_app_length. Qed.

Lemma issued_same s : issued s s = [].
Proof. unfold issued. by rewrite drop_all. Qed.

Lemma issued_none s s' : sent s' = sent s → issued s s' = [].
Proof. unfold issued. intros ->. by rewrite drop_all. Qed.

Lemma issued_some s s' bodies :
  sent s' = sent s ++ bodies → issued s s' = bodies.
Proof. unfold issued. intros ->. by rewrite drop_app_length. Qed.

Lemma next_fault_same s b s' :
  next_fault s = (b, s') → sheets s' = sheets s ∧ sent s' = sent s.
Proof.
  unfold next_fault. destruct (faults s); intros [= <- <-]; done.
Qed.

End SheetsFacts.

Section CapacityClaims.
Import Sheets.
#[local] Open Scope Z_scope.
Implicit Types (s : Service) (sh : Sheet) (r : Request).

(** What one call does to a reliable service that has the sheet. *)
Lemma ensure_effect ensure name required s sh :
  ensure ∈ ensure_functions →
  unique_ids s → reliable s →
  sheet_by_title name (sheets s) = Some sh →
  let out := ensure name required s in
  out.1 = true
  ∧ reliable out.2 ∧ unique_ids out.2
  ∧ (∃ sh', sheet_by_title name (sheets out.2) = Some sh'
            ∧ rowCount sh' = Z.max (rowCount sh) required)
  ∧ (required > rowCount sh →
     ∃ r, issued s out.2 = [[r]]
          ∧ grow_target (sheets s) r = Some required)
  ∧ (required <= rowCount sh → issued s out.2 = [] ∧ out.2 = s).
Proof.
  intros Hf Huniq Hrel Hsh.
  pose proof (sheet_by_id_of_title _ _ _ Huniq Hsh) as Hid.
  destruct s as [shs snt flt]. unfold reliable in *. simpl in *. subst flt.
  unfold ensure_functions in Hf.
  apply elem_of_cons in Hf as [->|Hf];
    [|apply list_elem_of_singleton in Hf as ->].
  - (* _ensure_sheet_has_rows *)
    unfold _ensure_sheet_has_rows, catching, _get_sheet_id, mbind, api_bind,
      mret, api_ret, api_get, api_batch_update, next_fault. simpl.
    rewrite Hsh. simpl. rewrite Hid. simpl.
    case_bool_decide as Hcmp; simpl.
    + split; [done|]. split; [done|]. split; [done|].
      split; [exists sh; split; [done | lia]|].
      split; [lia|]. intros _. split; [apply issued_same | done].
    + split; [done|]. split; [done|].
      split; [by eapply unique_ids_apply|].
      split; [|split; [|lia]].
      * rewrite sheet_by_title_apply, Hsh. simpl. eexists. split; [done|].
        rewrite decide_True by done. simpl. lia.
      * intros _. exists (UpdateRowCount (sheetId sh) required).
        split; [|done].
        apply (issued_app {| sheets := shs; sent := snt; faults := [] |}).
  - (* _ensure_sheet_capacity *)
    unfold _ensure_sheet_capacity, catching, mbind, api_bind,
      mret, api_ret, api_get, api_batch_update, next_fault. simpl.
    rewrite Hsh. simpl.
    case_bool_decide as Hcmp; simpl.
    + split; [done|]. split; [done|].
      split; [by eapply unique_ids_apply|].
      split; [|split; [|lia]].
      * rewrite sheet_by_title_apply, Hsh. simpl. eexists. split; [done|].
        rewrite decide_True by done. simpl. lia.
      * intros _. exists (AppendRows (sheetId sh) (required - rowCount sh)).
        split.
        { apply (issued_app {| sheets := shs; sent := snt;
                               faults := [] |}). }
        simpl. rewrite Hid. simpl. f_equal. lia.
    + split; [done|]. split; [done|]. split; [done|].
      split; [exists sh; split; [done | lia]|].
      split; [lia|]. intros _. split; [apply issued_same | done].
Qed.

(** C6: on a service that answers and has the table, [ensureCapacity]
    (either implementation) issues a request exactly when the required
    row count exceeds the declared capacity; the one request it then
    issues brings the capacity to the required count, and the capacity
    never decreases.  In particular a table of capacity 4000 receives
    exactly one grow-to-5000 request when 5000 rows are required, and
    none when 4500 rows are required afterwards. *)
Theorem C6_ensure_capacity ensure name required s sh :
  ensure ∈ ensure_functions →
  unique_ids s → reliable s →
  sheet_by_title name (sheets s) = Some sh →
  let out := ensure name required s in
  (required > rowCount sh ↔ issued s out.2 ≠ [])
  ∧ (required > rowCount sh →
     ∃ r, issued s out.2 = [[r]]
          ∧ grow_target (sheets s) r = Some required
          ∧ capacity name out.2 = Some required)
  ∧ (∃ c, capacity name out.2 = Some c ∧ rowCount sh <= c)
  ∧ (rowCount sh = 4000 →
     let first := ensure name 5000 s in
     let second := ensure name 4500 first.2 in
     (∃ r, issued s first.2 = [[r]]
           ∧ grow_target (sheets s) r = Some 5000)
     ∧ issued first.2 second.2 = []
     ∧ capacity name second.2 = Some 5000).
Proof.
  intros Hf Huniq Hrel Hsh out.
  destruct (ensure_effect ensure name required s sh Hf Huniq Hrel Hsh)
    as (_ & _ & _ & (sh' & Hsh' & Hrows) & Hgrow & Hkeep).
  fold out in Hsh', Hgrow, Hkeep.
  split; [|split; [|split]].
  - split.
    + intros Hgt. destruct (Hgrow Hgt) as (r & -> & _). done.
    + intros Hne. destruct (decide (required > rowCount sh)); [done|].
      destruct Hkeep as [Hnone _]; [lia | done].
  - intros Hgt. destruct (Hgrow Hgt) as (r & Hr & Ht).
    exists r. split; [done|]. split; [done|].
    unfold capacity. rewrite Hsh'. simpl. f_equal. lia.
  - exists (rowCount sh'). unfold capacity. rewrite Hsh'. split; [done|lia].
  - intros H4000 first second.
    destruct (ensure_effect ensure name 5000 s sh Hf Huniq Hrel Hsh)
      as (_ & Hrel1 & Huniq1 & (sh1 & Hsh1 & Hrows1) & Hgrow1 & _).
    fold first in Hrel1, Huniq1, Hsh1, Hgrow1.
    destruct (ensure_effect ensure name 4500 first.2 sh1 Hf Huniq1 Hrel1
                Hsh1) as (_ & _ & _ & _ & _ & Hkeep2).
    fold second in Hkeep2.
    destruct Hkeep2 as [Hnone Hsame]; [lia|].
    split; [apply Hgrow1; lia|]. split; [done|].
    rewrite Hsame. unfold capacity. rewrite Hsh1. simpl. f_equal. lia.
Qed.

Lemma C6_ensure_capacity_witness :
  let s := {| sheets := [ {| title := "db"; sheetId := 7;
                             rowCount := 4000 |} ];
              sent := []; faults := [] |} in
  let out := _ensure_sheet_has_rows "db" 5000 s in
  (5000 > 4000 ↔ issued s out.2 ≠ [])
  ∧ (5000 > 4000 →
     ∃ r, issued s out.2 = [[r]]
          ∧ grow_target (sheets s) r = Some 5000
          ∧ capacity "db" out.2 = Some 5000)
  ∧ (∃ c, capacity "db" out.2 = Some c ∧ 4000 <= c)
  ∧ (4000 = 4000 →
     let first := _ensure_sheet_has_rows "db" 5000 s in
     let second := _ensure_sheet_has_rows "db" 4500 first.2 in
     (∃ r, issued s first.2 = [[r]]
           ∧ grow_target (sheets s) r = Some 5000)
     ∧ issued first.2 second.2 = []
     ∧ capacity "db" second.2 = Some 5000).
Proof.
  apply (C6_ensure_capacity _ensure_sheet_has_rows "db" 5000
           {| sheets := [ {| title := "db"; sheetId := 7;
                             rowCount := 4000 |} ];
              sent := []; faults := [] |}
           {| title := "db"; sheetId := 7; rowCount := 4000 |}).
  - by left.
  - intros sh1 sh2 ->%list_elem_of_singleton ->%list_elem_of_singleton _.
    reflexivity.
  - reflexivity.
  - reflexivity.
Defined.

(** Whatever the service does, a call never issues more than one request,
    and the request it issues asks for more rows than the sheet it
    addresses was read to have: it never shrinks a sheet. *)
Lemma ensure_never_shrinks ensure name required s :
  ensure ∈ ensure_functions →
  let out := ensure name required s in
  issued s out.2 = []
  ∨ ∃ r sh, issued s out.2 = [[r]] ∧ sh ∈ sheets s
            ∧ rowCount sh < required
            ∧ r ∈ [UpdateRowCount (sheetId sh) required;
                   AppendRows (sheetId sh) (required - rowCount sh)].
Proof.
  intros Hf. unfold ensure_functions in Hf.
  apply elem_of_cons in Hf as [->|Hf];
    [|apply list_elem_of_singleton in Hf as ->].
  - unfold _ensure_sheet_has_rows, catching, _get_sheet_id, mbind, api_bind,
      mret, api_ret, api_get, api_batch_update.
    destruct (next_fault s) as [[] s1] eqn:H1;
      destruct (next_fault_same _ _ _ H1) as [Hsh1 Hsn1]; simpl;
      [left; by apply issued_none|].
    rewrite Hsh1.
    destruct (sheet_by_title name (sheets s)) as [sh|] eqn:Hsh; simpl;
      [|left; by apply issued_none].
    destruct (next_fault s1) as [[] s2] eqn:H2;
      destruct (next_fault_same _ _ _ H2) as [Hsh2 Hsn2]; simpl;
      [left; apply issued_none; congruence|].
    rewrite Hsh2, Hsh1.
    destruct (sheet_by_id (sheetId sh) (sheets s)) as [sh2|] eqn:Hid; simpl;
      [|left; apply issued_none; congruence].
    case_bool_decide as Hcmp; simpl;
      [left; apply issued_none; congruence|].
    apply sheet_by_id_elem in Hid as [Hin2 Hid2].
    right. exists (UpdateRowCount (sheetId sh) required), sh2.
    split.
    { destruct (next_fault s2) as [[] s3] eqn:H3;
        destruct (next_fault_same _ _ _ H3) as [Hsh3 Hsn3]; simpl;
        apply issued_some; simpl; congruence. }
    split; [done|]. split; [lia|]. rewrite Hid2. by left.
  - unfold _ensure_sheet_capacity, catching, mbind, api_bind,
      mret, api_ret, api_get, api_batch_update.
    destruct (next_fault s) as [[] s1] eqn:H1;
      destruct (next_fault_same _ _ _ H1) as [Hsh1 Hsn1]; simpl;
      [left; by apply issued_none|].
    rewrite Hsh1.
    destruct (sheet_by_title name (sheets s)) as [sh|] eqn:Hsh; simpl;
      [|left; by apply issued_none].
    case_bool_decide as Hcmp; simpl;
      [|left; by apply issued_none].
    apply sheet_by_title_elem in Hsh as [Hin _].
    right. exists (AppendRows (sheetId sh) (required - rowCount sh)), sh.
    split.
    { destruct (next_fault s1) as [[] s2] eqn:H2;
        destruct (next_fault_same _ _ _ H2) as [Hsh2 Hsn2]; simpl;
        apply issued_some; simpl; congruence. }
    split; [done|]. split; [lia|]. right. by left.
Qed.

End CapacityClaims.

(** * Properties of the extraction loop *)

Section BatchSize.
Import Exporter.
#[local] Open Scope Z_scope.
Implicit Types (st : FetchState) (tr evs : list Event) (ev : Event).















End BatchSize.

Section FetchClaims.
Import Exporter.
#[local] Open Scope Z_scope.

(** C5 (the code at the failing input): when the server delivers the
    same full page of 75 orders four times, every page returns the 75
    records asked for and none returns fewer than half; yet the last
    three deliveries, which add nothing new, are counted as small pages
    and the batch size drops from 75 to 65.  The loop counts the records
    of a page less the duplicates skipped on it, where its comment, and
    the loop without the duplicate check, count the records returned. *)
Lemma C5_full_pages_shrink :
  let out := fetch_orders_from_store Samples.photopri
               (replicate 4 Samples.full_page) in
  batch_size (state_of out.1) = 65
  ∧ length (store_orders (state_of out.1)) = 75%nat
  ∧ page_events out.2 ≠ []
  ∧ forallb (λ p, bool_decide (p.1.1 <= 2 * Z.of_nat (length p.1.2)))
      (page_events out.2) = true.
Proof. vm_compute. repeat split; congruence. Qed.


(** [execute_graphql_query] never raises an error that the retry branch
    of the loop would recognise as a rate limit. *)
Lemma execute_graphql_query_not_throttled reply msg :
  execute_graphql_query reply = Raised msg →
  contains "Throttled" msg = false ∧ contains "RATE_LIMIT" msg = false.
Proof.
  destruct reply as [status| |[errors|] [| | |orders]]; simpl; try done.
  intros [= <-]. by vm_compute.
Qed.

(** The retry branch taken in isolation: were the page fetch to raise a
    [Throttled] error twice and then to deliver a page, the loop would
    wait 20 and 40 seconds, ask for the same cursor three times and go on
    to the next page. *)
Lemma retry_branch_in_isolation :
  let conn := {| edges := [EdgeNode (Samples.order "#1001" [])];
                 hasNextPage := true; endCursor := Some "c1" |} in
  let out := run true Samples.photopri initial_state
               [Raised "Throttled"; Raised "Throttled";
                Returned (Orders conn)] in
  (∃ st, out.1 = Pending st ∧ cursor st = Some "c1"
         ∧ length (store_orders st) = 1%nat)
  ∧ out.2 = [Query None 75; Sleep 20; Query None 75; Sleep 40;
             Query None 75; Page 75 (edges conn) 0; Sleep 2].
Proof. vm_compute. split; [|done]. eexists. by repeat split. Qed.

(** C2 (the code at the failing input): a page fetch answered by a
    rate-limit signal -- HTTP status 429, or a GraphQL [Throttled] error
    -- ends the window's extraction at once: no wait, no second request
    for the page, and the replies that would have followed are never
    asked for. *)
Theorem C2_rate_limited_fetch_returns_early
    (cfg : StoreConfig) (reply : Reply) (rest : list Reply) :
  rate_limited reply →
  let out := fetch_orders_from_store cfg (reply :: rest) in
  (∃ st, out.1 = Finished st ∧ store_orders st = [])
  ∧ out.2 = [Query None 75].
Proof.
  intros [->|(msgs & data & -> & _)]; simpl.
  - split; [|done]. eexists. by split.
  - split; [|done]. eexists. by split.
Qed.

Lemma C2_rate_limited_fetch_returns_early_witness :
  let out := fetch_orders_from_store Samples.photopri
               [RequestFailed (Some 429); RequestFailed (Some 429);
                Samples.page [EdgeNode (Samples.order "#1001" [])] "c1";
                Samples.last_page [EdgeNode (Samples.order "#1002" [])]] in
  (∃ st, out.1 = Finished st ∧ store_orders st = [])
  ∧ out.2 = [Query None 75].
Proof.
  apply (C2_rate_limited_fetch_returns_early Samples.photopri
           (RequestFailed (Some 429))).
  by left.
Defined.

End FetchClaims.
(** * Properties of the transformer *)

Section Utf8Facts.
Import Transformer.
#[local] Open Scope Z_scope.
Implicit Types (s rest : string) (c x : ascii) (cp : Z).

Lemma byte_bound c : 0 <= Py.byte c < 256.
Proof.
  unfold Py.byte. pose proof (nat_ascii_bounded c). lia.
Qed.

Lemma byte_inj c x : Py.byte c = Py.byte x → c = x.
Proof.
  unfold Py.byte. intros H%Nat2Z.inj.
  by rewrite <- (ascii_nat_embedding c), H, ascii_nat_embedding.
Qed.

Lemma continuation_bound c v :
  Py.continuation c = Some v → 128 <= Py.byte c ∧ 0 <= v < 64.
Proof.
  unfold Py.continuation.
  destruct (_ && _) eqn:Hc; [|done]. intros [= <-].
  apply andb_prop in Hc as [?%Z.leb_le ?%Z.leb_le]. lia.
Qed.

Lemma remove_char_high x c s :
  Py.byte x < 128 → 128 <= Py.byte c →
  remove_char x (String c s) = String c (remove_char x s).
Proof.
  intros Hx Hc. simpl. rewrite decide_False; [done|]. intros ->. lia.
Qed.

(** A character is one byte below 128, or several bytes from 128 on
    that stand for a code point from 128 on. *)
Lemma decode_one_inv s cp rest :
  Py.decode_one s = Some (cp, rest) →
  (∃ c, s = String c rest ∧ cp = Py.byte c ∧ cp < 128)
  ∨ (128 <= cp
     ∧ (String.length rest < String.length s)%nat
     ∧ ∀ x, Py.byte x < 128 →
         Py.decode_one (remove_char x s)
         = Some (cp, remove_char x rest)).
Proof.
  destruct s as [|c s]; [done|]. unfold Py.decode_one.
  destruct (Py.byte c <? 128) eqn:H1.
  { intros [= <- <-]. left. exists c. apply Z.ltb_lt in H1. done. }
  apply Z.ltb_ge in H1.
  destruct ((194 <=? Py.byte c) && (Py.byte c <=? 223)) eqn:H2.
  { destruct s as [|c1 s]; [done|].
    destruct (Py.continuation c1) as [v1|] eqn:Hc1; [|done].
    intros Hdec. simpl in Hdec. injection Hdec as <- <-. right.
    apply andb_prop in H2 as [?%Z.leb_le ?%Z.leb_le].
    pose proof (continuation_bound _ _ Hc1) as [? ?].
    split; [lia|]. split; [simpl; lia|]. intros x Hx.
    rewrite !remove_char_high by lia.
    unfold Py.decode_one.
    rewrite (proj2 (Z.ltb_ge _ _)) by lia.
    rewrite (proj2 (Z.leb_le 194 _)), (proj2 (Z.leb_le _ 223)) by lia.
    simpl. by rewrite Hc1. }
  destruct ((224 <=? Py.byte c) && (Py.byte c <=? 239)) eqn:H3.
  { destruct s as [|c1 [|c2 s]]; [done..|].
    destruct (Py.continuation c1) as [v1|] eqn:Hc1; [|done].
    destruct (Py.continuation c2) as [v2|] eqn:Hc2; [|done].
    intros Hdec. simpl in Hdec.
    destruct (_ && _) eqn:Hrange in Hdec; [|done].
    injection Hdec as <- <-. right.
    apply andb_prop in H3 as [?%Z.leb_le ?%Z.leb_le].
    pose proof (continuation_bound _ _ Hc1) as [? ?].
    pose proof (continuation_bound _ _ Hc2) as [? ?].
    pose proof Hrange as Hrange'.
    apply andb_prop in Hrange' as [?%Z.leb_le _].
    split; [lia|]. split; [simpl; lia|]. intros x Hx.
    rewrite !remove_char_high by lia.
    unfold Py.decode_one.
    rewrite (proj2 (Z.ltb_ge _ _)) by lia. rewrite H2.
    rewrite (proj2 (Z.leb_le 224 _)), (proj2 (Z.leb_le _ 239)) by lia.
    simpl. rewrite Hc1, Hc2. simpl. by rewrite Hrange. }
  destruct ((240 <=? Py.byte c) && (Py.byte c <=? 244)) eqn:H4; [|done].
  destruct s as [|c1 [|c2 [|c3 s]]]; [done..|].
  destruct (Py.continuation c1) as [v1|] eqn:Hc1; [|done].
  destruct (Py.continuation c2) as [v2|] eqn:Hc2; [|done].
  destruct (Py.continuation c3) as [v3|] eqn:Hc3; [|done].
  intros Hdec. simpl in Hdec.
  destruct (_ && _) eqn:Hrange in Hdec; [|done].
  injection Hdec as <- <-. right.
  apply andb_prop in H4 as [?%Z.leb_le ?%Z.leb_le].
  pose proof (continuation_bound _ _ Hc1) as [? ?].
  pose proof (continuation_bound _ _ Hc2) as [? ?].
  pose proof (continuation_bound _ _ Hc3) as [? ?].
  pose proof Hrange as Hrange'.
  apply andb_prop in Hrange' as [?%Z.leb_le _].
  split; [lia|]. split; [simpl; lia|]. intros x Hx.
  rewrite !remove_char_high by lia.
  unfold Py.decode_one.
  rewrite (proj2 (Z.ltb_ge _ _)) by lia. rewrite H2, H3.
  rewrite (proj2 (Z.leb_le 240 _)), (proj2 (Z.leb_le _ 244)) by lia.
  simpl. rewrite Hc1, Hc2, Hc3. simpl. by rewrite Hrange.
Qed.

Lemma decode_one_length s cp rest :
  Py.decode_one s = Some (cp, rest) →
  (String.length rest < String.length s)%nat.
Proof.
  intros [(c & -> & _)|(_ & Hlen & _)]%decode_one_inv; [simpl; lia|done].
Qed.

Lemma chars_fuel_enough fuel1 fuel2 s :
  (String.length s <= fuel1)%nat → (String.length s <= fuel2)%nat →
  Py.chars_fuel fuel1 s = Py.chars_fuel fuel2 s.
Proof.
  revert fuel2 s. induction fuel1 as [|fuel1 IH]; intros fuel2 s H1 H2.
  { destruct s; [by destruct fuel2 | simpl in H1; lia]. }
  destruct s as [|c s]; [by destruct fuel2|].
  destruct fuel2 as [|fuel2]; [simpl in H2; lia|].
  cbn [Py.chars_fuel].
  destruct (Py.decode_one (String c s)) as [[cp rest]|] eqn:Hd; [|done].
  apply decode_one_length in Hd. simpl in *.
  rewrite (IH fuel2 rest) by lia. done.
Qed.

Lemma chars_cons s cp rest :
  Py.decode_one s = Some (cp, rest) →
  Py.chars s = cps ← Py.chars rest; Some (cp :: cps).
Proof.
  intros Hd. unfold Py.chars. pose proof (decode_one_length _ _ _ Hd).
  destruct s as [|c s]; [done|]. cbn [String.length Py.chars_fuel].
  rewrite Hd. simpl in *.
  by rewrite (chars_fuel_enough (String.length s)
                (String.length rest) rest) by lia.
Qed.

Lemma chars_inv s cps :
  Py.chars s = Some cps →
  (s = "" ∧ cps = [])
  ∨ ∃ cp rest cps',
      Py.decode_one s = Some (cp, rest)
      ∧ Py.chars rest = Some cps' ∧ cps = cp :: cps'.
Proof.
  destruct s as [|c s]; [intros [= <-]; by left|].
  intros Hc. right.
  destruct (Py.decode_one (String c s)) as [[cp rest]|] eqn:Hd.
  - rewrite (chars_cons _ _ _ Hd) in Hc.
    destruct (Py.chars rest) as [cps'|] eqn:Hrest; [|done].
    simpl in Hc. injection Hc as <-. by exists cp, rest, cps'.
  - unfold Py.chars in Hc. cbn [String.length Py.chars_fuel] in Hc.
    by rewrite Hd in Hc.
Qed.

(** Taking a character below 128 out of a string takes it out of the
    characters of the string. *)
Lemma chars_remove_char x s cps :
  Py.byte x < 128 → Py.chars s = Some cps →
  Py.chars (remove_char x s)
  = Some (filter (λ cp, cp ≠ Py.byte x) cps).
Proof.
  intros Hx. remember (String.length s) as n eqn:Hn.
  revert s cps Hn.
  induction (lt_wf n) as [n _ IH]. intros s cps -> Hc.
  apply chars_inv in Hc
    as [[-> ->]|(cp & rest & cps' & Hd & Hrest & ->)]; [done|].
  pose proof (decode_one_length _ _ _ Hd) as Hlen.
  pose proof (IH _ Hlen rest cps' eq_refl Hrest) as IHrest.
  apply decode_one_inv in Hd as [(c & -> & -> & Hc)|(Hcp & _ & Hrem)].
  - simpl. destruct (decide (c = x)) as [->|Hne].
    + rewrite filter_cons_False by (intros H; by apply H). done.
    + rewrite filter_cons_True by (intros ?%byte_inj; done).
      erewrite chars_cons.
      2:{ unfold Py.decode_one.
          by rewrite (proj2 (Z.ltb_lt _ _)) by done. }
      by rewrite IHrest.
  - rewrite filter_cons_True by lia.
    erewrite chars_cons by by apply Hrem. by rewrite IHrest.
Qed.

(** A string of the characters [0] to [9] is a string of digits. *)
Lemma chars_digits s :
  digits s →
  ∃ cps, Py.chars s = Some cps ∧ forallb Py.is_digit cps = true
         ∧ length cps = String.length s.
Proof.
  induction s as [|c s IH]; [by exists []|].
  simpl. intros [Hc Hs]%andb_prop_elim.
  destruct (IH Hs) as (cps & Hcps & Hall & Hlen).
  exists (Py.byte c :: cps).
  unfold is_ascii_digit in Hc.
  apply andb_prop_elim in Hc as [H1 H2].
  apply Is_true_eq_true in H1, H2.
  apply Nat.leb_le in H1, H2.
  assert (Py.decode_one (String c s) = Some (Py.byte c, s)) as Hd.
  { unfold Py.decode_one.
    rewrite (proj2 (Z.ltb_lt _ _)); [done|]. unfold Py.byte. lia. }
  rewrite (chars_cons _ _ _ Hd), Hcps. simpl.
  split; [done|]. split; [|by rewrite Hlen].
  rewrite Hall, andb_true_r. unfold Py.is_digit, Py.in_ranges.
  unfold Py.digit_ranges. cbn [existsb fst snd].
  rewrite (proj2 (Z.leb_le 48 _)), (proj2 (Z.leb_le _ 57));
    [done|unfold Py.byte; lia..].
Qed.

Lemma isdigit_digits s : s ≠ "" → digits s → Py.isdigit s = true.
Proof.
  intros Hne (cps & Hcps & Hall & Hlen)%chars_digits.
  unfold Py.isdigit. rewrite Hcps.
  destruct cps as [|cp cps]; [|done].
  destruct s; [done | simpl in Hlen; lia].
Qed.

End Utf8Facts.

Section StringFacts.
Import Transformer.
Implicit Types (s a b : string) (c x : ascii).

Lemma remove_char_app c a b :
  remove_char c (a +:+ b) = remove_char c a +:+ remove_char c b.
Proof.
  induction a as [|x a IH]; simpl; [done|].
  destruct (decide (x = c)); simpl; by rewrite IH.
Qed.

Lemma digits_app a b : digits (a +:+ b) = digits a && digits b.
Proof.
  induction a as [|x a IH]; simpl; [done|].
  by rewrite IH, andb_assoc.
Qed.

Lemma remove_char_digits c s :
  digits s → is_ascii_digit c = false → remove_char c s = s.
Proof.
  intros Hs Hc. induction s as [|x s IH]; simpl in *; [done|].
  apply andb_prop_elim in Hs as [Hx Hs].
  rewrite decide_False, IH; [done..|].
  intros ->. by rewrite Hc in Hx.
Qed.

Lemma truthy_app_l a b : Py.truthy a → Py.truthy (a +:+ b).
Proof. by destruct a. Qed.

Lemma truthy_app_r a b : Py.truthy b → Py.truthy (a +:+ b).
Proof. destruct a; [done|]. by intros _. Qed.

Lemma app_empty_l s : "" +:+ s = s.
Proof. reflexivity. Qed.

Lemma truthy_nonempty s : s ≠ "" → Py.truthy s.
Proof. by destruct s. Qed.

Lemma app_nonempty_l a b : a ≠ "" → a +:+ b ≠ "".
Proof. by destruct a. Qed.

(** The characters of a string without its points and minus signs. *)
Lemma chars_stripped s cps :
  Py.chars s = Some cps →
  Py.chars (remove_char "-" (remove_char "." s))
  = Some (filter (λ cp, cp ≠ 45%Z) (filter (λ cp, cp ≠ 46%Z) cps)).
Proof.
  intros Hs.
  apply (chars_remove_char "." _ _ ltac:(done)) in Hs.
  by apply (chars_remove_char "-" _ _ ltac:(done)) in Hs.
Qed.

End StringFacts.

Section CellFacts.
Import Exporter Transformer.
#[local] Open Scope Z_scope.

(** A plain decimal number, negative or not, passes the check. *)
Lemma money_cell_decimal s : decimal_literal s → money_cell (JStr s) = s.
Proof.
  intros (sign & whole & frac & -> & Hsign & Hne & Hwhole & Hfrac).
  unfold money_cell. simpl.
  assert (Py.truthy (sign +:+ whole +:+ frac)) as Ht.
  { apply truthy_app_r, truthy_app_l. by apply truthy_nonempty. }
  assert (isdigit (remove_char "-" (remove_char "."
                     (sign +:+ whole +:+ frac))) = true) as Hd.
  { rewrite !remove_char_app.
    rewrite (remove_char_digits "." whole), (remove_char_digits "-" whole)
      by done.
    assert (remove_char "-" (remove_char "." sign) = "") as ->.
    { by destruct Hsign as [-> | ->]. }
    rewrite app_empty_l. unfold isdigit.
    apply isdigit_digits; [by apply app_nonempty_l|].
    rewrite digits_app. apply andb_prop_intro. split; [done|].
    destruct Hfrac as [->|(f & -> & _ & Hf)]; [done|].
    change (remove_char "." ("." +:+ f)) with (remove_char "." f).
    by rewrite (remove_char_digits "." f), (remove_char_digits "-" f). }
  apply Is_true_eq_true in Ht. by rewrite Ht, Hd.
Qed.

(** A character that no number is written with fails it. *)
Lemma money_cell_foreign s : has_foreign_char s → money_cell (JStr s) = "0".
Proof.
  intros (cps & cp & Hcps & Hin & Hdig & Hdot & Hminus).
  unfold money_cell. simpl.
  destruct (isdigit _) eqn:Hd; [|by rewrite andb_false_r].
  exfalso. unfold isdigit, Py.isdigit in Hd.
  rewrite (chars_stripped _ _ Hcps) in Hd.
  assert (cp ∈ filter (λ cp, cp ≠ 45)
                 (filter (λ cp, cp ≠ 46) cps)) as Hkept.
  { apply list_elem_of_filter. split; [done|].
    by apply list_elem_of_filter. }
  destruct (filter _ (filter _ cps)) as [|d ds] eqn:Hf.
  { by apply elem_of_nil in Hkept. }
  rewrite forallb_forall in Hd.
  apply list_elem_of_In, Hd in Hkept. congruence.
Qed.

Lemma money_cell_rule_cell (v : JValue) :
  money_cell_rule (Some v) (money_cell v).
Proof.
  destruct v as [|s]; simpl; [done|]. split.
  - apply money_cell_decimal.
  - intros [->|Hf]; [done | by apply money_cell_foreign].
Qed.

Lemma bag_cell_rule bag cell :
  bag_cell bag = Some cell → money_cell_rule (bag_amount bag) cell.
Proof.
  destruct bag as [| |[m|]]; simpl; try by intros [= <-].
  intros [= <-]. apply money_cell_rule_cell.
Qed.

Lemma compare_at_cell_rule v : money_cell_rule v (compare_at_cell v).
Proof. destruct v as [v|]; [apply money_cell_rule_cell | done]. Qed.

Lemma quantity_cell_rule_cell q : quantity_cell_rule q (quantity_cell q).
Proof.
  unfold quantity_cell. destruct q as [q|]; simpl; [|done].
  case_bool_decide; split; intros; try done; lia.
Qed.

Lemma bag_cell_is_Some bag : bag ≠ BagNull ↔ is_Some (bag_cell bag).
Proof.
  destruct bag as [| |[m|]]; simpl; split; try done; try by eauto.
Qed.

End CellFacts.

Section ItemLoop.
Import Exporter Transformer.
Implicit Types (n subtotal shipping taxes total : string).
Implicit Types (item : LineItem) (items : list LineItem).
Implicit Types (row : CsvRow).

Lemma item_row_is_Some n subtotal shipping taxes total item :
  originalUnitPriceSet item ≠ BagNull
  ↔ is_Some (item_row n subtotal shipping taxes total item).
Proof.
  rewrite bag_cell_is_Some. unfold item_row.
  destruct (bag_cell (originalUnitPriceSet item)); simpl.
  - split; by eauto.
  - split; by intros [? ?].
Qed.

Lemma item_row_cells n subtotal shipping taxes total item row :
  item_row n subtotal shipping taxes total item = Some row →
  Name row = n ∧ Subtotal row = subtotal ∧ Shipping row = shipping
  ∧ Taxes row = taxes ∧ Total row = total
  ∧ Lineitem_quantity row = quantity_cell (quantity item)
  ∧ Lineitem_name row = item_name item
  ∧ bag_cell (originalUnitPriceSet item) = Some (Lineitem_price row)
  ∧ Lineitem_compare_at_price row
    = compare_at_cell (compareAtPrice item).
Proof.
  unfold item_row.
  destruct (bag_cell (originalUnitPriceSet item)) as [price|]; [|done].
  simpl. intros [= <-]. done.
Qed.

Lemma last_cons_cons {A} (x y : A) (l : list A) :
  last (x :: y :: l) = last (y :: l).
Proof. done. Qed.

(** The loop ends well when every pass does, and then leaves the row
    of the last pass. *)
Lemma item_loop_Some n subtotal shipping taxes total items
    (init out : option CsvRow) :
  item_loop n subtotal shipping taxes total items init = Some out ↔
  Forall (λ item, originalUnitPriceSet item ≠ BagNull) items
  ∧ out = match last items with
          | Some item => item_row n subtotal shipping taxes total item
          | None => init
          end.
Proof.
  revert init. induction items as [|item rest IH]; intros init.
  { simpl. split; [by intros [= <-]|by intros [_ ->]]. }
  cbn [item_loop].
  destruct (item_row n subtotal shipping taxes total item)
    as [row|] eqn:Hrow.
  - rewrite IH, Forall_cons.
    assert (originalUnitPriceSet item ≠ BagNull) as Hitem.
    { apply (item_row_is_Some n subtotal shipping taxes total).
      by rewrite Hrow. }
    destruct rest as [|item' rest].
    + simpl. rewrite Hrow.
      split; [by intros [_ ->] | by intros [_ ->]].
    + rewrite last_cons_cons.
      destruct (last (item' :: rest)) as [item''|] eqn:Hlast.
      2:{ by apply last_None in Hlast. }
      split; [by intros [? ->] | by intros [[_ ?] ->]].
  - split; [done|]. intros [[Hitem _]%Forall_cons _].
    apply (item_row_is_Some n subtotal shipping taxes total) in Hitem.
    rewrite Hrow in Hitem. by destruct Hitem.
Qed.

(** One faulty line item makes the whole loop raise. *)
Lemma item_loop_faulty n subtotal shipping taxes total items
    (init : option CsvRow) item :
  item ∈ items → originalUnitPriceSet item = BagNull →
  item_loop n subtotal shipping taxes total items init = None.
Proof.
  intros Hin Hbad.
  destruct (item_loop n subtotal shipping taxes total items init)
    as [out|] eqn:Hloop; [|done].
  apply item_loop_Some in Hloop as [Hall _].
  rewrite Forall_forall in Hall. by destruct (Hall item Hin).
Qed.

End ItemLoop.

Section OrderRows.
Import Exporter Transformer.
Implicit Types (o : Order) (row : CsvRow).

(** What the row of an order holds. *)
Lemma convert_order_cells o row :
  convert_order o = Converted row →
  order_name o = Some (Name row)
  ∧ bag_cell (subtotalPriceSet o) = Some (Subtotal row)
  ∧ bag_cell (totalShippingPriceSet o) = Some (Shipping row)
  ∧ bag_cell (totalTaxSet o) = Some (Taxes row)
  ∧ bag_cell (totalPriceSet o) = Some (Total row)
  ∧ ((lineItems o = []
      ∧ Lineitem_quantity row = "0" ∧ Lineitem_name row = ""
      ∧ Lineitem_price row = "0"
      ∧ Lineitem_compare_at_price row = "0")
     ∨ ∃ item, last (lineItems o) = Some item
         ∧ Forall (λ item, originalUnitPriceSet item ≠ BagNull)
             (lineItems o)
         ∧ Lineitem_quantity row = quantity_cell (quantity item)
         ∧ Lineitem_name row = item_name item
         ∧ bag_cell (originalUnitPriceSet item)
           = Some (Lineitem_price row)
         ∧ Lineitem_compare_at_price row
           = compare_at_cell (compareAtPrice item)).
Proof.
  unfold convert_order.
  destruct (order_name o) as [n|]; [|done].
  destruct (bag_cell (subtotalPriceSet o)) as [subtotal|]; [|done].
  destruct (bag_cell (totalShippingPriceSet o)) as [shipping|]; [|done].
  destruct (bag_cell (totalTaxSet o)) as [taxes|]; [|done].
  destruct (bag_cell (totalPriceSet o)) as [total|]; [|done].
  destruct (lineItems o) as [|item0 items].
  { intros [= <-]. simpl.
    repeat (split; [done|]). left. by repeat split. }
  destruct (item_loop n subtotal shipping taxes total (item0 :: items)
              None) as [[out|]|] eqn:Hloop; [|done..].
  intros [= ->].
  apply item_loop_Some in Hloop as [Hall Hout].
  destruct (last (item0 :: items)) as [item|] eqn:Hlast; [|done].
  symmetry in Hout.
  apply item_row_cells in Hout
    as (-> & -> & -> & -> & -> & Hq & Hname & Hp & Hc).
  repeat (split; [done|]). right. exists item. by repeat split.
Qed.

Lemma order_rows_Converted o row :
  row ∈ order_rows o ↔ convert_order o = Converted row.
Proof.
  unfold order_rows. destruct (convert_order o) as [| |row'].
  - split; [by intros ?%elem_of_nil | done].
  - split; [by intros ?%elem_of_nil | done].
  - rewrite list_elem_of_singleton. split; [by intros -> | by intros [= ->]].
Qed.

Lemma order_rows_elem o row :
  row ∈ order_rows o →
  order_rows o = [row]
  ∧ order_name o = Some (Name row)
  ∧ bag_cell (subtotalPriceSet o) = Some (Subtotal row)
  ∧ bag_cell (totalShippingPriceSet o) = Some (Shipping row)
  ∧ bag_cell (totalTaxSet o) = Some (Taxes row)
  ∧ bag_cell (totalPriceSet o) = Some (Total row)
  ∧ ((lineItems o = []
      ∧ Lineitem_quantity row = "0" ∧ Lineitem_name row = ""
      ∧ Lineitem_price row = "0"
      ∧ Lineitem_compare_at_price row = "0")
     ∨ ∃ item, last (lineItems o) = Some item
         ∧ Forall (λ item, originalUnitPriceSet item ≠ BagNull)
             (lineItems o)
         ∧ Lineitem_quantity row = quantity_cell (quantity item)
         ∧ Lineitem_name row = item_name item
         ∧ bag_cell (originalUnitPriceSet item)
           = Some (Lineitem_price row)
         ∧ Lineitem_compare_at_price row
           = compare_at_cell (compareAtPrice item)).
Proof.
  intros Hrow%order_rows_Converted. split.
  - unfold order_rows. by rewrite Hrow.
  - by apply convert_order_cells.
Qed.

Lemma order_rows_nameless o : order_name o = None → order_rows o = [].
Proof. unfold order_rows, convert_order. by intros ->. Qed.

(** An order gives one row at most. *)
Lemma order_rows_length o : (length (order_rows o) <= 1)%nat.
Proof. unfold order_rows. destruct (convert_order o); simpl; lia. Qed.

(** Only an order without a name is passed over without an error. *)
Lemma convert_order_Skipped o :
  convert_order o = Skipped ↔ order_name o = None.
Proof.
  unfold convert_order. destruct (order_name o) as [n|]; [|done].
  split; [|done].
  destruct (bag_cell (subtotalPriceSet o)); [|done].
  destruct (bag_cell (totalShippingPriceSet o)); [|done].
  destruct (bag_cell (totalTaxSet o)); [|done].
  destruct (bag_cell (totalPriceSet o)); [|done].
  destruct (lineItems o); [done|].
  by destruct (item_loop _ _ _ _ _ _ _) as [[?|]|].
Qed.

(** A named order without a [null] money entry is converted. *)
Lemma convert_order_convertible o n :
  order_name o = Some n → convertible o →
  ∃ row, convert_order o = Converted row ∧ Name row = n.
Proof.
  unfold convert_order. intros -> (H1 & H2 & H3 & H4 & Hitems).
  apply bag_cell_is_Some in H1 as [c1 ->], H2 as [c2 ->],
    H3 as [c3 ->], H4 as [c4 ->].
  destruct (lineItems o) as [|item0 items] eqn:Hl; [by eexists|].
  destruct (last (item0 :: items)) as [item|] eqn:Hlast.
  2:{ by apply last_None in Hlast. }
  assert (item ∈ item0 :: items) as Hin.
  { apply last_Some in Hlast as [l' ->]. set_solver. }
  pose proof (proj1 (Forall_forall _ _) Hitems item Hin) as Hitem.
  apply (item_row_is_Some n c1 c2 c3 c4) in Hitem as [row Hrow].
  rewrite (proj2 (item_loop_Some n c1 c2 c3 c4 _ None (Some row))).
  - exists row. split; [done|].
    by apply item_row_cells in Hrow as [? _].
  - split; [done|]. by rewrite Hlast, Hrow.
Qed.

(** An order with a [null] money entry gives no row. *)
Lemma order_rows_not_convertible o :
  ¬ convertible o → order_rows o = [].
Proof.
  intros Hnot.
  destruct (order_rows o) as [|row rows] eqn:Hrows; [done|].
  exfalso. apply Hnot.
  assert (row ∈ order_rows o) as Hin by (rewrite Hrows; by left).
  apply order_rows_elem in Hin
    as (_ & _ & H1 & H2 & H3 & H4 & Hitems).
  unfold convertible.
  rewrite !bag_cell_is_Some, H1, H2, H3, H4.
  repeat (split; [by eauto|]).
  destruct Hitems as [(-> & _)|(item & _ & Hall & _)]; [done|].
  done.
Qed.

(** In this embedding the conversion of a named order raises exactly on
    a [null] money entry. *)
Lemma convert_order_Raised o :
  convert_order o = Raised ↔ is_Some (order_name o) ∧ ¬ convertible o.
Proof.
  split.
  - intros Hraised. split.
    + destruct (order_name o) as [n|] eqn:Hn; [by eexists|].
      apply convert_order_Skipped in Hn. congruence.
    + intros Hconv. destruct (order_name o) as [n|] eqn:Hn.
      * destruct (convert_order_convertible o n Hn Hconv) as (row & ? & _).
        congruence.
      * apply convert_order_Skipped in Hn. congruence.
  - intros [[n Hn] Hnot].
    pose proof (order_rows_not_convertible o Hnot) as Hnone.
    unfold order_rows in Hnone.
    destruct (convert_order o) as [| |row] eqn:Hc; [|done..].
    apply convert_order_Skipped in Hc. congruence.
Qed.

End OrderRows.
Section TransformerClaims.
Import Exporter Transformer.
#[local] Open Scope Z_scope.

(** C3 (as stated, refuted): an order whose total is the negative amount
    [-5.00] is emitted with the cell [-5.00], not ["0"], although
    [-5.00] is not a non-negative number. *)
Lemma C3_negative_amount_counterexample :
  let order :=
    {| name := Some "#1001"; gid := "gid://shopify/Order/1";
       subtotalPriceSet := Samples.money "10.00";
       totalShippingPriceSet := Samples.money "0.00";
       totalTaxSet := Samples.money "1.00";
       totalPriceSet := Samples.money "-5.00";
       lineItems := []; store := None |} in
  (∃ row, convert_to_csv_data [order] = [row] ∧ Total row = "-5.00")
  ∧ ¬ non_negative_literal "-5.00"
  ∧ "-5.00" ≠ "0".
Proof.
  split; [|split].
  - eexists. split; [vm_compute; reflexivity | reflexivity].
  - intros [_ Hneg]. by apply (Hneg "5.00").
  - done.
Qed.

(** The check is [str.isdigit], which holds of the digits of every
    script: an amount in fullwidth digits is emitted as it is, and one
    in letters is not. *)
Example money_cell_fullwidth_digits :
  money_cell (JStr "１２３") = "１２３"
  ∧ money_cell (JStr "12a") = "0"
  ∧ money_cell (JStr "12　") = "0".
Proof. vm_compute. done. Qed.

(** C3 (amended): in every row that the transformer emits, a money cell
    (Subtotal, Shipping, Taxes, Total, Lineitem price, Lineitem compare
    at price) is the source amount itself when that amount is a plain
    decimal number, negative or not, and is ["0"] when the amount is
    missing, [null], empty or holds a character other than a digit (of
    whatever script, as [str.isdigit] has it), a point or a minus
    sign; the quantity cell is the decimal form of the source quantity
    when it is positive and ["0"] otherwise.  The line item cells of a
    row are those of the last line item of its order. *)
Theorem C3_money_and_quantity_cells (orders : list Order) (row : CsvRow) :
  row ∈ convert_to_csv_data orders →
  ∃ order, order ∈ orders
    ∧ order_name order = Some (Name row)
    ∧ money_cell_rule (bag_amount (subtotalPriceSet order)) (Subtotal row)
    ∧ money_cell_rule (bag_amount (totalShippingPriceSet order))
        (Shipping row)
    ∧ money_cell_rule (bag_amount (totalTaxSet order)) (Taxes row)
    ∧ money_cell_rule (bag_amount (totalPriceSet order)) (Total row)
    ∧ ((lineItems order = []
        ∧ Lineitem_quantity row = "0" ∧ Lineitem_price row = "0"
        ∧ Lineitem_compare_at_price row = "0")
       ∨ ∃ item, last (lineItems order) = Some item
           ∧ quantity_cell_rule (quantity item) (Lineitem_quantity row)
           ∧ money_cell_rule (bag_amount (originalUnitPriceSet item))
               (Lineitem_price row)
           ∧ money_cell_rule (compareAtPrice item)
               (Lineitem_compare_at_price row)).
Proof.
  unfold convert_to_csv_data. intros (order & Hrow & Hin)%list_elem_of_bind.
  exists order. split; [done|].
  apply order_rows_elem in Hrow
    as (_ & Hn & H1 & H2 & H3 & H4 & Hitems).
  apply bag_cell_rule in H1, H2, H3, H4.
  repeat (split; [done|]).
  destruct Hitems as [(Hnil & Hq & _ & Hp & Hc)
                     |(item & Hlast & _ & Hq & _ & Hp & Hc)].
  - left. by repeat split.
  - right. exists item. split; [done|].
    rewrite Hq, Hc. split; [apply quantity_cell_rule_cell|].
    split; [by apply bag_cell_rule | apply compare_at_cell_rule].
Qed.

Lemma C3_money_and_quantity_cells_witness :
  let order := Samples.order "#1001"
                 [Samples.item 1 "3.00"; Samples.item 2 "-5.00"] in
  let row := {| Name := "#1001"; Subtotal := "10.00"; Shipping := "0.00";
                Taxes := "1.00"; Total := "11.00";
                Lineitem_quantity := "2"; Lineitem_name := "print";
                Lineitem_price := "-5.00";
                Lineitem_compare_at_price := "0" |} in
  ∃ o, o ∈ [order]
    ∧ order_name o = Some (Name row)
    ∧ money_cell_rule (bag_amount (subtotalPriceSet o)) (Subtotal row)
    ∧ money_cell_rule (bag_amount (totalShippingPriceSet o)) (Shipping row)
    ∧ money_cell_rule (bag_amount (totalTaxSet o)) (Taxes row)
    ∧ money_cell_rule (bag_amount (totalPriceSet o)) (Total row)
    ∧ ((lineItems o = []
        ∧ Lineitem_quantity row = "0" ∧ Lineitem_price row = "0"
        ∧ Lineitem_compare_at_price row = "0")
       ∨ ∃ item, last (lineItems o) = Some item
           ∧ quantity_cell_rule (quantity item) (Lineitem_quantity row)
           ∧ money_cell_rule (bag_amount (originalUnitPriceSet item))
               (Lineitem_price row)
           ∧ money_cell_rule (compareAtPrice item)
               (Lineitem_compare_at_price row)).
Proof.
  apply (C3_money_and_quantity_cells
           [Samples.order "#1001"
              [Samples.item 1 "3.00"; Samples.item 2 "-5.00"]]).
  vm_compute. by left.
Defined.

End TransformerClaims.

(** * Duplicate records across pages and windows *)

Section Dedup.
Import Exporter.
#[local] Open Scope Z_scope.
Implicit Types (o : Order) (k n : string) (seen : gset string)
  (orders met : list Order).

Lemma named_app k l1 l2 : named k (l1 ++ l2) = named k l1 ++ named k l2.
Proof. apply filter_app. Qed.

Lemma named_one_eq o k : order_name o = Some k → named k [o] = [o].
Proof. intros Hk. unfold named. by rewrite filter_cons, decide_True. Qed.

Lemma named_one_ne o k : order_name o ≠ Some k → named k [o] = [].
Proof. intros Hk. unfold named. by rewrite filter_cons, decide_False. Qed.

Lemma order_name_tag cfg o : order_name (tag cfg o) = order_name o.
Proof. done. Qed.

Lemma take_1_app_nonempty {A} (l1 l2 : list A) :
  l1 ≠ [] → take 1 (l1 ++ l2) = take 1 l1.
Proof. by destruct l1. Qed.

Lemma dedup_inv_nil f : dedup_inv f [] ∅ [].
Proof. split; intros k; [|done]. split; [by intros ?%not_elem_of_empty|done]. Qed.

(** An order without a name changes nothing. *)
Lemma dedup_inv_nameless f orders seen met o :
  order_name o = None →
  dedup_inv f orders seen met → dedup_inv f orders seen (met ++ [o]).
Proof.
  intros Hn [Hseen Hkept].
  assert (∀ k, named k (met ++ [o]) = named k met) as Hsame.
  { intros k. rewrite named_app, named_one_ne, app_nil_r; [done|].
    by rewrite Hn. }
  split; intros k; rewrite Hsame; [apply Hseen | apply Hkept].
Qed.

(** An order whose name was seen is dropped. *)
Lemma dedup_inv_skip f orders seen met o n :
  order_name o = Some n → n ∈ seen →
  dedup_inv f orders seen met → dedup_inv f orders seen (met ++ [o]).
Proof.
  intros Hn Hin [Hseen Hkept].
  split; intros k; rewrite named_app.
  - rewrite Hseen. split.
    + intros Hne Heq. by apply app_eq_nil in Heq as [? _].
    + intros Hne Heq. destruct (decide (k = n)) as [->|Hkn].
      * by apply Hseen in Hin.
      * rewrite Heq, named_one_ne in Hne; [done | congruence].
  - destruct (decide (k = n)) as [->|Hkn].
    + rewrite take_1_app_nonempty; [apply Hkept | by apply Hseen].
    + rewrite named_one_ne, app_nil_r by congruence. apply Hkept.
Qed.

(** An order whose name is new is kept. *)
Lemma dedup_inv_keep f orders seen met o n :
  (∀ o', order_name (f o') = order_name o') →
  order_name o = Some n → n ∉ seen →
  dedup_inv f orders seen met →
  dedup_inv f (orders ++ [f o]) ({[n]} ∪ seen) (met ++ [o]).
Proof.
  intros Hf Hn Hnin [Hseen Hkept].
  assert (named n met = []) as Hnone.
  { destruct (named n met) eqn:Heq; [done|].
    exfalso. apply Hnin, Hseen. by rewrite Heq. }
  split; intros k; rewrite !named_app.
  - rewrite elem_of_union, elem_of_singleton, Hseen.
    destruct (decide (k = n)) as [->|Hkn].
    + rewrite named_one_eq by done. split; [|by left].
      intros _ Heq. by apply app_eq_nil in Heq as [_ ?].
    + rewrite named_one_ne, app_nil_r by congruence. tauto.
  - destruct (decide (k = n)) as [->|Hkn].
    + rewrite Hkept, Hnone. rewrite !named_one_eq; [done..|].
      by rewrite Hf.
    + rewrite !named_one_ne, !app_nil_r; [apply Hkept|..];
        rewrite ?Hf; congruence.
Qed.

Lemma valid_orders_cons e es :
  valid_orders (e :: es) =
    match e with
    | EdgeNode o => match order_name o with
                    | Some _ => [o]
                    | None => []
                    end
    | EdgeInvalid | EdgeNotDict => []
    end ++ valid_orders es.
Proof.
  unfold valid_orders. simpl.
  destruct e as [| |o]; try done. by destruct (order_name o).
Qed.

(** The [for edge in edges] loop with the duplicate check. *)
Lemma process_edges_dedup cfg es : ∀ orders seen d met,
  dedup_inv (tag cfg) orders seen met →
  let out := process_edges true cfg es (orders, seen, d) in
  dedup_inv (tag cfg) out.1.1 out.1.2 (met ++ valid_orders es).
Proof.
  induction es as [|e es IH]; intros orders seen d met Hinv.
  { simpl. by rewrite app_nil_r. }
  rewrite valid_orders_cons. simpl.
  destruct e as [| |o]; simpl; try by apply IH.
  destruct (order_name o) as [n|] eqn:Hn; simpl; [|by apply IH].
  replace (met ++ o :: valid_orders es) with ((met ++ [o]) ++ valid_orders es)
    by (by rewrite <- app_assoc).
  case_bool_decide as Hseen; apply IH.
  - by eapply dedup_inv_skip.
  - by apply dedup_inv_keep.
Qed.

Lemma observed_app tr1 tr2 : observed (tr1 ++ tr2) = observed tr1 ++ observed tr2.
Proof. apply bind_app. Qed.

Lemma adjust_observed a b c batch consecutive adjusted :
  adjust a b c = (batch, consecutive, adjusted) → observed adjusted = [].
Proof.
  unfold adjust. repeat case_bool_decide; by intros [= <- <- <-].
Qed.

Lemma observed_page c b es d adjusted :
  observed adjusted = [] →
  observed (Query c b :: Page b es d :: adjusted) = valid_orders es.
Proof.
  intros Hadj. change (observed (Query c b :: Page b es d :: adjusted))
    with (valid_orders es ++ observed adjusted).
  by rewrite Hadj, app_nil_r.
Qed.

Lemma observed_page_sleep c b es d adjusted secs :
  observed adjusted = [] →
  observed (Query c b :: Page b es d :: adjusted ++ [Sleep secs])
  = valid_orders es.
Proof.
  intros Hadj.
  change (observed (Query c b :: Page b es d :: adjusted ++ [Sleep secs]))
    with (valid_orders es ++ observed (adjusted ++ [Sleep secs])).
  rewrite observed_app, Hadj.
  change (observed [Sleep secs]) with (@nil Order).
  by rewrite !app_nil_r.
Qed.

Lemma attempt_dedup cfg st fetched tr step evs :
  dedup_inv (tag cfg) (store_orders st) (seen_order_names st)
    (observed tr) →
  attempt true cfg st fetched = (step, evs) →
  dedup_inv (tag cfg) (store_orders (step_state step))
    (seen_order_names (step_state step)) (observed (tr ++ evs)).
Proof.
  intros Hinv. unfold attempt. rewrite observed_app.
  destruct fetched as [[| |orders]|msg].
  - intros [= <- <-]. simpl. by rewrite app_nil_r.
  - intros [= <- <-]. simpl. by rewrite app_nil_r.
  - destruct (edges orders) as [|e es] eqn:Hes.
    { intros [= <- <-]. simpl. by rewrite app_nil_r. }
    pose proof (process_edges_dedup cfg (e :: es) _ _ 0 _ Hinv) as Hpe.
    destruct (process_edges true cfg (e :: es) _) as [[os seen] d].
    destruct (adjust _ _ _) as [[batch consecutive] adjusted] eqn:Hadj.
    apply adjust_observed in Hadj.
    destruct (hasNextPage orders); cbn [negb];
      [destruct (truthy_cursor (endCursor orders)); cbn [negb]|];
      intros [= <- <-].
    + rewrite observed_page_sleep by done. exact Hpe.
    + rewrite observed_page by done. exact Hpe.
    + rewrite observed_page by done. exact Hpe.
  - destruct (_ || _).
    + case_bool_decide; intros [= <- <-]; simpl; by rewrite app_nil_r.
    + intros [= <- <-]. simpl. by rewrite app_nil_r.
Qed.

Lemma run_dedup cfg script : ∀ st tr r evs,
  dedup_inv (tag cfg) (store_orders st) (seen_order_names st)
    (observed tr) →
  run true cfg st script = (r, evs) →
  dedup_inv (tag cfg) (store_orders (state_of r))
    (seen_order_names (state_of r)) (observed (tr ++ evs)).
Proof.
  induction script as [|fetched rest IH]; intros st tr r evs Hinv; simpl.
  - intros [= <- <-]. by rewrite app_nil_r.
  - destruct (attempt true cfg st fetched) as [[st'|st'] evs1] eqn:Hstep.
    + intros [= <- <-]. apply (attempt_dedup _ _ _ _ _ _ Hinv Hstep).
    + destruct (run true cfg st' rest) as [r' evs2] eqn:Hrun.
      intros [= <- <-]. rewrite app_assoc.
      eapply IH; [|done]. apply (attempt_dedup _ _ _ _ _ _ Hinv Hstep).
Qed.

(** What one window's extraction keeps of each natural key. *)
Lemma fetch_orders_from_store_named cfg replies k :
  let out := fetch_orders_from_store cfg replies in
  named k (store_orders (state_of out.1))
  = tag cfg <$> take 1 (named k (observed out.2)).
Proof.
  intros out. unfold out, fetch_orders_from_store.
  destruct (run true cfg initial_state _) as [r evs] eqn:Hrun.
  apply (run_dedup cfg _ initial_state []) in Hrun as [_ Hkept].
  - apply Hkept.
  - apply dedup_inv_nil.
Qed.

(** The global duplicate check on one period. *)
Lemma unique_in_period_dedup period : ∀ base unique seen met,
  dedup_inv id (base ++ unique) seen met →
  let out := unique_in_period period (unique, seen) in
  dedup_inv id (base ++ out.1) out.2 (met ++ period).
Proof.
  induction period as [|o period IH]; intros base unique seen met Hinv.
  { simpl. by rewrite app_nil_r. }
  simpl. replace (met ++ o :: period) with ((met ++ [o]) ++ period)
    by (by rewrite <- app_assoc).
  destruct (order_name o) as [n|] eqn:Hn.
  - case_bool_decide as Hseen; apply IH.
    + by eapply dedup_inv_skip.
    + rewrite app_assoc. by apply (dedup_inv_keep id).
  - apply IH. by apply dedup_inv_nameless.
Qed.

Lemma collect_periods_dedup periods : ∀ all_orders seen met,
  dedup_inv id all_orders seen met →
  let out := collect_periods periods (all_orders, seen) in
  dedup_inv id out.1 out.2 (met ++ concat periods).
Proof.
  induction periods as [|period periods IH];
    intros all_orders seen met Hinv.
  { simpl. by rewrite app_nil_r. }
  simpl.
  pose proof (unique_in_period_dedup period all_orders [] seen met) as Hp.
  rewrite app_nil_r in Hp. specialize (Hp Hinv).
  destruct (unique_in_period period ([], seen)) as [unique seen'].
  rewrite app_assoc. by apply IH.
Qed.

(** What a backfill keeps of each natural key. *)
Lemma fetch_all_orders_chunked_named windows k :
  named k (fetch_all_orders_chunked windows)
  = take 1 (named k (concat (fetch_all_orders_parallel <$> windows))).
Proof.
  unfold fetch_all_orders_chunked.
  pose proof (collect_periods_dedup (fetch_all_orders_parallel <$> windows)
                [] ∅ [] (dedup_inv_nil id)) as [_ Hkept].
  rewrite Hkept. simpl. by rewrite list_fmap_id.
Qed.

End Dedup.
Section RowsOfOrders.
Import Exporter Transformer.
Implicit Types (o : Order) (k : string) (orders : list Order).

(** Every row of an order carries the order's name. *)
Lemma order_rows_name o n :
  order_name o = Some n → Forall (λ row, Name row = n) (order_rows o).
Proof.
  intros Hn. apply Forall_forall. intros row Hrow.
  apply order_rows_elem in Hrow as (_ & Hname & _). congruence.
Qed.

Lemma filter_all {A} (P : A → Prop) `{∀ x, Decision (P x)} (l : list A) :
  Forall P l → filter P l = l.
Proof.
  induction 1 as [|x l Hx _ IH]; [done|].
  by rewrite filter_cons, decide_True, IH.
Qed.

Lemma filter_none {A} (P : A → Prop) `{∀ x, Decision (P x)} (l : list A) :
  Forall (λ x, ¬ P x) l → filter P l = [].
Proof.
  induction 1 as [|x l Hx _ IH]; [done|].
  by rewrite filter_cons, decide_False, IH.
Qed.

(** The rows with a given name are the rows of the orders with it. *)
Lemma rows_named k orders :
  filter (λ row, Name row = k) (convert_to_csv_data orders)
  = named k orders ≫= order_rows.
Proof.
  unfold convert_to_csv_data, named.
  induction orders as [|o orders IH]; [done|].
  rewrite bind_cons, filter_app, IH, filter_cons.
  destruct (order_name o) as [n|] eqn:Hn.
  - pose proof (order_rows_name o n Hn) as Hrows.
    destruct (decide (Some n = Some k)) as [[= ->]|Hne].
    + by rewrite filter_all, bind_cons.
    + rewrite filter_none; [done|].
      eapply Forall_impl; [done|]. simpl. intros row -> ->. done.
  - rewrite decide_False by done. by rewrite order_rows_nameless.
Qed.

Lemma convert_order_tag cfg o :
  convert_order (tag cfg o) = convert_order o.
Proof. done. Qed.

(** The rows of the one record kept under a name: its row when it is
    converted, none when its conversion raises. *)
Lemma rows_of_kept k orders o :
  named k orders = [o] →
  (∀ row, convert_order o = Converted row →
     filter (λ row, Name row = k) (convert_to_csv_data orders) = [row])
  ∧ (convert_order o = Raised →
     filter (λ row, Name row = k) (convert_to_csv_data orders) = [])
  ∧ convert_order o ≠ Skipped.
Proof.
  intros Hkept. rewrite rows_named, Hkept, bind_cons, app_nil_r.
  unfold order_rows. split; [by intros row ->|]. split; [by intros ->|].
  intros Hskip%convert_order_Skipped.
  assert (o ∈ named k orders) as Hin by (rewrite Hkept; by left).
  apply list_elem_of_filter in Hin as [Hk _]. congruence.
Qed.

End RowsOfOrders.

Section DedupClaims.
Import Exporter Transformer.
#[local] Open Scope Z_scope.

(** C4 (as stated, refuted): an order whose subtotal entry is [null] is
    met on two pages and kept once in the output of the run; its
    conversion raises, the order is skipped, and the output is
    transformed into no row for it, not into one. *)
Lemma C4_one_row_counterexample :
  let o := {| name := Some "#1001"; gid := "gid://shopify/Order/1";
              subtotalPriceSet := BagNull;
              totalShippingPriceSet := Samples.money "0.00";
              totalTaxSet := Samples.money "1.00";
              totalPriceSet := Samples.money "11.00";
              lineItems := [Samples.item 1 "5.00"]; store := None |} in
  let out := fetch_orders_from_store Samples.photopri
               [Samples.page [EdgeNode o] "c1";
                Samples.last_page [EdgeNode o]] in
  let kept := store_orders (state_of out.1) in
  named "#1001" (observed out.2) = [o; o]
  ∧ named "#1001" kept = [tag Samples.photopri o]
  ∧ convert_order (tag Samples.photopri o) = Raised
  ∧ filter (λ row, Name row = "#1001") (convert_to_csv_data kept) = []
  ∧ length (filter (λ row, Name row = "#1001")
              (convert_to_csv_data kept)) ≠ 1%nat.
Proof. vm_compute. done. Qed.

(** C4 (amended): of the records that carry a natural key [k], one
    window's extraction keeps exactly the first one met on its pages, and
    a full-history backfill keeps exactly the first one across its
    windows; later ones are dropped and nothing is raised.  The rows of
    the output with the name [k] are those of that one record: exactly
    one row when it is converted, and no row when its conversion raises
    an error, the record being logged and skipped. *)
Theorem C4_first_occurrence_kept (cfg : StoreConfig) (replies : list Reply)
    (windows : list (list (StoreConfig * list Reply))) (k : string) :
  (∀ first later,
      let out := fetch_orders_from_store cfg replies in
      let kept := store_orders (state_of out.1) in
      named k (observed out.2) = first :: later →
      named k kept = [tag cfg first]
      ∧ (∀ row, convert_order (tag cfg first) = Converted row →
           filter (λ row, Name row = k) (convert_to_csv_data kept)
           = [row])
      ∧ (convert_order (tag cfg first) = Raised →
           filter (λ row, Name row = k) (convert_to_csv_data kept) = [])
      ∧ convert_order (tag cfg first) ≠ Skipped)
  ∧ (∀ first later,
      let kept := fetch_all_orders_chunked windows in
      named k (concat (fetch_all_orders_parallel <$> windows))
        = first :: later →
      named k kept = [first]
      ∧ (∀ row, convert_order first = Converted row →
           filter (λ row, Name row = k) (convert_to_csv_data kept)
           = [row])
      ∧ (convert_order first = Raised →
           filter (λ row, Name row = k) (convert_to_csv_data kept) = [])
      ∧ convert_order first ≠ Skipped).
Proof.
  split; intros first later.
  - intros out kept Hmet. subst kept out.
    set (out := fetch_orders_from_store cfg replies) in *.
    set (kept := store_orders (state_of out.1)).
    assert (named k kept = [tag cfg first]) as Hkept.
    { unfold kept, out. rewrite fetch_orders_from_store_named.
      fold out. by rewrite Hmet. }
    split; [done|]. by apply rows_of_kept.
  - intros kept Hmet. subst kept.
    set (kept := fetch_all_orders_chunked windows).
    assert (named k kept = [first]) as Hkept.
    { unfold kept. by rewrite fetch_all_orders_chunked_named, Hmet. }
    split; [done|]. by apply rows_of_kept.
Qed.

End DedupClaims.

Section DedupWitness.
Import Exporter Transformer.

Lemma C4_first_occurrence_kept_witness :
  let o := Samples.order "#1001"
             [Samples.item 1 "5.00"; Samples.item 2 "3.00"] in
  let replies := [Samples.page [EdgeNode o] "c1";
                  Samples.last_page [EdgeNode o]] in
  let windows := [[(Samples.photopri, replies)];
                  [(Samples.photopri, replies)]] in
  let row := {| Name := "#1001"; Subtotal := "10.00"; Shipping := "0.00";
                Taxes := "1.00"; Total := "11.00";
                Lineitem_quantity := "2"; Lineitem_name := "print";
                Lineitem_price := "3.00";
                Lineitem_compare_at_price := "0" |} in
  (named "#1001"
     (store_orders
        (state_of (fetch_orders_from_store Samples.photopri replies).1))
   = [tag Samples.photopri o])
  ∧ (named "#1001" (fetch_all_orders_chunked windows)
     = [tag Samples.photopri o]
     ∧ filter (λ row, Name row = "#1001")
         (convert_to_csv_data (fetch_all_orders_chunked windows))
       = [row]).
Proof.
  intros o replies windows row.
  destruct (C4_first_occurrence_kept Samples.photopri replies windows
              "#1001") as [Hrun Hfill].
  split.
  - apply (Hrun o [o]). vm_compute. reflexivity.
  - destruct (Hfill (tag Samples.photopri o) [tag Samples.photopri o])
      as (Hkept & Hone & _); [vm_compute; reflexivity|].
    split; [exact Hkept|].
    apply Hone. vm_compute. reflexivity.
Defined.

End DedupWitness.

(** * The calendar: ordinals and dates *)

(** Linear arithmetic with division and remainder by constants. *)
Ltac div_lia := Z.to_euclidean_division_equations; lia.

Section CalendarFacts.
Import Calendar.
#[local] Open Scope Z_scope.

Lemma month_day_checked leapyear n :
  0 <= n < 365 → month_day_check leapyear n = true.
Proof.
  intros Hn.
  assert (forallb (λ k, month_day_check true k && month_day_check false k)
            (seqZ 0 365) = true) as Hall by (vm_compute; reflexivity).
  rewrite forallb_forall in Hall.
  assert (n ∈ seqZ 0 365) as Hin by (apply elem_of_seqZ; lia).
  apply list_elem_of_In, Hall, andb_prop in Hin as [Ht Hf].
  by destruct leapyear.
Qed.

Lemma month_day_spec leapyear n m d :
  0 <= n < 365 → month_day leapyear n = (m, d) →
  1 <= m <= 12
  ∧ 1 <= d <= DAYS_IN_MONTH m + (if (m =? 2) && leapyear then 1 else 0)
  ∧ DAYS_BEFORE_MONTH m + (if (2 <? m) && leapyear then 1 else 0) + d
    = n + 1.
Proof.
  intros Hn Hmd. pose proof (month_day_checked leapyear n Hn) as Hc.
  unfold month_day_check in Hc. rewrite Hmd in Hc.
  repeat (apply andb_prop in Hc as [Hc ?]).
  lia.
Qed.

Lemma is_leap_true y :
  is_leap y = true ↔ y mod 4 = 0 ∧ (y mod 100 ≠ 0 ∨ y mod 400 = 0).
Proof.
  unfold is_leap.
  rewrite andb_true_iff, orb_true_iff, negb_true_iff, !Z.eqb_eq, Z.eqb_neq.
  tauto.
Qed.

Lemma is_leap_false y :
  is_leap y = false ↔ ¬ (y mod 4 = 0 ∧ (y mod 100 ≠ 0 ∨ y mod 400 = 0)).
Proof.
  rewrite <- is_leap_true. by destruct (is_leap y).
Qed.

(** The days before a year, for a year split by the 400, 100 and 4 year
    cycles. *)
Lemma days_before_year_cycles a b c e :
  0 <= b <= 3 → 0 <= c <= 24 → 0 <= e <= 3 →
  days_before_year (400 * a + 100 * b + 4 * c + e + 1)
  = 146097 * a + 36524 * b + 1461 * c + 365 * e.
Proof. intros Hb Hc He. unfold days_before_year. div_lia. Qed.

Lemma is_leap_cycles a b c e :
  0 <= b <= 3 → 0 <= c <= 24 → 0 <= e <= 3 →
  is_leap (400 * a + 100 * b + 4 * c + e + 1)
  = (e =? 3) && (negb (c =? 24) || (b =? 3)).
Proof.
  intros Hb Hc He.
  destruct (is_leap _) eqn:Hl; symmetry.
  - apply is_leap_true in Hl.
    rewrite andb_true_iff, orb_true_iff, negb_true_iff, !Z.eqb_eq, Z.eqb_neq.
    div_lia.
  - apply is_leap_false in Hl.
    rewrite andb_false_iff, orb_false_iff, negb_false_iff, !Z.eqb_eq,
      !Z.eqb_neq.
    div_lia.
Qed.

Lemma ymd2ord_cycles a b c e m d :
  0 <= b <= 3 → 0 <= c <= 24 → 0 <= e <= 3 →
  ymd2ord (400 * a + 100 * b + 4 * c + e + 1) m d
  = 146097 * a + 36524 * b + 1461 * c + 365 * e
    + DAYS_BEFORE_MONTH m
    + (if (2 <? m) && ((e =? 3) && (negb (c =? 24) || (b =? 3)))
       then 1 else 0)
    + d.
Proof.
  intros Hb Hc He. unfold ymd2ord, days_before_month.
  rewrite days_before_year_cycles, is_leap_cycles by done. lia.
Qed.

(** [fromordinal] gives a date of the calendar, and [toordinal] gives
    the ordinal back. *)
Lemma ord2ymd_spec n y m d :
  1 <= n <= MAXORDINAL → ord2ymd n = (y, m, d) →
  1 <= y <= 9999 ∧ 1 <= m <= 12 ∧ 1 <= d <= days_in_month y m
  ∧ ymd2ord y m d = n.
Proof.
  unfold MAXORDINAL, ord2ymd. intros Hn.
  pose proof (Z.div_mod (n - 1) 146097 ltac:(lia)) as Ea.
  pose proof (Z.mod_pos_bound (n - 1) 146097 ltac:(lia)) as Ba.
  set (a := (n - 1) / 146097) in *. set (ra := (n - 1) mod 146097) in *.
  pose proof (Z.div_mod ra 36524 ltac:(lia)) as Eb.
  pose proof (Z.mod_pos_bound ra 36524 ltac:(lia)) as Bb.
  set (b := ra / 36524) in *. set (rb := ra mod 36524) in *.
  pose proof (Z.div_mod rb 1461 ltac:(lia)) as Ec.
  pose proof (Z.mod_pos_bound rb 1461 ltac:(lia)) as Bc.
  set (c := rb / 1461) in *. set (rc := rb mod 1461) in *.
  pose proof (Z.div_mod rc 365 ltac:(lia)) as Ee.
  pose proof (Z.mod_pos_bound rc 365 ltac:(lia)) as Be.
  set (e := rc / 365) in *. set (re := rc mod 365) in *.
  clearbody a ra b rb c rc e re.
  assert (0 <= a <= 24 ∧ 0 <= b <= 4 ∧ 0 <= c <= 24 ∧ 0 <= e <= 4)
    as (Ha & Hb & Hc & He) by lia.
  destruct (Z.eqb_spec e 4) as [He4|He4];
    [|destruct (Z.eqb_spec b 4) as [Hb4|Hb4]]; simpl orb; cbv iota.
  - (* the last day of a leap year *)
    intros [= <- <- <-].
    replace (a * 400 + 1 + b * 100 + c * 4 + e - 1)
      with (400 * a + 100 * b + 4 * c + 3 + 1) by lia.
    assert (0 <= b <= 3 ∧ 0 <= c <= 23) as [Hb3 Hc23] by lia.
    unfold days_in_month.
    rewrite ymd2ord_cycles, is_leap_cycles by lia.
    replace (c =? 24) with false by (symmetry; apply Z.eqb_neq; lia).
    simpl. lia.
  - (* the last day of a 400-year cycle *)
    intros [= <- <- <-].
    replace (a * 400 + 1 + b * 100 + c * 4 + e - 1)
      with (400 * a + 100 * 3 + 4 * 24 + 3 + 1) by lia.
    unfold days_in_month.
    rewrite ymd2ord_cycles, is_leap_cycles by lia.
    simpl. lia.
  - destruct (month_day _ re) as [m' d'] eqn:Hmd. intros [= <- <- <-].
    apply month_day_spec in Hmd as (Hm & Hd & Hsum); [|lia].
    replace (a * 400 + 1 + b * 100 + c * 4 + e)
      with (400 * a + 100 * b + 4 * c + e + 1) by lia.
    unfold days_in_month.
    rewrite ymd2ord_cycles, is_leap_cycles by lia.
    split; [lia|]. split; [lia|]. split; [|lia].
    destruct (Z.eqb_spec m' 2) as [->|Hm2]; simpl andb in *; [|lia].
    destruct ((e =? 3) && _); simpl in *; lia.
Qed.

End CalendarFacts.
(** * Timestamp normalisation *)

Section FormatDatetime.
Import Calendar ExporterDates.
#[local] Open Scope Z_scope.

(** From year 1000 on the year takes four characters. *)
Lemma format_year_pad4 y : 1000 <= y → format_year y = pad4 y.
Proof.
  intros Hy. unfold format_year.
  by rewrite !(proj2 (Z.ltb_ge _ _)) by lia.
Qed.

(** From year 1000 on the print is [YYYY-MM-DD HH:MM:SS]. *)
Lemma format_four_digit_year y m d hh mm ss :
  1000 <= y →
  (format_date (y, m, d) +:+ " " +:+ format_time hh mm ss)%string
  = (pad4 y +:+ "-" +:+ pad2 m +:+ "-" +:+ pad2 d +:+ " "
     +:+ format_time hh mm ss)%string
  ∧ String.length (format_date (y, m, d) +:+ " " +:+ format_time hh mm ss)
    = 19%nat.
Proof.
  intros Hy. unfold format_date. simpl fst. simpl snd.
  by rewrite format_year_pad4.
Qed.

(** The reading that [strftime] prints. *)
Lemma strftime_reading (dt : datetime) :
  representable (ticks dt) →
  ∃ y m d hh mm ss,
    strftime dt = (format_date (y, m, d) +:+ " "
                   +:+ format_time hh mm ss)%string
    ∧ valid_reading y m d hh mm ss
    ∧ reading_ticks y m d hh mm ss <= ticks dt
      < reading_ticks y m d hh mm ss + SECOND.
Proof.
  unfold representable. intros Hrange.
  unfold strftime, date_fields, toordinal.
  destruct (ord2ymd (ticks dt / DAY)) as [[y m] d] eqn:Hymd.
  apply ord2ymd_spec in Hymd as (Hy & Hm & Hd & Hord); [|lia].
  exists y, m, d, (hour dt), (minute dt), (second dt).
  split; [done|].
  unfold valid_reading, reading_ticks, hour, minute, second. rewrite Hord.
  unfold DAY, HOUR, MINUTE, SECOND in *.
  repeat split; try done; div_lia.
Qed.

(** What the function does with an aware reading: the conversion to
    +09:00 goes through UTC, and either step may leave the years 1 to
    9999. *)
Lemma format_datetime_aware (parse : string → option datetime)
    (datetime_str : string) (dt : datetime) (offset : Z) :
  datetime_str ≠ "" →
  parse (iso_argument datetime_str) = Some dt →
  tzinfo dt = Some offset →
  format_datetime_with parse datetime_str
  = if bool_decide (representable (ticks dt - offset)
                    ∧ representable (ticks dt - offset + JST))
    then strftime {| ticks := ticks dt - offset + JST; tzinfo := None |}
    else datetime_str.
Proof.
  intros Hne Hparse Htz.
  assert (Py.truthy datetime_str = true) as Htruthy
    by by destruct datetime_str.
  unfold format_datetime_with. rewrite Htruthy, Hparse. simpl.
  rewrite Htz. unfold astimezone. rewrite Htz. simpl.
  unfold add. simpl.
  replace (ticks dt + - offset) with (ticks dt - offset) by lia.
  fold (representable (ticks dt - offset)).
  destruct (decide (representable (ticks dt - offset))) as [Hutc|Hutc].
  2:{ rewrite (bool_decide_false _ Hutc). simpl.
      rewrite bool_decide_false; [done|]. by intros [? _]. }
  rewrite (bool_decide_true _ Hutc). simpl.
  fold (representable (ticks dt - offset + JST)).
  destruct (decide (representable (ticks dt - offset + JST)))
    as [Hjst|Hjst].
  - rewrite (bool_decide_true _ Hjst). simpl.
    by rewrite bool_decide_true.
  - rewrite (bool_decide_false _ Hjst). simpl.
    rewrite bool_decide_false; [done|]. by intros [_ ?].
Qed.

(** C8 (as stated, refuted): the Z-suffixed timestamp
    [9999-12-31T20:00:00Z] is accepted by the parser as an aware reading
    at offset 0, but its reading at +09:00 lies in year 10000, so the
    conversion overflows and the string comes back unchanged instead of
    converted; and [0999-12-31T10:00:00Z] comes back converted with a
    year of three characters, which is not the form
    [YYYY-MM-DD HH:MM:SS]. *)
Lemma C8_out_of_range_counterexample :
  (∃ dt, fromisoformat (iso_argument "9999-12-31T20:00:00Z") = Some dt
         ∧ tzinfo dt = Some 0)
  ∧ format_datetime "9999-12-31T20:00:00Z" = "9999-12-31T20:00:00Z"
  ∧ String.length (format_datetime "9999-12-31T20:00:00Z") ≠ 19%nat
  ∧ (∃ dt, fromisoformat (iso_argument "0999-12-31T10:00:00Z") = Some dt
           ∧ tzinfo dt = Some 0)
  ∧ format_datetime "0999-12-31T10:00:00Z" = "999-12-31 19:00:00"
  ∧ String.length (format_datetime "0999-12-31T10:00:00Z") ≠ 19%nat.
Proof.
  split; [|split; [|split; [|split; [|split]]]].
  - eexists. split; vm_compute; reflexivity.
  - vm_compute. reflexivity.
  - vm_compute. lia.
  - eexists. split; vm_compute; reflexivity.
  - vm_compute. reflexivity.
  - vm_compute. lia.
Qed.

(** C8 (amended): take any non-empty timestamp string that the parser
    of the library accepts with an offset, be it a [Z] suffix or an
    explicit offset.  When its instant lies within years 1 to 9999 both
    in UTC and at +09:00, there is one valid calendar and clock reading
    of that instant at the fixed offset +09:00, cut to whole seconds,
    and when the year of that reading is 1000 or later the
    normalisation returns its 19 characters [YYYY-MM-DD HH:MM:SS].  When
    the instant lies outside years 1 to 9999 in UTC or at +09:00, the
    string comes back unchanged.  The result is a function of the
    string alone. *)
Theorem C8_format_datetime_jst (parse : string → option datetime)
    (datetime_str : string) (dt : datetime) (offset : Z) :
  datetime_str ≠ "" →
  parse (iso_argument datetime_str) = Some dt →
  tzinfo dt = Some offset →
  (representable (ticks dt - offset)
   ∧ representable (ticks dt - offset + JST) →
   ∃ y m d hh mm ss,
     valid_reading y m d hh mm ss
     ∧ reading_ticks y m d hh mm ss <= ticks dt - offset + JST
       < reading_ticks y m d hh mm ss + SECOND
     ∧ (1000 <= y →
        format_datetime_with parse datetime_str
        = (pad4 y +:+ "-" +:+ pad2 m +:+ "-" +:+ pad2 d +:+ " "
           +:+ format_time hh mm ss)%string
        ∧ String.length (format_datetime_with parse datetime_str)
          = 19%nat))
  ∧ (¬ (representable (ticks dt - offset)
        ∧ representable (ticks dt - offset + JST)) →
     format_datetime_with parse datetime_str = datetime_str).
Proof.
  intros Hne Hparse Htz.
  rewrite (format_datetime_aware parse _ _ _ Hne Hparse Htz).
  split.
  - intros Hrange. rewrite (bool_decide_true _ Hrange).
    destruct Hrange as [_ Hjst].
    pose (local := {| ticks := ticks dt - offset + JST;
                      tzinfo := None |}).
    destruct (strftime_reading local Hjst)
      as (y & m & d & hh & mm & ss & Hstr & Hvalid & Hticks).
    exists y, m, d, hh, mm, ss. fold local. rewrite Hstr.
    split; [done|]. split; [done|].
    apply format_four_digit_year.
  - intros Hrange. by rewrite (bool_decide_false _ Hrange).
Qed.

Lemma C8_format_datetime_jst_witness :
  let dt := {| ticks := ymd2ord 2024 8 6 * DAY + 13 * HOUR + 8 * MINUTE
                        + 54 * SECOND;
               tzinfo := Some 0 |} in
  ∃ y m d hh mm ss,
    valid_reading y m d hh mm ss
    ∧ reading_ticks y m d hh mm ss <= ticks dt - 0 + JST
      < reading_ticks y m d hh mm ss + SECOND
    ∧ (1000 <= y →
       format_datetime "2024-08-06T13:08:54Z"
       = (pad4 y +:+ "-" +:+ pad2 m +:+ "-" +:+ pad2 d +:+ " "
          +:+ format_time hh mm ss)%string
       ∧ String.length (format_datetime "2024-08-06T13:08:54Z")
         = 19%nat).
Proof.
  apply (C8_format_datetime_jst fromisoformat "2024-08-06T13:08:54Z"
           {| ticks := ymd2ord 2024 8 6 * DAY + 13 * HOUR + 8 * MINUTE
                       + 54 * SECOND;
              tzinfo := Some 0 |} 0).
  - discriminate.
  - vm_compute. reflexivity.
  - reflexivity.
  - split; vm_compute; (split; [reflexivity | discriminate]).
Defined.

(** The two kinds of input the specification asks to test: a [Z] suffix
    and an explicit offset; an offset of a fraction of a second, which
    the parser reads as UTC; and an input that comes back unchanged. *)
Example format_datetime_Z :
  format_datetime "2024-08-06T13:08:54Z" = "2024-08-06 22:08:54".
Proof. vm_compute. reflexivity. Qed.

Example format_datetime_offset :
  format_datetime "2024-02-29T20:08:54.123-05:00" = "2024-03-01 10:08:54".
Proof. vm_compute. reflexivity. Qed.

Example format_datetime_offset_fraction :
  format_datetime "2024-08-06T13:08:54+00:00:00.999999"
  = "2024-08-06 22:08:54".
Proof. vm_compute. reflexivity. Qed.

Example format_datetime_leap_second :
  format_datetime "2016-12-31T23:59:60Z" = "2016-12-31T23:59:60Z".
Proof. vm_compute. reflexivity. Qed.

End FormatDatetime.

(** * The window partitioner *)

Section Windows.
Import Calendar ExporterDates.
#[local] Open Scope Z_scope.
Implicit Types (w : Window) (ws : list Window).

Lemma chained_nonempty span first last ws :
  chained span first last ws → ws ≠ [].
Proof. by destruct ws. Qed.

Lemma chained_first span first last ws :
  chained span first last ws →
  ∃ w rest, ws = w :: rest ∧ ticks w.1 = first ∧ first mod DAY = 0.
Proof.
  destruct ws as [|[s e] rest]; [done|]. intros (Hs & Ha & _).
  by exists (s, e), rest.
Qed.

(** The next window starts a day after the end of the one before. *)
Lemma chained_adjacent span ws : ∀ first last i w1 w2,
  chained span first last ws →
  ws !! i = Some w1 → ws !! S i = Some w2 →
  ticks w2.1 = ticks w1.2 + DAY ∧ ticks w1.2 mod DAY = 0.
Proof.
  induction ws as [|[s e] rest IH]; intros first last i w1 w2; [done|].
  intros (Hs & Ha & Hspan & Hle & Hrest) H1 H2.
  destruct rest as [|w' rest']; [done|].
  destruct i as [|i]; simpl in H1, H2.
  - injection H1 as <-. injection H2 as <-.
    apply chained_first in Hrest as (w & r & [= <- <-] & Hw & Hal).
    simpl. unfold DAY, HOUR, MINUTE, SECOND in *. split; [done|div_lia].
  - by eapply IH.
Qed.

Lemma chained_span span ws : ∀ first last w,
  chained span first last ws → w ∈ ws →
  ticks w.1 < ticks w.2 <= ticks w.1 + span ∧ ticks w.2 <= last.
Proof.
  induction ws as [|[s e] rest IH]; intros first last w;
    [by intros _ ?%elem_of_nil|].
  intros (Hs & Ha & Hspan & Hle & Hrest) [->|Hin]%elem_of_cons; [done|].
  destruct rest as [|w' rest']; [by apply elem_of_nil in Hin|].
  by eapply IH.
Qed.

(** Every instant from the first start up to [last] falls on a day of
    some window. *)
Lemma chained_cover span ws : ∀ first last t,
  chained span first last ws → first <= t < last →
  ∃ w, w ∈ ws ∧ in_closed (t / DAY) w.
Proof.
  induction ws as [|[s e] rest IH]; intros first last t; [done|].
  intros (Hs & Ha & Hspan & Hle & Hrest) Ht.
  destruct rest as [|w' rest'].
  - exists (s, e). split; [by left|]. destruct Hrest as [Hlast Hend].
    unfold in_closed, toordinal. simpl.
    unfold DAY, HOUR, MINUTE, SECOND in *. div_lia.
  - destruct (decide (t < ticks e + DAY)) as [Hlt|Hge].
    + exists (s, e). split; [by left|].
      apply chained_first in Hrest as (w & r & _ & _ & Hal).
      unfold in_closed, toordinal. simpl.
      unfold DAY, HOUR, MINUTE, SECOND in *. div_lia.
    + destruct (IH (ticks e + DAY) last t Hrest) as (w & Hin & Hw); [lia|].
      exists w. split; [by right | done].
Qed.

(** The loop, run with enough fuel on a range that does not overflow. *)
Lemma date_ranges_loop_chained chunk_months end_date :
  1 <= chunk_months →
  toordinal end_date + chunk_months * 30 <= MAXORDINAL →
  ∀ fuel current_start,
    ticks current_start < ticks end_date →
    ticks current_start mod DAY = 0 →
    0 < toordinal current_start →
    (ticks end_date - ticks current_start) / DAY + 1 <= Z.of_nat fuel →
    ∃ ws, date_ranges_loop fuel chunk_months end_date current_start
          = Value ws
          ∧ chained (chunk_months * 30 * DAY) (ticks current_start)
              (ticks end_date) ws.
Proof.
  intros Hchunk Hmax. unfold MAXORDINAL, toordinal in *.
  induction fuel as [|fuel IH]; intros cs Hlt Halign Hpos Hfuel.
  { exfalso. unfold DAY, HOUR, MINUTE, SECOND in *. div_lia. }
  simpl. rewrite bool_decide_true by done.
  unfold timedelta_days. rewrite bool_decide_true; last first.
  { unfold DAY, HOUR, MINUTE, SECOND in *. div_lia. }
  simpl.
  unfold add at 1. rewrite bool_decide_true; last first.
  { unfold MAXORDINAL, DAY, HOUR, MINUTE, SECOND in *. div_lia. }
  simpl.
  set (bound := {| ticks := ticks cs + chunk_months * 30 * DAY;
                   tzinfo := tzinfo cs |}).
  set (ce := if bool_decide (ticks end_date < _) then end_date else bound).
  assert (ticks cs < ticks ce <= ticks cs + chunk_months * 30 * DAY
          ∧ ticks ce <= ticks end_date
          ∧ (ticks ce = ticks end_date
             ∨ ticks ce = ticks cs + chunk_months * 30 * DAY)) as Hce.
  { unfold ce. case_bool_decide; simpl in *;
      unfold DAY, HOUR, MINUTE, SECOND in *; lia. }
  unfold add. rewrite bool_decide_true; last first.
  { unfold MAXORDINAL, DAY, HOUR, MINUTE, SECOND in *. div_lia. }
  set (next := {| ticks := ticks ce + DAY; tzinfo := tzinfo ce |}).
  destruct (decide (ticks next < ticks end_date)) as [Hnext|Hnext].
  - destruct (IH next) as (ws & -> & Hws); try done.
    + simpl in *. unfold DAY, HOUR, MINUTE, SECOND in *. div_lia.
    + simpl in *. unfold DAY, HOUR, MINUTE, SECOND in *. div_lia.
    + simpl in *. unfold DAY, HOUR, MINUTE, SECOND in *. div_lia.
    + exists ((cs, ce) :: ws). split; [done|].
      destruct ws as [|w ws]; [done|]. simpl.
      split; [done|]. split; [done|]. split; [lia|]. split; [lia|].
      exact Hws.
  - assert (date_ranges_loop fuel chunk_months end_date next = Value [])
      as ->.
    { destruct fuel; simpl; by rewrite bool_decide_false. }
    exists [(cs, ce)]. split; [done|]. simpl.
    split; [done|]. split; [done|]. split; [lia|]. split; [lia|].
    simpl in Hnext. split; [lia|].
    destruct Hce as (_ & _ & [?|Hb]); [by left|]. right.
    rewrite Hb. unfold DAY, HOUR, MINUTE, SECOND in *. div_lia.
Qed.

End Windows.

Section WindowClaims.
Import Calendar ExporterDates.
#[local] Open Scope Z_scope.

(** C7 (as stated, refuted): for a run on 1 August 2019 at noon with
    6-month chunks the partitioner returns the windows
    2019-01-01 to 2019-06-30 and 2019-07-01 to 2019-08-01.  Read as
    half-open intervals they are not contiguous, the second starting a
    day after the end of the first, and they do not cover the range:
    30 June 2019 lies in neither. *)
Lemma C7_half_open_counterexample :
  let now := {| ticks := ymd2ord 2019 8 1 * DAY + 12 * HOUR;
                tzinfo := None |} in
  get_date_ranges_chunked "all_time" now 6
  = Value [("2019-01-01", "2019-06-30"); ("2019-07-01", "2019-08-01")]
  ∧ ∃ w1 w2,
      date_ranges now 6 = Value [w1; w2]
      ∧ window_days w1 = (737060, 737240)
      ∧ window_days w2 = (737241, 737272)
      ∧ toordinal start_date <= 737240 < toordinal now
      ∧ ¬ in_half_open 737240 w1 ∧ ¬ in_half_open 737240 w2.
Proof.
  split; [vm_compute; reflexivity|].
  eexists _, _. split; [vm_compute; reflexivity|].
  split; [vm_compute; reflexivity|]. split; [vm_compute; reflexivity|].
  split; [vm_compute; split; [discriminate | reflexivity]|].
  split; vm_compute; intros [H1 H2]; by (apply H1 || apply H2).
Qed.

(** C7 (amended): for a positive chunk size and a run time after the
    start of 2019 that a chunk does not carry past year 9999, the
    partitioner returns a non-empty ordered sequence of windows that
    begins at 2019-01-01 and in which each window starts at a midnight,
    ends at most [chunk_months × 30] days after its start, and is followed
    by a window that starts on the day after its end.  Read as closed
    intervals of calendar days the windows are therefore contiguous and
    non-overlapping, and every instant of the range falls on a day of
    some window. *)
Theorem C7_windows_closed_days (now : datetime) (chunk_months : Z) :
  1 <= chunk_months →
  ticks start_date < ticks now →
  toordinal now + chunk_months * 30 <= MAXORDINAL →
  ∃ ws,
    date_ranges now chunk_months = Value ws
    ∧ get_date_ranges_chunked "all_time" now chunk_months
      = Value (print_window <$> ws)
    ∧ chained (chunk_months * 30 * DAY) (ticks start_date) (ticks now) ws
    ∧ (∃ w rest, ws = w :: rest ∧ ticks w.1 = ticks start_date)
    ∧ (∀ i w1 w2, ws !! i = Some w1 → ws !! S i = Some w2 →
         toordinal w2.1 = toordinal w1.2 + 1)
    ∧ (∀ w, w ∈ ws →
         toordinal w.1 <= toordinal w.2 <= toordinal w.1 + chunk_months * 30
         ∧ ticks w.2 - ticks w.1 <= chunk_months * 30 * DAY)
    ∧ (∀ t, ticks start_date <= t < ticks now →
         ∃ w, w ∈ ws ∧ in_closed (t / DAY) w).
Proof.
  intros Hchunk Hlt Hmax.
  assert (ticks start_date = 737060 * DAY) as Hstart
    by (vm_compute; reflexivity).
  assert (toordinal start_date = 737060) as Hord
    by (vm_compute; reflexivity).
  destruct (date_ranges_loop_chained chunk_months now Hchunk Hmax
              (Z.to_nat (Z.max (toordinal now) (toordinal start_date) + 1))
              start_date) as (ws & Hrun & Hchain).
  - done.
  - rewrite Hstart. apply Z_mod_mult.
  - rewrite Hord. lia.
  - rewrite Hord, Z2Nat.id by lia. rewrite Hstart.
    unfold toordinal, DAY, HOUR, MINUTE, SECOND in *. div_lia.
  - exists ws. split; [done|]. split.
    { unfold get_date_ranges_chunked, date_ranges.
      rewrite decide_True by done. by rewrite Hrun. }
    split; [done|]. split.
    { apply chained_first in Hchain as (w & rest & -> & Hw & _).
      by exists w, rest. }
    split; [|split].
    + intros i w1 w2 H1 H2.
      destruct (chained_adjacent _ _ _ _ _ _ _ Hchain H1 H2) as [Hnext Hal].
      unfold toordinal. rewrite Hnext.
      unfold DAY, HOUR, MINUTE, SECOND in *. div_lia.
    + intros w Hin.
      destruct (chained_span _ _ _ _ _ Hchain Hin) as [Hspan _].
      unfold toordinal. unfold DAY, HOUR, MINUTE, SECOND in *.
      split; [div_lia | lia].
    + intros t Ht. by eapply chained_cover.
Qed.

Lemma C7_windows_closed_days_witness :
  let now := {| ticks := ymd2ord 2019 8 1 * DAY + 12 * HOUR;
                tzinfo := None |} in
  ∃ ws,
    date_ranges now 6 = Value ws
    ∧ get_date_ranges_chunked "all_time" now 6
      = Value (print_window <$> ws)
    ∧ chained (6 * 30 * DAY) (ticks start_date) (ticks now) ws
    ∧ (∃ w rest, ws = w :: rest ∧ ticks w.1 = ticks start_date)
    ∧ (∀ i w1 w2, ws !! i = Some w1 → ws !! S i = Some w2 →
         toordinal w2.1 = toordinal w1.2 + 1)
    ∧ (∀ w, w ∈ ws →
         toordinal w.1 <= toordinal w.2 <= toordinal w.1 + 6 * 30
         ∧ ticks w.2 - ticks w.1 <= 6 * 30 * DAY)
    ∧ (∀ t, ticks start_date <= t < ticks now →
         ∃ w, w ∈ ws ∧ in_closed (t / DAY) w).
Proof.
  apply (C7_windows_closed_days
           {| ticks := ymd2ord 2019 8 1 * DAY + 12 * HOUR;
              tzinfo := None |} 6).
  - lia.
  - vm_compute. reflexivity.
  - vm_compute. discriminate.
Defined.

End WindowClaims.

(** * Further properties of the capacity functions *)

Section CapacityGuarantee.
Import Sheets.
#[local] Open Scope Z_scope.
Implicit Types (s : Service) (sh : Sheet).

(** The sheet after a [True] from [_ensure_sheet_has_rows]. *)
Lemma ensure_sheet_has_rows_true name required s :
  unique_ids s →
  (_ensure_sheet_has_rows name required s).1 = true →
  ∃ sh, sheet_by_title name
          (sheets (_ensure_sheet_has_rows name required s).2) = Some sh
        ∧ required <= rowCount sh.
Proof.
  intros Huniq.
  unfold _ensure_sheet_has_rows, catching, _get_sheet_id, mbind, api_bind,
    mret, api_ret, api_get, api_batch_update.
  destruct (next_fault s) as [[] s1] eqn:H1;
    destruct (next_fault_same _ _ _ H1) as [Hsh1 Hsn1]; simpl; [done|].
  rewrite Hsh1.
  destruct (sheet_by_title name (sheets s)) as [sh|] eqn:Hsh; simpl;
    [|done].
  destruct (next_fault s1) as [[] s2] eqn:H2;
    destruct (next_fault_same _ _ _ H2) as [Hsh2 Hsn2]; simpl; [done|].
  rewrite Hsh2, Hsh1.
  rewrite (sheet_by_id_of_title _ _ _ Huniq Hsh). simpl.
  case_bool_decide as Hcmp; simpl.
  - intros _. exists sh. rewrite Hsh2, Hsh1. split; [done | lia].
  - destruct (next_fault s2) as [[] s3] eqn:H3;
      destruct (next_fault_same _ _ _ H3) as [Hsh3 Hsn3]; simpl; [done|].
    intros _. rewrite Hsh3, Hsh2, Hsh1, sheet_by_title_apply, Hsh. simpl.
    eexists. split; [done|]. rewrite decide_True by done. simpl. lia.
Qed.

(** The sheet after a [True] from [_ensure_sheet_capacity]. *)
Lemma ensure_sheet_capacity_true name required s :
  unique_ids s →
  (_ensure_sheet_capacity name required s).1 = true →
  ∃ sh, sheet_by_title name
          (sheets (_ensure_sheet_capacity name required s).2) = Some sh
        ∧ required <= rowCount sh.
Proof.
  intros Huniq.
  unfold _ensure_sheet_capacity, catching, mbind, api_bind,
    mret, api_ret, api_get, api_batch_update.
  destruct (next_fault s) as [[] s1] eqn:H1;
    destruct (next_fault_same _ _ _ H1) as [Hsh1 Hsn1]; simpl; [done|].
  rewrite Hsh1.
  destruct (sheet_by_title name (sheets s)) as [sh|] eqn:Hsh; simpl;
    [|done].
  case_bool_decide as Hcmp; simpl.
  - destruct (next_fault s1) as [[] s2] eqn:H2;
      destruct (next_fault_same _ _ _ H2) as [Hsh2 Hsn2]; simpl; [done|].
    intros _. rewrite Hsh2, Hsh1, sheet_by_title_apply, Hsh. simpl.
    eexists. split; [done|]. rewrite decide_True by done. simpl. lia.
  - intros _. exists sh. rewrite Hsh1. split; [done | lia].
Qed.

(** A [True] from either function is a guarantee: whatever calls failed
    on the way, the sheet then has at least the required rows. *)
Theorem ensure_true_has_capacity ensure name required s :
  ensure ∈ ensure_functions →
  unique_ids s →
  (ensure name required s).1 = true →
  ∃ sh, sheet_by_title name (sheets (ensure name required s).2) = Some sh
        ∧ required <= rowCount sh.
Proof.
  intros Hf Huniq. unfold ensure_functions in Hf.
  apply elem_of_cons in Hf as [->|Hf];
    [|apply list_elem_of_singleton in Hf as ->].
  - by apply ensure_sheet_has_rows_true.
  - by apply ensure_sheet_capacity_true.
Qed.

Lemma ensure_true_has_capacity_witness :
  let s := {| sheets := [ {| title := "db"; sheetId := 7;
                             rowCount := 4000 |} ];
              sent := []; faults := [false; false; false] |} in
  ∃ sh, sheet_by_title "db"
          (sheets (_ensure_sheet_has_rows "db" 5000 s).2) = Some sh
        ∧ 5000 <= rowCount sh.
Proof.
  apply (ensure_true_has_capacity _ensure_sheet_has_rows "db" 5000
           {| sheets := [ {| title := "db"; sheetId := 7;
                             rowCount := 4000 |} ];
              sent := []; faults := [false; false; false] |}).
  - by left.
  - intros sh1 sh2 ->%list_elem_of_singleton ->%list_elem_of_singleton _.
    reflexivity.
  - reflexivity.
Defined.

Lemma ensure_never_shrinks_witness :
  let s := {| sheets := [ {| title := "db"; sheetId := 7;
                             rowCount := 4000 |} ];
              sent := []; faults := [false; true] |} in
  let out := _ensure_sheet_capacity "db" 5000 s in
  issued s out.2 = []
  ∨ ∃ r sh, issued s out.2 = [[r]] ∧ sh ∈ sheets s
            ∧ rowCount sh < 5000
            ∧ r ∈ [UpdateRowCount (sheetId sh) 5000;
                   AppendRows (sheetId sh) (5000 - rowCount sh)].
Proof.
  apply (ensure_never_shrinks _ensure_sheet_capacity "db" 5000
           {| sheets := [ {| title := "db"; sheetId := 7;
                             rowCount := 4000 |} ];
              sent := []; faults := [false; true] |}).
  unfold ensure_functions. right. by left.
Defined.

End CapacityGuarantee.

(** * Further properties of the reconciler *)

Section ReconcilerAppends.
Import Uploader UploaderSpec.
Implicit Types (rows : list Row) (k : string) (ids : gmap string nat).

(** A key is in the lookup exactly when some data row holds it. *)
Lemma existing_ids_held idx existing k :
  is_Some (existing_ids_of idx existing !! k)
  ↔ ∃ n, row_has_key idx 0 (tail existing) n k.
Proof.
  unfold existing_ids_of. rewrite build_existing_ids_lookup, lookup_empty.
  destruct (last_row_of idx k 0 (tail existing)) as [n|] eqn:Hl.
  - split; [|by eauto]. intros _. exists n.
    by apply last_row_of_Some in Hl as [? _].
  - split; [by intros [? ?]|]. intros [n Hn].
    by destruct (last_row_of_None _ _ _ _ Hl n).
Qed.

Lemma is_update_false idx existing r :
  is_update idx (existing_ids_of idx existing) r = false
  ↔ key_of idx r = None
    ∨ ∃ k, key_of idx r = Some k
           ∧ ∀ n, ¬ row_has_key idx 0 (tail existing) n k.
Proof.
  unfold is_update. destruct (key_of idx r) as [k|]; [|by split; eauto].
  rewrite bool_decide_eq_false, existing_ids_held. split.
  - intros Hno. right. exists k. split; [done|]. intros n Hn. apply Hno.
    by exists n.
  - intros [?|(k' & [= <-] & Hno)] [n Hn]; [done|]. by apply (Hno n).
Qed.

(** Rows that are no updates pass through the loop untouched. *)
Lemma classify_no_updates idx ids rows : ∀ dups filtered,
  Forall (λ r, is_update idx ids r = false) rows →
  classify idx ids rows dups filtered = (dups, filtered ++ rows).
Proof.
  induction rows as [|row rest IH]; intros dups filtered Hall; simpl.
  { by rewrite app_nil_r. }
  apply Forall_cons in Hall as [Hrow Hrest]. unfold is_update in Hrow.
  destruct (key_of idx row) as [k|].
  - destruct (ids !! k) as [n|] eqn:Hk.
    + by rewrite bool_decide_true in Hrow.
    + rewrite IH by done. by rewrite <- app_assoc.
  - rewrite IH by done. by rewrite <- app_assoc.
Qed.

(** The append list of [find_duplicate_rows] is a stable partition of the
    new rows: it keeps, in input order, exactly the new rows that have no
    key or whose key no existing row holds; rows that share such a key
    are all kept. *)
Theorem reconcile_appends_stable (existing incoming : list Row)
    (idx : nat) :
  key_column existing = Some idx →
  2 ≤ length existing →
  ∃ appended,
    filtered_new_rows (reconcile existing incoming) = Some appended
    ∧ appended `sublist_of` tail incoming
    ∧ (∀ r, r ∈ appended ↔
            r ∈ tail incoming
            ∧ (key_of idx r = None
               ∨ ∃ k, key_of idx r = Some k
                      ∧ ∀ n, ¬ row_has_key idx 0 (tail existing) n k))
    ∧ (∀ k, (∀ n, ¬ row_has_key idx 0 (tail existing) n k) →
            matching idx k appended = matching idx k (tail incoming)).
Proof.
  intros Hcol Hlen. rewrite (reconcile_resolved _ _ _ Hcol Hlen). simpl.
  rewrite classify_filtered. simpl. eexists. split; [done|].
  split; [apply sublist_filter|]. split.
  - intros r. rewrite list_elem_of_filter, is_update_false. tauto.
  - intros k Hno. unfold matching. rewrite list_filter_filter.
    apply list_filter_iff. intros r. split; [tauto|].
    intros Hk. split; [done|]. apply is_update_false. right. by exists k.
Qed.

Lemma reconcile_appends_stable_witness :
  let existing := [["Name"; "Total"]; ["A1"; "10"]; ["A2"; "20"]] in
  let incoming := [["Name"; "Total"]; ["A3"; "1"]; ["A2"; "21"];
                   [""; "5"]; ["A3"; "2"]] in
  ∃ appended,
    filtered_new_rows (reconcile existing incoming) = Some appended
    ∧ appended `sublist_of` tail incoming
    ∧ (∀ r, r ∈ appended ↔
            r ∈ tail incoming
            ∧ (key_of 0 r = None
               ∨ ∃ k, key_of 0 r = Some k
                      ∧ ∀ n, ¬ row_has_key 0 0 (tail existing) n k))
    ∧ (∀ k, (∀ n, ¬ row_has_key 0 0 (tail existing) n k) →
            matching 0 k appended = matching 0 k (tail incoming)).
Proof.
  apply (reconcile_appends_stable
           [["Name"; "Total"]; ["A1"; "10"]; ["A2"; "20"]]
           [["Name"; "Total"]; ["A3"; "1"]; ["A2"; "21"];
            [""; "5"]; ["A3"; "2"]] 0).
  - vm_compute. reflexivity.
  - simpl. lia.
Defined.

(** Reconciling the append list again, against the same table, changes
    nothing: no row of it is an update and all of it is appended. *)
Theorem reconcile_appends_again (existing incoming : list Row)
    (idx : nat) (header : Row) (appended : list Row) :
  key_column existing = Some idx →
  2 ≤ length existing →
  filtered_new_rows (reconcile existing incoming) = Some appended →
  reconcile existing (header :: appended)
  = {| duplicates := [];
       next_empty_row := next_empty_row (reconcile existing incoming);
       filtered_new_rows := Some appended |}.
Proof.
  intros Hcol Hlen. rewrite !(reconcile_resolved _ _ _ Hcol Hlen). simpl.
  rewrite classify_filtered. simpl. intros [= <-].
  rewrite classify_no_updates; [done|].
  apply Forall_forall. intros r Hin.
  by apply list_elem_of_filter in Hin as [? _].
Qed.

Lemma reconcile_appends_again_witness :
  let existing := [["Name"; "Total"]; ["A1"; "10"]; ["A2"; "20"]] in
  let incoming := [["Name"; "Total"]; ["A3"; "1"]; ["A2"; "21"];
                   ["A3"; "2"]] in
  reconcile existing (["Name"; "Total"] :: [["A3"; "1"]; ["A3"; "2"]])
  = {| duplicates := [];
       next_empty_row := next_empty_row (reconcile existing incoming);
       filtered_new_rows := Some [["A3"; "1"]; ["A3"; "2"]] |}.
Proof.
  apply (reconcile_appends_again
           [["Name"; "Total"]; ["A1"; "10"]; ["A2"; "20"]]
           [["Name"; "Total"]; ["A3"; "1"]; ["A2"; "21"]; ["A3"; "2"]]
           0 ["Name"; "Total"] [["A3"; "1"]; ["A3"; "2"]]).
  - vm_compute. reflexivity.
  - simpl. lia.
  - vm_compute. reflexivity.
Defined.

End ReconcilerAppends.

Section ReconcilerUpdates.
Import Uploader UploaderSpec.

(** Where an entry of the [duplicates] dict comes from: the last row of
    the table that holds its key, and the last new row with that key. *)
Lemma duplicates_lookup (existing incoming : list Row)
    (idx : nat) (k : string) (info : DupInfo) :
  key_column existing = Some idx →
  (k, info) ∈ duplicates (reconcile existing incoming) →
  2 ≤ length existing
  ∧ ∃ n r, last_row_of idx k 0 (tail existing) = Some n
           ∧ last (matching idx k (tail incoming)) = Some r
           ∧ info = {| existing_row := n; new_data := r |}.
Proof.
  intros Hcol Hin.
  assert (2 ≤ length existing) as Hlen.
  { destruct existing as [|h [|r rest]]; simpl; try lia;
      by apply elem_of_nil in Hin. }
  split; [done|].
  rewrite (reconcile_resolved _ _ _ Hcol Hlen) in Hin. simpl in Hin.
  apply dict_elem_get in Hin; [|apply classify_NoDup, NoDup_nil_2].
  rewrite classify_dups_get in Hin. simpl in Hin.
  destruct (existing_ids_of idx existing !! k) as [n|] eqn:Hn; [|done].
  destruct (last (matching idx k (tail incoming))) as [r|] eqn:Hl; [|done].
  injection Hin as <-.
  unfold existing_ids_of in Hn.
  rewrite build_existing_ids_lookup, lookup_empty in Hn.
  destruct (last_row_of idx k 0 (tail existing)) as [n'|] eqn:Hrow;
    [|done].
  injection Hn as ->. by exists n, r.
Qed.

(** The row that the lookup gives for a key holds the key and lies
    among the data rows. *)
Lemma last_row_of_range idx k (rows : list Row) n :
  last_row_of idx k 0 rows = Some n →
  row_has_key idx 0 rows n k ∧ 2 ≤ n ≤ length rows + 1.
Proof.
  intros [Hhas _]%last_row_of_Some. split; [done|].
  destruct Hhas as (Hle & row & Hrow & _). apply lookup_lt_Some in Hrow.
  lia.
Qed.

(** The keys of the [duplicates] dict are pairwise distinct. *)
Lemma duplicates_NoDup (existing incoming : list Row) :
  NoDup (Py.dict_keys (duplicates (reconcile existing incoming))).
Proof.
  unfold reconcile, find_duplicate_rows.
  destruct existing as [|headers [|r0 rest]]; [constructor..|].
  destruct (resolve_id_column headers) as [[idx|] evs]; [|constructor].
  pose proof (classify_NoDup idx
                (build_existing_ids idx 0 (r0 :: rest) ∅)
                (tail incoming) [] [] (NoDup_nil_2)) as Hnd.
  by destruct (classify _ _ _ _ _).
Qed.

(** Without a key column there is no update. *)
Lemma duplicates_no_column (existing incoming : list Row) :
  key_column existing = None →
  duplicates (reconcile existing incoming) = [].
Proof.
  unfold reconcile, find_duplicate_rows, key_column.
  destruct existing as [|headers [|r0 rest]]; [done..|].
  by destruct (resolve_id_column headers) as [[idx|] evs].
Qed.

(** Every update of the [duplicates] dict is addressed to a data row of
    the existing table that holds the very key of the update, and carries
    one of the new rows with that key: a row is never overwritten with
    the data of another key. *)
Theorem reconcile_updates_addressed (existing incoming : list Row)
    (idx : nat) (k : string) (info : DupInfo) :
  key_column existing = Some idx →
  (k, info) ∈ duplicates (reconcile existing incoming) →
  row_has_key idx 0 (tail existing) (existing_row info) k
  ∧ 2 ≤ existing_row info ≤ length existing
  ∧ new_data info ∈ tail incoming
  ∧ key_of idx (new_data info) = Some k.
Proof.
  intros Hcol Hin.
  destruct (duplicates_lookup _ _ _ _ _ Hcol Hin)
    as (Hlen & n & r & Hrow & Hlast & ->).
  apply last_row_of_range in Hrow as [Hhas Hrange].
  assert (r ∈ matching idx k (tail incoming)) as Hr.
  { apply last_Some in Hlast as [l' ->]. apply elem_of_app. right. by left. }
  apply matching_key in Hr as [Hr Hk]. simpl.
  split; [done|]. split; [|done].
  destruct existing; simpl in *; lia.
Qed.

Lemma reconcile_updates_addressed_witness :
  let existing := [["Name"; "Total"]; ["A1"; "10"]; ["A2"; "20"]] in
  let incoming := [["Name"; "Total"]; ["A2"; "21"]; ["A3"; "30"]] in
  row_has_key 0 0 (tail existing) 3 "A2"
  ∧ 2 ≤ 3 ≤ length existing
  ∧ ["A2"; "21"] ∈ tail incoming
  ∧ key_of 0 ["A2"; "21"] = Some "A2".
Proof.
  apply (reconcile_updates_addressed
           [["Name"; "Total"]; ["A1"; "10"]; ["A2"; "20"]]
           [["Name"; "Total"]; ["A2"; "21"]; ["A3"; "30"]] 0 "A2"
           {| existing_row := 3; new_data := ["A2"; "21"] |}).
  - vm_compute. reflexivity.
  - vm_compute. by left.
Defined.

(** Two entries of the [duplicates] dict address different rows. *)
Lemma duplicates_rows_NoDup (existing incoming : list Row) :
  NoDup (existing_row
         <$> Py.dict_values (duplicates (reconcile existing incoming))).
Proof.
  pose proof (duplicates_NoDup existing incoming) as Hkeys.
  destruct (key_column existing) as [idx|] eqn:Hcol;
    [|rewrite duplicates_no_column by done; constructor].
  unfold Py.dict_values, Py.dict_keys in *.
  rewrite <- list_fmap_compose.
  apply NoDup_fmap_2_strong; [|by eapply NoDup_fmap_1].
  intros [k1 i1] [k2 i2] H1 H2 Hrow. simpl in Hrow.
  destruct (duplicates_lookup _ _ _ _ _ Hcol H1)
    as (_ & n1 & r1 & Hn1 & _ & ->).
  destruct (duplicates_lookup _ _ _ _ _ Hcol H2)
    as (_ & n2 & r2 & Hn2 & _ & ->).
  simpl in Hrow. subst n2.
  apply last_row_of_range in Hn1 as [(_ & row1 & Hr1 & Hk1) _].
  apply last_row_of_range in Hn2 as [(_ & row2 & Hr2 & Hk2) _].
  assert (k1 = k2) as -> by congruence.
  apply dict_elem_get in H1, H2; [|done..]. congruence.
Qed.

(** The rows that the entries address lie between the header and the
    row where the appended rows start. *)
Lemma duplicates_rows_range (existing incoming : list Row) k info :
  (k, info) ∈ duplicates (reconcile existing incoming) →
  2 ≤ existing_row info
  < next_empty_row (reconcile existing incoming).
Proof.
  intros Hin.
  destruct (key_column existing) as [idx|] eqn:Hcol;
    [|rewrite duplicates_no_column in Hin by done;
      by apply elem_of_nil in Hin].
  destruct (duplicates_lookup _ _ _ _ _ Hcol Hin)
    as (Hlen & n & r & Hrow & _ & ->).
  apply last_row_of_range in Hrow as [_ Hrange].
  rewrite (reconcile_resolved _ _ _ Hcol Hlen). simpl.
  destruct existing; simpl in *; lia.
Qed.

(** Updates and appends never collide: whatever the two tables, the
    updates of one reconciliation address pairwise distinct rows, one
    for each key, and all of them lie above the header and below the row
    where the appended rows start. *)
Theorem reconcile_updates_apart (existing incoming : list Row) :
  let r := reconcile existing incoming in
  NoDup (Py.dict_keys (duplicates r))
  ∧ NoDup (existing_row <$> Py.dict_values (duplicates r))
  ∧ ∀ k info, (k, info) ∈ duplicates r →
              2 ≤ existing_row info < next_empty_row r.
Proof.
  intros r. subst r. split; [|split].
  - apply duplicates_NoDup.
  - apply duplicates_rows_NoDup.
  - intros k info Hin. by eapply duplicates_rows_range.
Qed.

End ReconcilerUpdates.

(** * Further properties of the extraction loop *)

Section FetchGeneric.
Import Exporter ExporterSpec.
#[local] Open Scope Z_scope.
Implicit Types (st : FetchState) (tr evs : list Event).

(** One pass either leaves the kept orders alone or takes a page in. *)
Lemma attempt_cases dedup cfg st fetched step evs :
  attempt dedup cfg st fetched = (step, evs) →
  (store_orders (step_state step) = store_orders st
   ∧ seen_order_names (step_state step) = seen_order_names st
   ∧ observed evs = []
   ∧ (∀ st', step = Continue st' → ∃ msg, fetched = Raised msg))
  ∨ ∃ es d,
      process_edges dedup cfg es (store_orders st, seen_order_names st, 0)
      = (store_orders (step_state step),
         seen_order_names (step_state step), d)
      ∧ observed evs = valid_orders es.
Proof.
  unfold attempt. destruct fetched as [[| |orders]|msg].
  - intros [= <- <-]. left. by repeat split.
  - intros [= <- <-]. left. by repeat split.
  - destruct (edges orders) as [|e es] eqn:Hes.
    { intros [= <- <-]. left. by repeat split. }
    destruct (process_edges dedup cfg (e :: es) _) as [[os seen] d] eqn:Hpe.
    destruct (adjust _ _ _) as [[batch consecutive] adjusted] eqn:Hadj.
    apply adjust_observed in Hadj.
    destruct (hasNextPage orders); cbn [negb];
      [destruct (truthy_cursor (endCursor orders)); cbn [negb]|];
      intros [= <- <-]; right; exists (e :: es), d; (split; [done|]).
    + by rewrite observed_page_sleep.
    + by rewrite observed_page.
    + by rewrite observed_page.
  - destruct (_ || _).
    + case_bool_decide; intros [= <- <-]; left; repeat split; try done.
      intros st' _. by eexists.
    + intros [= <- <-]. left. by repeat split.
Qed.

(** A property of the kept orders, the seen names and the orders met that
    the loop over the edges of a page preserves is preserved by a run. *)
Lemma run_preserves dedup cfg
    (I : list Order → gset string → list Order → Prop) :
  (∀ es orders seen d met,
      I orders seen met →
      let out := process_edges dedup cfg es (orders, seen, d) in
      I out.1.1 out.1.2 (met ++ valid_orders es)) →
  ∀ script st tr r evs,
    I (store_orders st) (seen_order_names st) (observed tr) →
    run dedup cfg st script = (r, evs) →
    I (store_orders (state_of r)) (seen_order_names (state_of r))
      (observed (tr ++ evs)).
Proof.
  intros Hpage.
  assert (∀ st fetched tr step evs,
            I (store_orders st) (seen_order_names st) (observed tr) →
            attempt dedup cfg st fetched = (step, evs) →
            I (store_orders (step_state step))
              (seen_order_names (step_state step)) (observed (tr ++ evs)))
    as Hstep.
  { intros st fetched tr step evs Hinv Hatt. rewrite observed_app.
    apply attempt_cases in Hatt
      as [(-> & -> & -> & _)|(es & d & Hpe & ->)].
    - by rewrite app_nil_r.
    - specialize (Hpage es _ _ 0 _ Hinv). by rewrite Hpe in Hpage. }
  induction script as [|fetched rest IH]; intros st tr r evs Hinv; simpl.
  - intros [= <- <-]. by rewrite app_nil_r.
  - destruct (attempt dedup cfg st fetched) as [[st'|st'] evs1] eqn:Hatt.
    + intros [= <- <-]. by apply (Hstep _ _ _ _ _ Hinv Hatt).
    + destruct (run dedup cfg st' rest) as [r' evs2] eqn:Hrun.
      intros [= <- <-]. rewrite app_assoc.
      eapply IH; [|done]. by apply (Hstep _ _ _ _ _ Hinv Hatt).
Qed.

(** A run on a longer script goes on from where the shorter one is. *)
Lemma run_app dedup cfg script more : ∀ st,
  run dedup cfg st (script ++ more) =
    match run dedup cfg st script with
    | (Finished st', evs) => (Finished st', evs)
    | (Pending st', evs) =>
        let '(r, evs') := run dedup cfg st' more in (r, evs ++ evs')
    end.
Proof.
  induction script as [|fetched rest IH]; intros st; simpl.
  { by destruct (run dedup cfg st more). }
  destruct (attempt dedup cfg st fetched) as [[st'|st'] evs1]; [done|].
  rewrite IH. destruct (run dedup cfg st' rest) as [[st''|st''] evs2];
    [done|].
  destruct (run dedup cfg st'' more) as [r evs3]. by rewrite app_assoc.
Qed.

End FetchGeneric.

Section FetchExtras.
Import Exporter ExporterSpec.
#[local] Open Scope Z_scope.

(** Graceful degradation: when a reply is not a page with edges, the
    extraction of the window ends there with the orders kept so far; the
    replies that the server would have given afterwards play no part. *)
Theorem fetch_keeps_partial_results (cfg : StoreConfig)
    (pages : list Reply) (bad : Reply) (rest : list Reply) :
  not_a_page bad →
  ∃ st, (fetch_orders_from_store cfg (pages ++ bad :: rest)).1
        = Finished st
        ∧ store_orders st
          = store_orders
              (state_of (fetch_orders_from_store cfg pages).1).
Proof.
  intros Hbad. unfold fetch_orders_from_store.
  rewrite fmap_app, fmap_cons, run_app.
  destruct (run true cfg initial_state (execute_graphql_query <$> pages))
    as [[st|st] evs]; simpl.
  { by exists st. }
  assert (∃ st', attempt true cfg st (execute_graphql_query bad)
                 = (Return st', [Query (cursor st) (batch_size st)])
                 ∧ store_orders st' = store_orders st)
    as (st' & -> & Hsame).
  { unfold attempt.
    destruct bad as [status| |[errors|] [| | |orders]]; simpl;
      try (eexists; split; [reflexivity | done]).
    rewrite (Hbad orders eq_refl). eexists. split; [reflexivity | done]. }
  by exists st'.
Qed.

Lemma fetch_keeps_partial_results_witness :
  ∃ st, (fetch_orders_from_store Samples.photopri
           ([Samples.page [EdgeNode (Samples.order "#1001" [])] "c1"]
            ++ BodyNotJson
               :: [Samples.last_page
                     [EdgeNode (Samples.order "#1002" [])]])).1
        = Finished st
        ∧ store_orders st
          = store_orders
              (state_of
                 (fetch_orders_from_store Samples.photopri
                    [Samples.page [EdgeNode (Samples.order "#1001" [])]
                       "c1"]).1).
Proof.
  apply (fetch_keeps_partial_results Samples.photopri
           [Samples.page [EdgeNode (Samples.order "#1001" [])] "c1"]
           BodyNotJson
           [Samples.last_page [EdgeNode (Samples.order "#1002" [])]]).
  intros orders Heq. discriminate Heq.
Defined.

End FetchExtras.

Section FetchOutput.
Import Exporter ExporterSpec.
#[local] Open Scope Z_scope.

(** Orders that all have a name, at most one for each name, have
    pairwise distinct names. *)
Lemma names_nodup (l : list Order) :
  Forall (λ o, is_Some (order_name o)) l →
  (∀ k, (length (named k l) ≤ 1)%nat) →
  NoDup (order_name <$> l).
Proof.
  induction l as [|o l IH]; intros Hall Hone; [constructor|].
  apply Forall_cons in Hall as [[n Hn] Hall].
  rewrite fmap_cons. constructor.
  - intros (o' & Heq & Hin)%list_elem_of_fmap.
    specialize (Hone n). unfold named in Hone.
    rewrite filter_cons, decide_True in Hone by done.
    assert (o' ∈ filter (λ o, order_name o = Some n) l) as Hin'.
    { apply list_elem_of_filter. split; [congruence | done]. }
    destruct (filter _ l); [by apply not_elem_of_nil in Hin'|].
    simpl in Hone. lia.
  - apply IH; [done|]. intros k. specialize (Hone k).
    unfold named in *. rewrite filter_cons in Hone.
    destruct (decide _); simpl in Hone; lia.
Qed.

Lemma process_edges_tagged dedup cfg es : ∀ orders seen d,
  Forall (tagged cfg) orders →
  Forall (tagged cfg) (process_edges dedup cfg es (orders, seen, d)).1.1.
Proof.
  induction es as [|e es IH]; intros orders seen d Hall; [done|].
  cbn [process_edges]. destruct e as [| |o]; [by apply IH..|].
  destruct (order_name o) as [n|] eqn:Hn; [|by apply IH].
  destruct (dedup && bool_decide (n ∈ seen)); apply IH; [done|].
  apply Forall_app. split; [done|]. constructor; [|done].
  split; [|done]. rewrite order_name_tag, Hn. by eexists.
Qed.

Lemma process_edges_all cfg es : ∀ orders seen d,
  (process_edges false cfg es (orders, seen, d)).1.1
  = orders ++ (tag cfg <$> valid_orders es).
Proof.
  induction es as [|e es IH]; intros orders seen d.
  { by rewrite app_nil_r. }
  rewrite valid_orders_cons. cbn [process_edges].
  destruct e as [| |o]; [apply IH..|].
  destruct (order_name o) as [n|] eqn:Hn; [|apply IH].
  cbn [andb]. rewrite IH, fmap_app. by rewrite <- app_assoc.
Qed.

Lemma fetch_output_tagged_all cfg replies :
  Forall (tagged cfg)
    (store_orders (state_of (fetch_orders_from_store cfg replies).1)).
Proof.
  unfold fetch_orders_from_store.
  destruct (run true cfg initial_state (execute_graphql_query <$> replies))
    as [r evs] eqn:Hrun.
  apply (run_preserves true cfg (λ orders _ _, Forall (tagged cfg) orders))
    with (tr := []) in Hrun; [done| |by constructor].
  intros es orders seen d _ Hinv. by apply process_edges_tagged.
Qed.

(** The output of one window's extraction: every order has a natural
    key and carries the entries of the store, and no two orders share a
    natural key. *)
Theorem fetch_output_distinct_tagged (cfg : StoreConfig)
    (replies : list Reply) :
  let kept :=
    store_orders (state_of (fetch_orders_from_store cfg replies).1) in
  Forall (tagged cfg) kept ∧ NoDup (order_name <$> kept).
Proof.
  intros kept. subst kept.
  pose proof (fetch_output_tagged_all cfg replies) as Hall.
  split; [done|]. apply names_nodup.
  - eapply Forall_impl; [exact Hall|]. by intros o [? _].
  - intros k. rewrite fetch_orders_from_store_named, length_fmap, length_take.
    lia.
Qed.

(** The variant without the duplicate check keeps every order with a
    natural key that its pages show, in the order of the pages and as
    many times as it is shown. *)
Theorem fetch_no_duplicate_check_keeps_all (cfg : StoreConfig)
    (replies : list Reply) :
  let out := fetch_orders_from_store_no_duplicate_check cfg replies in
  store_orders (state_of out.1) = tag cfg <$> observed out.2.
Proof.
  intros out. subst out. unfold fetch_orders_from_store_no_duplicate_check.
  destruct (run false cfg initial_state (execute_graphql_query <$> replies))
    as [r evs] eqn:Hrun.
  by apply (run_preserves false cfg
              (λ orders _ met, orders = tag cfg <$> met))
    with (tr := []) in Hrun;
    [|intros es orders seen d met ->; simpl;
      by rewrite process_edges_all, fmap_app|].
Qed.

(** Fetching all stores removes the duplicates of each store, not the
    duplicates across stores: of a natural key, the output holds the
    first order that each store shows, store after store. *)
Theorem fetch_all_orders_per_store
    (stores : list (StoreConfig * list Reply)) (k : string) :
  named k (fetch_all_orders stores) = stores ≫= kept_of_store k.
Proof.
  unfold fetch_all_orders, named.
  induction stores as [|[cfg replies] stores IH]; [done|].
  rewrite !bind_cons, filter_app, IH. f_equal.
  apply fetch_orders_from_store_named.
Qed.

End FetchOutput.

Section BackfillOutput.
Import Exporter ExporterSpec.
#[local] Open Scope Z_scope.

Lemma unique_in_period_sub period : ∀ unique seen,
  ∃ added,
    (unique_in_period period (unique, seen)).1 = unique ++ added
    ∧ added `sublist_of` period
    ∧ Forall (λ o, is_Some (order_name o)) added.
Proof.
  induction period as [|o period IH]; intros unique seen.
  { exists []. by rewrite app_nil_r. }
  cbn [unique_in_period].
  assert (∀ acc, (∃ added,
              (unique_in_period period (unique, seen)).1 = unique ++ added
              ∧ added `sublist_of` period
              ∧ Forall (λ o, is_Some (order_name o)) added) →
            acc = (unique, seen) →
            ∃ added,
              (unique_in_period period acc).1 = unique ++ added
              ∧ added `sublist_of` o :: period
              ∧ Forall (λ o, is_Some (order_name o)) added) as Hskip.
  { intros acc (added & Heq & Hsub & Hall) ->. exists added.
    repeat split; [done | by constructor | done]. }
  destruct (order_name o) as [n|] eqn:Hn; [|by apply Hskip].
  case_bool_decide; [by apply Hskip|].
  destruct (IH (unique ++ [o]) ({[n]} ∪ seen)) as (added & Heq & Hsub & Hall).
  exists (o :: added). rewrite Heq, <- app_assoc.
  repeat split; [by constructor|]. constructor; [by eexists | done].
Qed.

Lemma collect_periods_sub periods : ∀ all_orders seen,
  ∃ added,
    (collect_periods periods (all_orders, seen)).1 = all_orders ++ added
    ∧ added `sublist_of` concat periods
    ∧ Forall (λ o, is_Some (order_name o)) added.
Proof.
  induction periods as [|period periods IH]; intros all_orders seen.
  { exists []. by rewrite app_nil_r. }
  cbn [collect_periods].
  destruct (unique_in_period_sub period [] seen) as (a1 & Heq1 & Hsub1 & H1).
  destruct (unique_in_period period ([], seen)) as [unique seen'].
  simpl in Heq1. subst unique.
  destruct (IH (all_orders ++ a1) seen') as (a2 & -> & Hsub2 & H2).
  exists (a1 ++ a2). rewrite <- app_assoc. repeat split.
  - simpl. by apply sublist_app.
  - by apply Forall_app.
Qed.

(** The output of a backfill: it is made of orders of the windows, in
    their order; no two of its orders share a natural key; and an order
    that a window gives has its natural key in the output. *)
Theorem backfill_output_distinct_complete
    (windows : list (list (StoreConfig * list Reply))) :
  let fetched := concat (fetch_all_orders_parallel <$> windows) in
  let kept := fetch_all_orders_chunked windows in
  kept `sublist_of` fetched
  ∧ NoDup (order_name <$> kept)
  ∧ ∀ o, o ∈ fetched → order_name o ∈ order_name <$> kept.
Proof.
  intros fetched kept.
  destruct (collect_periods_sub (fetch_all_orders_parallel <$> windows)
              [] ∅) as (added & Heq & Hsub & Hall).
  simpl in Heq. fold (fetch_all_orders_chunked windows) in Heq.
  fold kept in Heq. fold fetched in Hsub. subst added.
  split; [done|]. split.
  - apply names_nodup; [done|]. intros k. unfold kept.
    rewrite fetch_all_orders_chunked_named, length_take. lia.
  - intros o Ho.
    assert (is_Some (order_name o)) as [k Hk].
    { unfold fetched in Ho.
      apply list_elem_of_In, in_concat in Ho as (l & Hl & Ho).
      apply list_elem_of_In in Hl, Ho.
      apply list_elem_of_fmap in Hl as (stores & -> & _).
      unfold fetch_all_orders_parallel in Ho.
      apply list_elem_of_bind in Ho as ([cfg replies] & Ho & _).
      pose proof (fetch_output_tagged_all cfg replies) as Htag.
      rewrite Forall_forall in Htag. by destruct (Htag o Ho). }
    assert (o ∈ named k fetched) as Hin
      by (by apply list_elem_of_filter).
    pose proof (fetch_all_orders_chunked_named windows k) as Hnamed.
    fold kept fetched in Hnamed.
    destruct (named k fetched) as [|first later] eqn:Hf;
      [by apply not_elem_of_nil in Hin|].
    simpl in Hnamed. rewrite Hk. apply list_elem_of_fmap.
    exists first. 
    assert (first ∈ named k kept) as Hfirst by (rewrite Hnamed; by left).
    apply list_elem_of_filter in Hfirst as [Hname Hkept].
    by split.
Qed.

End BackfillOutput.

Section Pagination.
Import Exporter ExporterSpec.
#[local] Open Scope Z_scope.

Lemma queries_app tr1 tr2 : queries (tr1 ++ tr2) = queries tr1 ++ queries tr2.
Proof. apply omap_app. Qed.

Lemma adjust_queries a b c batch consecutive adjusted :
  adjust a b c = (batch, consecutive, adjusted) → queries adjusted = [].
Proof.
  unfold adjust. repeat case_bool_decide; by intros [= <- <- <-].
Qed.

Lemma queries_page c b b' es d adjusted rest :
  queries adjusted = [] →
  queries (Query c b :: Page b' es d :: adjusted ++ rest)
  = (c, b) :: queries rest.
Proof.
  intros Hadj.
  change (Query c b :: Page b' es d :: adjusted ++ rest)
    with ([Query c b; Page b' es d] ++ adjusted ++ rest).
  by rewrite !queries_app, Hadj.
Qed.

(** One pass sends one request, for the cursor held; it goes on only
    after a page that names a next page. *)
Lemma attempt_query dedup cfg st reply step evs :
  attempt dedup cfg st (execute_graphql_query reply) = (step, evs) →
  queries evs = [(cursor st, batch_size st)]
  ∧ ∀ st', step = Continue st' → next_page_of reply (cursor st').
Proof.
  unfold attempt.
  destruct reply as [status| |[errors|] [| | |orders]];
    cbn [execute_graphql_query]; try (intros [= <- <-]; by split).
  destruct (edges orders) as [|e es] eqn:Hes.
  { intros [= <- <-]. by split. }
  destruct (process_edges dedup cfg (e :: es) _) as [[os seen] d].
  destruct (adjust _ _ _) as [[batch consecutive] adjusted] eqn:Hadj.
  apply adjust_queries in Hadj.
  destruct (hasNextPage orders) eqn:Hnext; cbn [negb];
    [destruct (truthy_cursor (endCursor orders)) eqn:Hc; cbn [negb]|];
    intros [= <- <-].
  - rewrite (queries_page _ _ _ _ _ _ _ Hadj). split; [done|].
    intros st' [= <-]. exists orders. rewrite Hes. by repeat split.
  - rewrite <- (app_nil_r adjusted), (queries_page _ _ _ _ _ _ _ Hadj).
    by split.
  - rewrite <- (app_nil_r adjusted), (queries_page _ _ _ _ _ _ _ Hadj).
    by split.
Qed.

Lemma run_queries cfg replies : ∀ st r evs,
  run true cfg st (execute_graphql_query <$> replies) = (r, evs) →
  (length (queries evs) <= length replies)%nat
  ∧ ∀ i c b, queries evs !! i = Some (c, b) →
      match i with
      | O => c = cursor st
      | S j => ∃ reply, replies !! j = Some reply ∧ next_page_of reply c
      end.
Proof.
  induction replies as [|reply replies IH]; intros st r evs.
  { intros [= <- <-]. split; [done|]. by intros i c b ?. }
  rewrite fmap_cons. cbn [run].
  destruct (attempt true cfg st (execute_graphql_query reply))
    as [[st'|st'] evs1] eqn:Hatt;
    apply attempt_query in Hatt as [Hq Hnext].
  - intros [= <- <-]. rewrite Hq. split; [simpl; lia|].
    intros [|i] c b Hi; [by injection Hi as <- _|done].
  - destruct (run true cfg st' (execute_graphql_query <$> replies))
      as [r' evs2] eqn:Hrun.
    intros [= <- <-]. apply IH in Hrun as [Hlen Hrest].
    rewrite queries_app, Hq. split; [simpl; lia|].
    intros [|i] c b Hi; [by injection Hi as <- _|].
    simpl in Hi. specialize (Hrest i c b Hi).
    destruct i as [|j].
    + exists reply. split; [done|]. rewrite Hrest. by apply Hnext.
    + destruct Hrest as (reply' & Hlook & Hpage). by exists reply'.
Qed.

(** Pagination follows the server: the window's extraction sends at
    most one request per reply; the first request carries no cursor, and
    every later request carries the end cursor of the reply just before
    it, which was a page with edges that named a next page. *)
Theorem queries_follow_cursors (cfg : StoreConfig) (replies : list Reply) :
  let sent := queries (fetch_orders_from_store cfg replies).2 in
  (length sent <= length replies)%nat
  ∧ ∀ i c b, sent !! i = Some (c, b) →
      match i with
      | O => c = None
      | S j => ∃ reply, replies !! j = Some reply ∧ next_page_of reply c
      end.
Proof.
  intros sent. subst sent. unfold fetch_orders_from_store.
  destruct (run true cfg initial_state (execute_graphql_query <$> replies))
    as [r evs] eqn:Hrun.
  apply run_queries in Hrun as [Hlen Hrest]. split; [done|].
  intros i c b Hi. specialize (Hrest i c b Hi). by destruct i.
Qed.
End Pagination.
(** * Further properties of the transformer *)

Section TransformerExtras.
Import Exporter Transformer TransformerSpec.
#[local] Open Scope Z_scope.
Implicit Types (s : string) (cps : list Z) (cp : Z).

Lemma numeric_zero cps : Py.chars "0" = Some cps → numeric_chars cps.
Proof.
  intros [= <-]. split.
  - exists 48. split; [by left | done].
  - intros cp ->%list_elem_of_singleton. by left.
Qed.

Lemma money_cell_numeric (v : JValue) cps :
  Py.chars (money_cell v) = Some cps → numeric_chars cps.
Proof.
  unfold money_cell.
  destruct (truthy v && isdigit _) eqn:Hc; [|apply numeric_zero].
  apply andb_prop in Hc as [_ Hd]. intros Hcps.
  unfold isdigit, Py.isdigit in Hd.
  rewrite (chars_stripped _ _ Hcps) in Hd.
  destruct (filter _ (filter _ cps)) as [|d ds] eqn:Hf; [done|].
  rewrite forallb_forall in Hd.
  assert (∀ cp, cp ∈ d :: ds ↔ cp ≠ 45 ∧ cp ≠ 46 ∧ cp ∈ cps) as Hkept.
  { intros cp. rewrite <- Hf, !list_elem_of_filter. done. }
  split.
  - exists d. split.
    + by apply (Hkept d); left.
    + apply Is_true_eq_left, Hd, list_elem_of_In. by left.
  - intros cp Hin.
    destruct (decide (cp = 46)) as [->|Hdot]; [by eauto|].
    destruct (decide (cp = 45)) as [->|Hminus]; [by eauto|].
    left. apply Is_true_eq_left, Hd, list_elem_of_In.
    by apply Hkept.
Qed.

Lemma bag_cell_numeric bag cell cps :
  bag_cell bag = Some cell → Py.chars cell = Some cps →
  numeric_chars cps.
Proof.
  destruct bag as [| |[m|]]; simpl; intros [= <-];
    by (apply numeric_zero || apply money_cell_numeric).
Qed.

(** Whatever the amounts of the source are, text, malformed numbers or
    nothing at all, every money cell of every row is written with
    digits (of whatever script, as [str.isdigit] has it), points and
    minus signs only and holds a digit: no other text reaches a money
    column. *)
Theorem money_cells_numeric (orders : list Order) (row : CsvRow)
    (cell : string) (cps : list Z) :
  row ∈ convert_to_csv_data orders →
  cell ∈ money_cells row →
  Py.chars cell = Some cps →
  numeric_chars cps.
Proof.
  unfold convert_to_csv_data. intros (order & Hrow & _)%list_elem_of_bind.
  apply order_rows_elem in Hrow
    as (_ & _ & H1 & H2 & H3 & H4 & Hitems).
  assert (∃ bag, bag_cell bag = Some (Lineitem_price row)) as [b5 H5].
  { destruct Hitems as [(_ & _ & _ & -> & _)|(item & _ & _ & _ & _ & Hp & _)];
      [by exists BagMissing | by eexists]. }
  assert (∃ v, Lineitem_compare_at_price row = compare_at_cell v)
    as [v6 H6].
  { destruct Hitems as [(_ & _ & _ & _ & ->)|(item & _ & _ & _ & _ & _ & Hc)];
      [by exists None | by eexists]. }
  unfold money_cells. intros Hcell Hcps.
  apply elem_of_cons in Hcell as [->|Hcell];
    [exact (bag_cell_numeric _ _ _ H1 Hcps)|].
  apply elem_of_cons in Hcell as [->|Hcell];
    [exact (bag_cell_numeric _ _ _ H2 Hcps)|].
  apply elem_of_cons in Hcell as [->|Hcell];
    [exact (bag_cell_numeric _ _ _ H3 Hcps)|].
  apply elem_of_cons in Hcell as [->|Hcell];
    [exact (bag_cell_numeric _ _ _ H4 Hcps)|].
  apply elem_of_cons in Hcell as [->|Hcell];
    [exact (bag_cell_numeric _ _ _ H5 Hcps)|].
  apply elem_of_cons in Hcell as [->|Hcell].
  - rewrite H6 in Hcps. destruct v6 as [v|]; simpl in Hcps.
    + by eapply money_cell_numeric.
    + by apply numeric_zero.
  - by apply elem_of_nil in Hcell.
Qed.

Lemma money_cells_numeric_witness :
  numeric_chars [45; 45; 49; 46; 50; 46; 65299].
Proof.
  apply (money_cells_numeric
           [Samples.order "#1001" [Samples.item 1 "--1.2.３"]]
           {| Name := "#1001"; Subtotal := "10.00"; Shipping := "0.00";
              Taxes := "1.00"; Total := "11.00";
              Lineitem_quantity := "1"; Lineitem_name := "print";
              Lineitem_price := "--1.2.３";
              Lineitem_compare_at_price := "0" |}
           "--1.2.３").
  - vm_compute. by left.
  - vm_compute. do 4 right. by left.
  - vm_compute. reflexivity.
Defined.

Lemma order_rows_item_name o n :
  order_name o = Some n → convert_order o ≠ Raised →
  Name <$> order_rows o = [n]
  ∧ Lineitem_name <$> order_rows o = [row_item_name o].
Proof.
  intros Hn Hraised. unfold order_rows.
  destruct (convert_order o) as [| |row] eqn:Hrow; [|done|].
  { apply convert_order_Skipped in Hrow. congruence. }
  apply convert_order_cells in Hrow as (Hname & _ & _ & _ & _ & Hitems).
  simpl. split; [congruence|].
  unfold row_item_name, row_item.
  destruct Hitems as [(-> & _ & -> & _)|(item & -> & _ & _ & -> & _)];
    done.
Qed.

(** When no conversion raises, the rows come order by order, in the
    order of the input: each named order gives one row, whatever the
    number of its line items, and an order without a name gives
    nothing.  The row of an order carries its last line item, and no
    line item when the order has none. *)
Theorem convert_rows_order_by_order (orders : list Order) :
  Forall (λ o, convert_order o ≠ Raised) orders →
  Name <$> convert_to_csv_data orders = omap order_name orders
  ∧ Lineitem_name <$> convert_to_csv_data orders
    = omap (λ o, _ ← order_name o; Some (row_item_name o)) orders.
Proof.
  unfold convert_to_csv_data.
  induction 1 as [|o orders Ho _ [IH1 IH2]]; [done|].
  rewrite !bind_cons, !fmap_app, IH1, IH2. cbn [omap list_omap].
  destruct (order_name o) as [n|] eqn:Hn; rewrite ?Hn; simpl.
  - by destruct (order_rows_item_name o n Hn Ho) as [-> ->].
  - by rewrite order_rows_nameless.
Qed.

Lemma convert_rows_order_by_order_witness :
  let orders :=
    [Samples.order "#1001"
       [Samples.item 1 "5.00";
        {| item_name := "frame"; quantity := Some 2%Z;
           originalUnitPriceSet := Samples.money "3.00";
           compareAtPrice := None |}];
     Samples.order "#1002" []] in
  Name <$> convert_to_csv_data orders = ["#1001"; "#1002"]
  ∧ Lineitem_name <$> convert_to_csv_data orders = ["frame"; ""].
Proof.
  apply (convert_rows_order_by_order
           [Samples.order "#1001"
              [Samples.item 1 "5.00";
               {| item_name := "frame"; quantity := Some 2%Z;
                  originalUnitPriceSet := Samples.money "3.00";
                  compareAtPrice := None |}];
            Samples.order "#1002" []]).
  repeat constructor; vm_compute; discriminate.
Defined.

Lemma order_rows_faulty_item (order : Order) (bad : LineItem) :
  bad ∈ lineItems order → originalUnitPriceSet bad = BagNull →
  order_rows order = [].
Proof.
  intros Hin Hbad. apply order_rows_not_convertible.
  intros (_ & _ & _ & _ & Hitems).
  rewrite Forall_forall in Hitems. by destruct (Hitems bad Hin).
Qed.

(** An order with a faulty line item is skipped whole: when the price
    entry of one of its line items is [null], the order gives no row
    at all, not even for the line items before the faulty one, and
    the rows of the other orders are what they are without it. *)
Theorem faulty_item_skips_order (before after : list Order) (order : Order)
    (bad : LineItem) :
  bad ∈ lineItems order →
  originalUnitPriceSet bad = BagNull →
  order_rows order = []
  ∧ convert_to_csv_data (before ++ order :: after)
    = convert_to_csv_data before ++ convert_to_csv_data after.
Proof.
  intros Hin Hbad.
  pose proof (order_rows_faulty_item order bad Hin Hbad) as Hnone.
  split; [done|]. unfold convert_to_csv_data.
  by rewrite bind_app, bind_cons, Hnone.
Qed.

Lemma faulty_item_skips_order_witness :
  let bad := {| item_name := "frame"; quantity := Some 1;
                originalUnitPriceSet := BagNull;
                compareAtPrice := None |} in
  let order := Samples.order "#1001"
                 [Samples.item 1 "5.00"; bad; Samples.item 2 "3.00"] in
  order_rows order = []
  ∧ convert_to_csv_data
      ([Samples.order "#1000" []] ++ order :: [Samples.order "#1002" []])
    = convert_to_csv_data [Samples.order "#1000" []]
      ++ convert_to_csv_data [Samples.order "#1002" []].
Proof.
  apply (faulty_item_skips_order
           [Samples.order "#1000" []] [Samples.order "#1002" []]
           (Samples.order "#1001"
              [Samples.item 1 "5.00";
               {| item_name := "frame"; quantity := Some 1;
                  originalUnitPriceSet := BagNull;
                  compareAtPrice := None |};
               Samples.item 2 "3.00"])
           {| item_name := "frame"; quantity := Some 1;
              originalUnitPriceSet := BagNull; compareAtPrice := None |}).
  - right. by left.
  - reflexivity.
Defined.

End TransformerExtras.

(** * Further properties of the timestamp normalisation *)

Section CalendarRange.
Import Calendar ExporterDates.
#[local] Open Scope Z_scope.

Lemma days_before_year_succ y :
  days_before_year (y + 1)
  = days_before_year y + 365 + (if is_leap y then 1 else 0).
Proof.
  unfold days_before_year.
  destruct (is_leap y) eqn:Hl.
  - apply is_leap_true in Hl. div_lia.
  - apply is_leap_false in Hl. div_lia.
Qed.

Lemma days_before_year_mono y y' :
  y <= y' → days_before_year y <= days_before_year y'.
Proof. unfold days_before_year. intros. div_lia. Qed.

(** The ordinal of a date of the calendar is within the ordinals of
    years 1 to 9999. *)
Lemma ymd2ord_range y m d :
  1 <= y <= 9999 → 1 <= m <= 12 → 1 <= d <= days_in_month y m →
  1 <= ymd2ord y m d <= MAXORDINAL.
Proof.
  intros Hy Hm Hd.
  pose proof (days_before_year_mono 1 y ltac:(lia)) as Hlo.
  pose proof (days_before_year_mono (y + 1) 10000 ltac:(lia)) as Hhi.
  rewrite days_before_year_succ in Hhi.
  change (days_before_year 1) with 0 in Hlo.
  change (days_before_year 10000) with 3652059 in Hhi.
  unfold ymd2ord, days_before_month, days_in_month, MAXORDINAL in *.
  assert (m = 1 ∨ m = 2 ∨ m = 3 ∨ m = 4 ∨ m = 5 ∨ m = 6 ∨ m = 7 ∨ m = 8
          ∨ m = 9 ∨ m = 10 ∨ m = 11 ∨ m = 12) as Hcases by lia.
  destruct (is_leap y);
    repeat (destruct Hcases as [->|Hcases]); subst; simpl in *; lia.
Qed.

Lemma new_datetime_representable y m d hh mm ss us tz dt :
  new_datetime y m d hh mm ss us tz = Some dt →
  representable (ticks dt)
  ∧ ticks dt = reading_ticks y m d hh mm ss + us ∧ tzinfo dt = tz
  ∧ valid_reading y m d hh mm ss ∧ 0 <= us < SECOND.
Proof.
  unfold new_datetime. case_bool_decide as Hv; [|done].
  intros [= <-]. simpl.
  destruct Hv as (Hy & Hm & Hd & Hh & Hn & Hs & Hu).
  pose proof (ymd2ord_range y m d Hy Hm Hd) as Hord.
  unfold representable, reading_ticks, valid_reading.
  unfold MAXORDINAL, DAY, HOUR, MINUTE, SECOND in *.
  repeat split; try done; try lia; div_lia.
Qed.

(** Two instants within the same second are printed alike. *)
Lemma strftime_seconds dt1 dt2 :
  ticks dt1 / SECOND = ticks dt2 / SECOND → strftime dt1 = strftime dt2.
Proof.
  intros Hsec.
  assert (toordinal dt1 = toordinal dt2 ∧ hour dt1 = hour dt2
          ∧ minute dt1 = minute dt2 ∧ second dt1 = second dt2)
    as (Ho & Hh & Hm & Hs).
  { unfold toordinal, hour, minute, second, DAY, HOUR, MINUTE, SECOND in *.
    repeat split; div_lia. }
  unfold strftime, date_fields. by rewrite Ho, Hh, Hm, Hs.
Qed.

End CalendarRange.

Section PrintParse.
Import Calendar ExporterDates.
#[local] Open Scope Z_scope.

Lemma digit_val_digit k : digit_val (digit k) = Some (k mod 10).
Proof.
  unfold digit. pose proof (Z.mod_pos_bound k 10 ltac:(lia)) as Hr.
  set (r := k mod 10) in *. clearbody r.
  assert (r = 0 ∨ r = 1 ∨ r = 2 ∨ r = 3 ∨ r = 4 ∨ r = 5 ∨ r = 6 ∨ r = 7
          ∨ r = 8 ∨ r = 9) as Hcases by lia.
  repeat (destruct Hcases as [->|Hcases]); subst; reflexivity.
Qed.

Lemma parse_digits_2 a b va vb acc rest :
  digit_val a = Some va → digit_val b = Some vb →
  parse_digits 2 acc (String a (String b rest))
  = Some (10 * (10 * acc + va) + vb, rest).
Proof. intros Ha Hb. simpl. rewrite Ha. simpl. rewrite Hb. done. Qed.

Lemma parse_digits_4 a b c d va vb vc vd rest :
  digit_val a = Some va → digit_val b = Some vb →
  digit_val c = Some vc → digit_val d = Some vd →
  parse_digits 4 0 (String a (String b (String c (String d rest))))
  = Some (1000 * va + 100 * vb + 10 * vc + vd, rest).
Proof.
  intros Ha Hb Hc Hd. simpl. rewrite Ha. simpl. rewrite Hb. simpl.
  rewrite Hc. simpl. rewrite Hd. simpl. do 2 f_equal. lia.
Qed.

(** A time of eight characters made of digits and colons holds neither
    sign, and is read field by field. *)
Lemma split_at_time c h1 h2 n1 n2 s1 s2 :
  digit_val c = None → c ≠ ":"%char →
  is_Some (digit_val h1) → is_Some (digit_val h2) →
  is_Some (digit_val n1) → is_Some (digit_val n2) →
  is_Some (digit_val s1) → is_Some (digit_val s2) →
  split_at c (String h1 (String h2 (String ":" (String n1 (String n2
               (String ":" (String s1 (String s2 EmptyString))))))))
  = None.
Proof.
  intros Hc Hcolon H1 H2 H3 H4 H5 H6.
  assert (∀ x, is_Some (digit_val x) → x ≠ c) as Hne.
  { intros x [v Hx] ->. congruence. }
  cbn [split_at].
  rewrite !decide_False by (done || by apply Hne). done.
Qed.
End PrintParse.

Section PrintParse2.
Import Calendar ExporterDates.
#[local] Open Scope Z_scope.

Lemma parse_time_digits h1 h2 n1 n2 s1 s2 vh1 vh2 vn1 vn2 vs1 vs2 :
  digit_val h1 = Some vh1 → digit_val h2 = Some vh2 →
  digit_val n1 = Some vn1 → digit_val n2 = Some vn2 →
  digit_val s1 = Some vs1 → digit_val s2 = Some vs2 →
  parse_isoformat_time
    (String h1 (String h2 (String ":" (String n1 (String n2
       (String ":" (String s1 (String s2 EmptyString))))))))
  = Some (10 * vh1 + vh2, 10 * vn1 + vn2, 10 * vs1 + vs2, 0, None).
Proof.
  intros H1 H2 H3 H4 H5 H6. unfold parse_isoformat_time.
  rewrite bool_decide_false by (simpl; lia).
  rewrite !split_at_time by (done || by eexists).
  unfold parse_hh_mm_ss_ff.
  rewrite (parse_digits_2 _ _ _ _ _ _ H1 H2). simpl.
  rewrite H3. simpl. rewrite H4. simpl. rewrite H5. simpl. rewrite H6.
  simpl. do 4 f_equal; lia.
Qed.

Lemma fromisoformat_digits y1 y2 y3 y4 m1 m2 d1 d2 h1 h2 n1 n2 s1 s2
    vy1 vy2 vy3 vy4 vm1 vm2 vd1 vd2 vh1 vh2 vn1 vn2 vs1 vs2 sep :
  digit_val y1 = Some vy1 → digit_val y2 = Some vy2 →
  digit_val y3 = Some vy3 → digit_val y4 = Some vy4 →
  digit_val m1 = Some vm1 → digit_val m2 = Some vm2 →
  digit_val d1 = Some vd1 → digit_val d2 = Some vd2 →
  digit_val h1 = Some vh1 → digit_val h2 = Some vh2 →
  digit_val n1 = Some vn1 → digit_val n2 = Some vn2 →
  digit_val s1 = Some vs1 → digit_val s2 = Some vs2 →
  fromisoformat
    (String y1 (String y2 (String y3 (String y4 (String "-"
      (String m1 (String m2 (String "-" (String d1 (String d2
        (String sep
          (String h1 (String h2 (String ":" (String n1 (String n2
            (String ":" (String s1 (String s2 EmptyString)))))))))))))))))))
  = new_datetime (1000 * vy1 + 100 * vy2 + 10 * vy3 + vy4)
      (10 * vm1 + vm2) (10 * vd1 + vd2)
      (10 * vh1 + vh2) (10 * vn1 + vn2) (10 * vs1 + vs2) 0 None.
Proof.
  intros Hy1 Hy2 Hy3 Hy4 Hm1 Hm2 Hd1 Hd2 Hh1 Hh2 Hn1 Hn2 Hs1 Hs2.
  unfold fromisoformat, parse_isoformat_date.
  rewrite (parse_digits_4 _ _ _ _ _ _ _ _ _ Hy1 Hy2 Hy3 Hy4). simpl.
  rewrite Hm1. simpl. rewrite Hm2. simpl.
  rewrite Hd1. simpl. rewrite Hd2. simpl.
  rewrite (parse_time_digits _ _ _ _ _ _ _ _ _ _ _ _
             Hh1 Hh2 Hn1 Hn2 Hs1 Hs2). simpl.
  f_equal; lia.
Qed.

End PrintParse2.

Section FormatDatetimeExtras.
Import Calendar ExporterDates.
#[local] Open Scope Z_scope.

Lemma printed_explicit y m d hh mm ss :
  1000 <= y →
  (format_date (y, m, d) +:+ " " +:+ format_time hh mm ss)%string
  = String (digit (y / 1000)) (String (digit (y / 100))
      (String (digit (y / 10)) (String (digit y) (String "-"
        (String (digit (m / 10)) (String (digit m) (String "-"
          (String (digit (d / 10)) (String (digit d) (String " "
            (String (digit (hh / 10)) (String (digit hh) (String ":"
              (String (digit (mm / 10)) (String (digit mm) (String ":"
                (String (digit (ss / 10)) (String (digit ss)
                  EmptyString)))))))))))))))))).
Proof.
  intros Hy. unfold format_date. simpl fst. simpl snd.
  by rewrite format_year_pad4.
Qed.

(** A hyphen among the first four characters stops the reading of
    the year. *)
Lemma parse_digits_hyphen_1 a rest :
  parse_digits 4 0 (String a (String "-" rest)) = None.
Proof. cbn [parse_digits]. by destruct (digit_val a). Qed.

Lemma parse_digits_hyphen_2 a b rest :
  parse_digits 4 0 (String a (String b (String "-" rest))) = None.
Proof.
  cbn [parse_digits]. destruct (digit_val a); [|done].
  cbn [mbind option_bind]. by destruct (digit_val b).
Qed.

Lemma parse_digits_hyphen_3 a b c rest :
  parse_digits 4 0 (String a (String b (String c (String "-" rest))))
  = None.
Proof.
  cbn [parse_digits]. destruct (digit_val a); [|done].
  cbn [mbind option_bind]. destruct (digit_val b); [|done].
  cbn [mbind option_bind]. by destruct (digit_val c).
Qed.

(** Below year 1000 a hyphen comes among the first four characters
    of the print. *)
Lemma printed_short y m d hh mm ss :
  y < 1000 →
  ∃ rest,
    (format_date (y, m, d) +:+ " " +:+ format_time hh mm ss)%string
    = (rest +:+ String (digit ss) EmptyString)%string
    ∧ ∀ tail, parse_digits 4 0 (rest +:+ tail) = None.
Proof.
  intros Hy. unfold format_date, format_year. simpl fst. simpl snd.
  destruct (y <? 10) eqn:H1; [|destruct (y <? 100) eqn:H2;
    [|rewrite (proj2 (Z.ltb_lt y 1000)) by done]].
  - exists (String (digit y) (String "-"
              (String (digit (m / 10)) (String (digit m) (String "-"
                (String (digit (d / 10)) (String (digit d) (String " "
                  (String (digit (hh / 10)) (String (digit hh)
                    (String ":" (String (digit (mm / 10))
                      (String (digit mm) (String ":"
                        (String (digit (ss / 10))
                           EmptyString))))))))))))))).
    split; [reflexivity|]. intros tail. apply parse_digits_hyphen_1.
  - exists (String (digit (y / 10)) (String (digit y) (String "-"
              (String (digit (m / 10)) (String (digit m) (String "-"
                (String (digit (d / 10)) (String (digit d) (String " "
                  (String (digit (hh / 10)) (String (digit hh)
                    (String ":" (String (digit (mm / 10))
                      (String (digit mm) (String ":"
                        (String (digit (ss / 10))
                           EmptyString)))))))))))))))).
    split; [reflexivity|]. intros tail. apply parse_digits_hyphen_2.
  - exists (String (digit (y / 100)) (String (digit (y / 10))
              (String (digit y) (String "-"
              (String (digit (m / 10)) (String (digit m) (String "-"
                (String (digit (d / 10)) (String (digit d) (String " "
                  (String (digit (hh / 10)) (String (digit hh)
                    (String ":" (String (digit (mm / 10))
                      (String (digit mm) (String ":"
                        (String (digit (ss / 10))
                           EmptyString))))))))))))))))).
    split; [reflexivity|]. intros tail. apply parse_digits_hyphen_3.
Qed.

Lemma append_String x s t : String x s +:+ t = String x (s +:+ t).
Proof. reflexivity. Qed.

Lemma endswith_Z_snoc rest c :
  endswith_Z (rest +:+ String c EmptyString) = bool_decide (c = "Z"%char).
Proof.
  induction rest as [|x rest IH]; [done|].
  rewrite append_String. cbn [endswith_Z]. rewrite IH.
  by destruct (rest +:+ String c EmptyString) eqn:Heq;
    [destruct rest|].
Qed.

Lemma digit_not_Z k : digit k ≠ "Z"%char.
Proof.
  intros Heq. pose proof (digit_val_digit k) as Hd.
  rewrite Heq in Hd. discriminate Hd.
Qed.

Lemma printed_truthy y m d hh mm ss :
  Py.truthy (format_date (y, m, d) +:+ " " +:+ format_time hh mm ss)
  = true.
Proof. by apply Is_true_eq_true, truthy_app_r. Qed.

(** The parser reads a printed reading back when its year has four
    characters. *)
Lemma parse_printed y m d hh mm ss :
  valid_reading y m d hh mm ss → 1000 <= y →
  fromisoformat
    (iso_argument
       (format_date (y, m, d) +:+ " " +:+ format_time hh mm ss)%string)
  = Some {| ticks := reading_ticks y m d hh mm ss; tzinfo := None |}.
Proof.
  intros (Hy & Hm & Hd & Hh & Hn & Hs) Hy4.
  assert (1 <= d <= 31) as Hd31.
  { unfold days_in_month, DAYS_IN_MONTH in Hd.
    destruct ((m =? 2) && is_leap y); [lia|].
    assert (m = 1 ∨ m = 2 ∨ m = 3 ∨ m = 4 ∨ m = 5 ∨ m = 6 ∨ m = 7 ∨ m = 8
            ∨ m = 9 ∨ m = 10 ∨ m = 11 ∨ m = 12) as Hcases by lia.
    repeat (destruct Hcases as [->|Hcases]); subst; lia. }
  rewrite printed_explicit by done. unfold iso_argument. cbn [endswith_Z].
  rewrite (bool_decide_false _ (digit_not_Z ss)).
  rewrite (fromisoformat_digits _ _ _ _ _ _ _ _ _ _ _ _ _ _
             _ _ _ _ _ _ _ _ _ _ _ _ _ _ _
             (digit_val_digit _) (digit_val_digit _) (digit_val_digit _)
             (digit_val_digit _) (digit_val_digit _) (digit_val_digit _)
             (digit_val_digit _) (digit_val_digit _) (digit_val_digit _)
             (digit_val_digit _) (digit_val_digit _) (digit_val_digit _)
             (digit_val_digit _) (digit_val_digit _)).
  replace (1000 * ((y / 1000) mod 10) + 100 * ((y / 100) mod 10)
           + 10 * ((y / 10) mod 10) + y mod 10) with y by div_lia.
  replace (10 * ((m / 10) mod 10) + m mod 10) with m by div_lia.
  replace (10 * ((d / 10) mod 10) + d mod 10) with d by div_lia.
  replace (10 * ((hh / 10) mod 10) + hh mod 10) with hh by div_lia.
  replace (10 * ((mm / 10) mod 10) + mm mod 10) with mm by div_lia.
  replace (10 * ((ss / 10) mod 10) + ss mod 10) with ss by div_lia.
  unfold new_datetime. rewrite bool_decide_true by (repeat split; lia).
  unfold reading_ticks. do 2 f_equal. lia.
Qed.

(** The parser refuses a printed reading whose year has fewer than
    four characters. *)
Lemma parse_printed_short y m d hh mm ss :
  y < 1000 →
  fromisoformat
    (iso_argument
       (format_date (y, m, d) +:+ " " +:+ format_time hh mm ss)%string)
  = None.
Proof.
  intros Hy.
  destruct (printed_short y m d hh mm ss Hy) as (rest & -> & Hnone).
  unfold iso_argument. rewrite endswith_Z_snoc.
  rewrite (bool_decide_false _ (digit_not_Z ss)).
  unfold fromisoformat, parse_isoformat_date.
  by rewrite Hnone.
Qed.

(** The normalisation leaves the print of a date and time as it is:
    it reads it back as the same naive reading, or, below year 1000,
    does not read it at all. *)
Lemma format_datetime_strftime dt :
  representable (ticks dt) → format_datetime (strftime dt) = strftime dt.
Proof.
  intros Hrep.
  destruct (strftime_reading dt Hrep)
    as (y & m & d & hh & mm & ss & Hstr & Hvalid & Hticks).
  unfold format_datetime, format_datetime_with. rewrite Hstr.
  rewrite printed_truthy. cbn [negb].
  destruct (decide (1000 <= y)) as [Hy|Hy].
  - rewrite (parse_printed _ _ _ _ _ _ Hvalid Hy). simpl.
    rewrite <- Hstr. apply strftime_seconds. simpl.
    unfold reading_ticks, DAY, HOUR, MINUTE, SECOND in *. div_lia.
  - by rewrite parse_printed_short by lia.
Qed.

Lemma fromisoformat_representable s dt :
  fromisoformat s = Some dt → representable (ticks dt).
Proof.
  unfold fromisoformat.
  destruct (parse_isoformat_date s) as [[[[y m] d] rest]|]; [|done].
  simpl. destruct rest as [|sep tstr].
  - by intros (? & _)%new_datetime_representable.
  - destruct (parse_isoformat_time tstr) as [[[[[hh mm] ss] ff] tz]|];
      [|done].
    simpl. by intros (? & _)%new_datetime_representable.
Qed.

(** What the normalisation returns: its argument, or the print of a date
    and time of years 1 to 9999. *)
Lemma format_datetime_cases s :
  format_datetime s = s
  ∨ ∃ dt, representable (ticks dt) ∧ format_datetime s = strftime dt.
Proof.
  unfold format_datetime, format_datetime_with.
  destruct (Py.truthy s) eqn:Ht; simpl.
  2: { left. by destruct s. }
  destruct (fromisoformat (iso_argument s)) as [dt|] eqn:Hparse; simpl;
    [|by left].
  apply fromisoformat_representable in Hparse.
  destruct (tzinfo dt) as [offset|] eqn:Htz; simpl.
  - unfold astimezone. rewrite Htz. simpl. unfold add. simpl.
    case_bool_decide as Hutc; simpl; [|by left].
    case_bool_decide as Hjst; simpl; [|by left].
    right. eexists. split; [|done]. done.
  - right. by exists dt.
Qed.

(** Normalising twice is normalising once: a timestamp that was
    normalised is not shifted again when it passes through the function
    a second time, and one that came back unchanged still does. *)
Theorem format_datetime_idempotent (datetime_str : string) :
  format_datetime (format_datetime datetime_str)
  = format_datetime datetime_str.
Proof.
  destruct (format_datetime_cases datetime_str) as [Hsame|(dt & Hrep & Hfmt)].
  - by rewrite !Hsame.
  - rewrite Hfmt. by apply format_datetime_strftime.
Qed.

(** A timestamp without an offset is not shifted: whenever the parser
    of the library accepts the non-empty string as a naive reading,
    there is one valid calendar and clock reading of it, cut to whole
    seconds, and when its year is 1000 or later the result is the 19
    characters [YYYY-MM-DD HH:MM:SS] of that reading itself. *)
Theorem format_datetime_naive_unshifted
    (parse : string → option datetime) (datetime_str : string)
    (dt : datetime) :
  datetime_str ≠ "" →
  parse (iso_argument datetime_str) = Some dt →
  tzinfo dt = None →
  representable (ticks dt) →
  ∃ y m d hh mm ss,
    valid_reading y m d hh mm ss
    ∧ reading_ticks y m d hh mm ss <= ticks dt
      < reading_ticks y m d hh mm ss + SECOND
    ∧ (1000 <= y →
       format_datetime_with parse datetime_str
       = (pad4 y +:+ "-" +:+ pad2 m +:+ "-" +:+ pad2 d +:+ " "
          +:+ format_time hh mm ss)%string
       ∧ String.length (format_datetime_with parse datetime_str)
         = 19%nat).
Proof.
  intros Hne Hparse Htz Hrep.
  assert (Py.truthy datetime_str = true) as Htruthy
    by by destruct datetime_str.
  assert (format_datetime_with parse datetime_str = strftime dt) as ->.
  { unfold format_datetime_with. rewrite Htruthy, Hparse. simpl.
    by rewrite Htz. }
  destruct (strftime_reading dt Hrep)
    as (y & m & d & hh & mm & ss & Hstr & Hvalid & Hticks).
  exists y, m, d, hh, mm, ss. rewrite Hstr.
  split; [done|]. split; [done|].
  apply format_four_digit_year.
Qed.

Lemma format_datetime_naive_unshifted_witness :
  let dt := {| ticks := ymd2ord 2024 8 6 * DAY + 13 * HOUR + 8 * MINUTE
                        + 54 * SECOND + 250000;
               tzinfo := None |} in
  ∃ y m d hh mm ss,
    valid_reading y m d hh mm ss
    ∧ reading_ticks y m d hh mm ss <= ticks dt
      < reading_ticks y m d hh mm ss + SECOND
    ∧ (1000 <= y →
       format_datetime "2024-08-06T13:08:54.250"
       = (pad4 y +:+ "-" +:+ pad2 m +:+ "-" +:+ pad2 d +:+ " "
          +:+ format_time hh mm ss)%string
       ∧ String.length (format_datetime "2024-08-06T13:08:54.250")
         = 19%nat).
Proof.
  apply (format_datetime_naive_unshifted fromisoformat
           "2024-08-06T13:08:54.250"
           {| ticks := ymd2ord 2024 8 6 * DAY + 13 * HOUR + 8 * MINUTE
                       + 54 * SECOND + 250000;
              tzinfo := None |}).
  - discriminate.
  - vm_compute. reflexivity.
  - reflexivity.
  - vm_compute. split; [reflexivity | discriminate].
Defined.

Example format_datetime_naive :
  format_datetime "2024-08-06T13:08:54.250" = "2024-08-06 13:08:54".
Proof. vm_compute. reflexivity. Qed.

End FormatDatetimeExtras.

(** * Further properties of the window partitioner *)

Section WindowEdges.
Import Calendar ExporterDates.
#[local] Open Scope Z_scope.

Lemma date_ranges_loop_backwards chunk_months end_date :
  chunk_months <= -1 →
  ∀ fuel current_start,
    ticks current_start < ticks end_date →
    0 < toordinal current_start < Z.of_nat fuel →
    date_ranges_loop fuel chunk_months end_date current_start
    = OverflowError.
Proof.
  intros Hchunk fuel.
  induction fuel as [|fuel IH]; intros current_start Hlt Hord; [lia|].
  cbn [date_ranges_loop]. rewrite bool_decide_true by done.
  unfold timedelta_days. case_bool_decide as Hdays; [|done].
  cbn [mbind option_bind]. unfold add at 1.
  case_bool_decide as Hbound; [|done]. cbn [ticks tzinfo].
  rewrite bool_decide_false by (unfold DAY, HOUR, MINUTE, SECOND; lia).
  unfold add. cbn [ticks tzinfo].
  case_bool_decide as Hnext; [|done].
  assert (DAY = 86400000000) as HDAY by reflexivity.
  rewrite IH; [done|..]; cbn [ticks tzinfo toordinal] in *;
    unfold toordinal in *; rewrite HDAY in *.
  - lia.
  - split; [apply Hnext|]. cbn [ticks]. div_lia.
Qed.

(** A negative chunk size makes the partitioner walk backwards from
    2019 until the dates run out: the call does not return windows, it
    raises [OverflowError]. *)
Theorem windows_negative_chunk_overflow (now : datetime)
    (chunk_months : Z) :
  chunk_months <= -1 →
  ticks start_date < ticks now →
  get_date_ranges_chunked "all_time" now chunk_months = OverflowError.
Proof.
  intros Hchunk Hlt. unfold get_date_ranges_chunked.
  rewrite decide_True by done. unfold date_ranges.
  rewrite date_ranges_loop_backwards; [done..|].
  assert (toordinal start_date = 737060) as -> by (vm_compute; reflexivity).
  lia.
Qed.

Lemma windows_negative_chunk_overflow_witness :
  get_date_ranges_chunked "all_time"
    {| ticks := ymd2ord 2024 8 6 * DAY; tzinfo := None |} (-6)
  = OverflowError.
Proof.
  apply (windows_negative_chunk_overflow
           {| ticks := ymd2ord 2024 8 6 * DAY; tzinfo := None |} (-6)).
  - lia.
  - vm_compute. reflexivity.
Defined.

End WindowEdges.

Section WindowZero.
Import Calendar ExporterDates WindowSpec.
#[local] Open Scope Z_scope.

Lemma date_ranges_loop_daily end_date :
  toordinal end_date < MAXORDINAL →
  ∀ fuel n,
    0 < n →
    days_left end_date n <= Z.of_nat fuel →
    date_ranges_loop fuel 0 end_date (midnight n)
    = Value (single_day <$> seqZ n (days_left end_date n)).
Proof.
  intros Hend fuel. assert (DAY = 86400000000) as HDAY by reflexivity.
  induction fuel as [|fuel IH]; intros n Hn Hfuel.
  - cbn [date_ranges_loop].
    rewrite bool_decide_false.
    2: { unfold days_left, midnight in *. cbn [ticks]. rewrite HDAY in *.
         div_lia. }
    unfold seqZ. by replace (Z.to_nat (days_left end_date n)) with 0%nat by lia.
  - cbn [date_ranges_loop]. case_bool_decide as Hlt.
    2: { unfold seqZ.
         replace (Z.to_nat (days_left end_date n)) with 0%nat; [done|].
         unfold days_left, midnight in *. cbn [ticks] in *.
         rewrite HDAY in *. div_lia. }
    assert (n <= toordinal end_date) as Hle.
    { unfold toordinal, midnight in *. cbn [ticks] in *. rewrite HDAY in *.
      div_lia. }
    unfold timedelta_days. rewrite bool_decide_true by lia.
    cbn [mbind option_bind]. unfold add at 1.
    replace (ticks (midnight n) + 0 * 30 * DAY) with (n * DAY)
      by (unfold midnight; cbn [ticks]; lia).
    rewrite bool_decide_true by (rewrite Z.div_mul by lia; lia).
    cbn [ticks tzinfo]. fold (midnight n).
    rewrite bool_decide_false by (unfold midnight in Hlt; cbn [ticks] in Hlt; lia).
    unfold add. cbn [ticks tzinfo midnight].
    replace (n * DAY + DAY) with ((n + 1) * DAY) by lia.
    rewrite bool_decide_true by (rewrite Z.div_mul by lia; lia).
    fold (midnight (n + 1)). fold (midnight n).
    assert (days_left end_date n = Z.succ (days_left end_date (n + 1)))
      as Hdays.
    { unfold days_left. rewrite HDAY. div_lia. }
    rewrite IH by lia. rewrite Hdays.
    assert (0 <= days_left end_date (n + 1)) as Hpos.
    { unfold days_left, toordinal, midnight in *. cbn [ticks] in *.
      rewrite HDAY in *. div_lia. }
    rewrite (seqZ_cons n) by lia. rewrite Z.pred_succ.
    replace (Z.succ n) with (n + 1) by lia. done.
Qed.
End WindowZero.

Section WindowZeroThm.
Import Calendar ExporterDates WindowSpec.
#[local] Open Scope Z_scope.

(** A chunk size of zero gives one window per calendar day: each window
    starts and ends at the same midnight, and the windows run day after
    day from 2019-01-01 to the last midnight before the run. *)
Theorem windows_zero_chunk_daily (now : datetime) :
  ticks start_date < ticks now →
  toordinal now < MAXORDINAL →
  let first := toordinal start_date in
  let days := days_left now first in
  1 <= days
  ∧ toordinal now <= first + days <= toordinal now + 1
  ∧ date_ranges now 0 = Value (single_day <$> seqZ first days)
  ∧ get_date_ranges_chunked "all_time" now 0
    = Value (print_window <$> (single_day <$> seqZ first days)).
Proof.
  intros Hlt Hmax first days. subst first days.
  assert (DAY = 86400000000) as HDAY by reflexivity.
  assert (toordinal start_date = 737060) as Hord
    by (vm_compute; reflexivity).
  assert (ticks start_date = 737060 * DAY) as Hstart
    by (vm_compute; reflexivity).
  rewrite Hord.
  assert (1 <= days_left now 737060
          ∧ toordinal now <= 737060 + days_left now 737060
            <= toordinal now + 1) as [Hdays Hlast].
  { unfold days_left, toordinal in *. rewrite Hstart in Hlt.
    rewrite HDAY in *. split; div_lia. }
  split; [done|]. split; [done|].
  assert (date_ranges now 0
          = Value (single_day <$> seqZ 737060 (days_left now 737060)))
    as Hranges.
  { unfold date_ranges. rewrite Hord.
    change start_date with (midnight 737060).
    apply date_ranges_loop_daily; [done | lia | lia]. }
  split; [done|].
  unfold get_date_ranges_chunked. rewrite decide_True by done.
  by rewrite Hranges.
Qed.

Lemma windows_zero_chunk_daily_witness :
  let now := {| ticks := 737062 * DAY + 12 * HOUR; tzinfo := None |} in
  let first := toordinal start_date in
  let days := days_left now first in
  1 <= days
  ∧ toordinal now <= first + days <= toordinal now + 1
  ∧ date_ranges now 0 = Value (single_day <$> seqZ first days)
  ∧ get_date_ranges_chunked "all_time" now 0
    = Value (print_window <$> (single_day <$> seqZ first days)).
Proof.
  apply (windows_zero_chunk_daily
           {| ticks := 737062 * DAY + 12 * HOUR; tzinfo := None |}).
  - vm_compute. reflexivity.
  - vm_compute. reflexivity.
Defined.
End WindowZeroThm.

(** * Column letters *)

Section ColumnLetters.
Import Columns.
#[local] Open Scope Z_scope.

Lemma chr_letter k :
  0 <= k < 26 →
  Z.of_nat (nat_of_ascii (chr (65 + k))) = 65 + k
  ∧ is_upper (chr (65 + k)) = true.
Proof.
  intros Hk. unfold chr, is_upper.
  rewrite nat_ascii_embedding by lia. split; [lia|].
  apply andb_true_intro. split; apply Nat.leb_le; lia.
Qed.

Lemma append_cons x s t : String x s +:+ t = String x (s +:+ t).
Proof. reflexivity. Qed.

Lemma column_number_from_app acc s c :
  column_number_from acc (s +:+ String c EmptyString)
  = 26 * column_number_from acc s + (Z.of_nat (nat_of_ascii c) - 64).
Proof.
  revert acc. induction s as [|x s IH]; intros acc; [done|].
  rewrite append_cons. cbn [column_number_from]. apply IH.
Qed.

Lemma uppercase_app s c :
  uppercase (s +:+ String c EmptyString) = uppercase s && is_upper c.
Proof.
  induction s as [|x s IH].
  - rewrite app_empty_l. cbn [uppercase]. by destruct (is_upper c).
  - rewrite append_cons. cbn [uppercase]. by rewrite IH, andb_assoc.
Qed.

Lemma append_assoc_one s c result :
  (s +:+ String c EmptyString) +:+ result = s +:+ String c result.
Proof.
  induction s as [|x s IH]; [done|]. rewrite !append_cons. by f_equal.
Qed.

(** The loop puts the name of [column_number] in front of [result]. *)
Lemma column_letter_loop_spec fuel : ∀ n result,
  n <= Z.of_nat fuel →
  ∃ s, column_letter_loop fuel n result = Some (s +:+ result)
       ∧ uppercase s = true
       ∧ (n <= 0 → s = "")
       ∧ (0 < n → s ≠ "" ∧ column_number s = n).
Proof.
  induction fuel as [|fuel IH]; intros n result Hfuel.
  - exists "". cbn [column_letter_loop].
    rewrite bool_decide_false by lia.
    split; [done|]. split; [done|]. split; [done | lia].
  - cbn [column_letter_loop]. case_bool_decide as Hn.
    2: { exists "". split; [done|]. split; [done|]. split; [done | lia]. }
    destruct (IH ((n - 1) / 26)
                (String (chr (65 + (n - 1) mod 26)) result))
      as (s & -> & Hup & Hzero & Hpos); [div_lia|].
    pose proof (Z.mod_pos_bound (n - 1) 26 ltac:(lia)) as Hmod.
    destruct (chr_letter ((n - 1) mod 26) Hmod) as [Hval Hupper].
    exists (s +:+ String (chr (65 + (n - 1) mod 26)) EmptyString).
    rewrite append_assoc_one. split; [done|].
    rewrite uppercase_app, Hup, Hupper. split; [done|].
    split; [lia|]. intros _. split; [by destruct s|].
    unfold column_number in *. rewrite column_number_from_app, Hval.
    destruct (decide ((n - 1) / 26 <= 0)) as [Hq|Hq].
    + rewrite (Hzero Hq). simpl. div_lia.
    + destruct Hpos as [_ ->]; [lia|]. div_lia.
Qed.

Lemma append_empty_r s : s +:+ "" = s.
Proof. induction s as [|x s IH]; [done|]. rewrite append_cons. by f_equal. Qed.

(** Column names and column numbers correspond: for every positive
    column number the function returns a non-empty name in capital
    letters whose bijective base-26 value is that number, so that two
    different columns never get the same name; for a number that is not
    positive it returns the empty string. *)
Theorem column_letter_round_trip (n : Z) :
  ∃ s, _get_column_letter n = Some s
       ∧ uppercase s = true
       ∧ (n <= 0 → s = "")
       ∧ (0 < n → s ≠ "" ∧ column_number s = n).
Proof.
  destruct (column_letter_loop_spec (Z.to_nat n) n "" ltac:(lia))
    as (s & Hs & Hrest).
  exists s. unfold _get_column_letter. by rewrite Hs, append_empty_r.
Qed.

Lemma uppercase_number_bound s :
  uppercase s = true → (String.length s <= 2)%nat → column_number s <= 702.
Proof.
  assert (∀ c, is_upper c = true → 1 <= Z.of_nat (nat_of_ascii c) - 64 <= 26)
    as Hc.
  { intros c [H1 H2]%andb_prop.
    apply Nat.leb_le in H1, H2. lia. }
  destruct s as [|a [|b [|c s]]]; simpl; intros Hup Hlen.
  - done.
  - apply andb_prop in Hup as [Ha _]. apply Hc in Ha.
    unfold column_number. simpl. lia.
  - apply andb_prop in Hup as [Ha Hup]. apply andb_prop in Hup as [Hb _].
    apply Hc in Ha, Hb. unfold column_number. simpl. lia.
  - lia.
Qed.

(** The end column that [append_new_rows] computes on its own is the
    name of the last column exactly for 1 to 702 columns, the names of
    one and two letters; from 703 columns on it is not. *)
Theorem append_end_col_agrees (col_count : Z) :
  1 <= col_count →
  end_col col_count = _get_column_letter col_count ↔ col_count <= 702.
Proof.
  intros Hpos. split.
  - intros Heq.
    destruct (column_letter_loop_spec (Z.to_nat col_count) col_count ""
                ltac:(lia)) as (s & Hs & Hup & _ & Hnum).
    rewrite append_empty_r in Hs. fold (_get_column_letter col_count) in Hs.
    destruct Hnum as [_ Hnum]; [lia|].
    rewrite Hs in Heq. rewrite <- Hnum.
    apply uppercase_number_bound; [done|].
    unfold end_col in Heq.
    destruct (bool_decide (col_count <= 26)).
    + destruct (bool_decide _); [|done].
      injection Heq as <-. cbn [String.length]. lia.
    + destruct (bool_decide (0 <= 65 + (col_count - 1) / 26 - 1 < 128));
        [|done].
      cbn [mbind option_bind] in Heq. destruct (bool_decide _); [|done].
      injection Heq as <-. cbn [String.length]. lia.
  - intros Hle.
    assert (forallb (λ n, bool_decide (end_col n = _get_column_letter n))
              (seqZ 1 702) = true) as Hall by (vm_compute; reflexivity).
    rewrite forallb_forall in Hall.
    assert (col_count ∈ seqZ 1 702) as Hin by (apply elem_of_seqZ; lia).
    apply list_elem_of_In, Hall in Hin. by apply bool_decide_eq_true in Hin.
Qed.

Lemma append_end_col_agrees_witness :
  end_col 79 = _get_column_letter 79 ↔ 79 <= 702.
Proof.
  apply (append_end_col_agrees 79). lia.
Defined.

End ColumnLetters.

(** * Retries and batched reads *)

Section RetryFacts.
Import Reader.
#[local] Open Scope Z_scope.
Context {A : Type}.
Implicit Types (func : nat → Outcome A) (max_retries : Z).

Lemma retry_loop_outcome func max_retries (k : nat) :
  Z.of_nat k < max_retries →
  (∀ i, (i < k)%nat → retried (func i)) →
  ¬ retried (func k) ∨ Z.of_nat k = max_retries - 1 →
  ∀ d first extra,
    (first + d)%nat = k →
    retry_loop (seq first (S d + extra)) max_retries func
    = (result_of (func k), (λ i, backoff i (func i)) <$> seq first d).
Proof.
  intros Hk Hpre Hfinal d.
  induction d as [|d IH]; intros first extra Hd.
  - assert (first = k) as -> by lia.
    cbn [Nat.add seq retry_loop fmap list_fmap].
    destruct (func k) as [a|[status|message]] eqn:Hf; [done|..];
      cbn [result_of].
    + case_bool_decide as H429; [|done].
      rewrite bool_decide_false; [done|].
      destruct Hfinal as [Hnot|Hlast]; [|lia]. by destruct Hnot.
    + destruct (is_timeout message) eqn:Ht; [|done].
      rewrite bool_decide_false; [done|].
      destruct Hfinal as [Hnot|Hlast]; [|lia].
      destruct Hnot. simpl. by rewrite Ht.
  - change (seq first (S (S d) + extra))
      with (first :: seq (S first) (S d + extra)).
    change (seq first (S d)) with (first :: seq (S first) d).
    cbn [retry_loop]. rewrite fmap_cons, (IH (S first)) by lia.
    pose proof (Hpre first ltac:(lia)) as Hretry.
    destruct (func first) as [a|[status|message]] eqn:Hf; [done|..];
      simpl in Hretry.
    + rewrite bool_decide_true by done.
      by rewrite bool_decide_true by lia.
    + apply Is_true_true_1 in Hretry. rewrite Hretry.
      by rewrite bool_decide_true by lia.
Qed.

End RetryFacts.

Section RetryTheorems.
Import Reader.
#[local] Open Scope Z_scope.

(** What a retried call amounts to: when the calls before call number
    [k] raise a rate-limit error (status 429) or a timeout, and call [k]
    returns, or raises another error, or is the last call allowed, then
    the caller gets what call [k] gives, value or exception, after
    sleeping 5 s and 10 s doubled at each attempt for the rate-limit
    errors and the timeouts respectively.  No call is made after call
    [k]. *)
Theorem retry_on_error_outcome {A} (func : nat → Outcome A)
    (max_retries : Z) (k : nat) :
  Z.of_nat k < max_retries →
  (∀ i, (i < k)%nat → retried (func i)) →
  ¬ retried (func k) ∨ Z.of_nat k = max_retries - 1 →
  _retry_on_error func max_retries
  = (result_of (func k), (λ i, backoff i (func i)) <$> seq 0 k).
Proof.
  intros Hk Hpre Hfinal. unfold _retry_on_error.
  replace (Z.to_nat max_retries)
    with (S k + (Z.to_nat max_retries - S k))%nat by lia.
  by apply retry_loop_outcome.
Qed.

Lemma retry_on_error_outcome_witness :
  let func (i : nat) :=
    match i with
    | O => Raises (HttpError 429)
    | 1%nat => Raises (OtherError "The read operation timed out")
    | _ => Returns 7
    end in
  _retry_on_error func 3 = (Returned (Some 7), [5; 20]).
Proof.
  apply (retry_on_error_outcome
           (λ i : nat,
              match i with
              | O => Raises (HttpError 429)
              | 1%nat => Raises (OtherError "The read operation timed out")
              | _ => Returns 7
              end) 3 2).
  - lia.
  - intros [|[|i]] Hi; [done | by vm_compute | lia].
  - left. intros [].
Defined.

End RetryTheorems.

Section RetryBound.
Import Reader.
#[local] Open Scope Z_scope.

Lemma retried_dec {A} (o : Outcome A) : retried o ∨ ¬ retried o.
Proof.
  destruct o as [a|[status|message]]; simpl.
  - right. by intros [].
  - destruct (decide (status = 429)); by eauto.
  - destruct (is_timeout message); [by left | right; by intros []].
Qed.

(** The call that settles the result: the first one that does not raise
    a retryable error, or the last one allowed. *)
Lemma settling_call {A} (func : nat → Outcome A) (n : nat) :
  ∃ k, (k <= n)%nat
       ∧ (∀ i, (i < k)%nat → retried (func i))
       ∧ (¬ retried (func k) ∨ k = n).
Proof.
  induction n as [|n (k & Hk & Hpre & Hfinal)].
  - exists 0%nat. split; [done|]. split; [lia | by right].
  - destruct Hfinal as [Hnot| ->].
    + exists k. split; [lia|]. split; [done | by left].
    + destruct (retried_dec (func n)) as [Hr|Hnot].
      * exists (S n). split; [done|]. split; [|by right].
        intros i Hi. destruct (decide (i = n)) as [->|]; [done|].
        apply Hpre. lia.
      * exists n. split; [lia|]. split; [done | by left].
Qed.

Lemma backoff_sum {A} (func : nat → Outcome A) (k : nat) :
  foldr Z.add 0 ((λ i, backoff i (func i)) <$> seq 0 k)
  <= 10 * (2 ^ Z.of_nat k - 1).
Proof.
  induction k as [|k IH]; [done|].
  rewrite seq_S, fmap_app, foldr_app. cbn [fmap list_fmap foldr Nat.add].
  assert (∀ l x, foldr Z.add x l = foldr Z.add 0 l + x) as Hshift.
  { induction l as [|y l IHl]; intros x; simpl; [lia|]. rewrite IHl. lia. }
  rewrite Hshift.
  assert (backoff k (func k) <= 10 * 2 ^ Z.of_nat k) as Hb.
  { pose proof (Z.pow_pos_nonneg 2 (Z.of_nat k) ltac:(lia) ltac:(lia)).
    unfold backoff. destruct (func k) as [a|[status|message]]; lia. }
  rewrite Nat2Z.inj_succ, Z.pow_succ_r by lia. lia.
Qed.

(** However the calls end, a retried call with [max_retries] of 1 or
    more makes at most [max_retries] calls, gives what the last call made
    gives, and sleeps no more than [10 * (2 ^ (max_retries - 1) - 1)]
    seconds in all: 30 seconds for the 3 calls that the uploader
    allows. *)
Theorem retry_on_error_bounded {A} (func : nat → Outcome A)
    (max_retries : Z) :
  1 <= max_retries →
  ∃ k, Z.of_nat k < max_retries
       ∧ (_retry_on_error func max_retries).1 = result_of (func k)
       ∧ length (_retry_on_error func max_retries).2 = k
       ∧ foldr Z.add 0 (_retry_on_error func max_retries).2
         <= 10 * (2 ^ (max_retries - 1) - 1).
Proof.
  intros Hmax.
  destruct (settling_call func (Z.to_nat (max_retries - 1)))
    as (k & Hk & Hpre & Hfinal).
  exists k. split; [lia|].
  unfold _retry_on_error.
  replace (Z.to_nat max_retries)
    with (S k + (Z.to_nat max_retries - S k))%nat by lia.
  rewrite (retry_loop_outcome func max_retries k); [|lia|done| |lia].
  2: { destruct Hfinal as [?| ->]; [by left | right; lia]. }
  cbn [fst snd]. split; [done|]. split.
  - by rewrite length_fmap, length_seq.
  - etrans; [apply backoff_sum|].
    assert (2 ^ Z.of_nat k <= 2 ^ (max_retries - 1)); [|lia].
    apply Z.pow_le_mono_r; lia.
Qed.

Lemma retry_on_error_bounded_witness :
  ∃ k, Z.of_nat k < 3
       ∧ (_retry_on_error (λ _, Raises (A := unit) (HttpError 429)) 3).1
         = result_of (Raises (A := unit) (HttpError 429))
       ∧ length (_retry_on_error (λ _, Raises (A := unit) (HttpError 429))
                   3).2 = k
       ∧ foldr Z.add 0
           (_retry_on_error (λ _, Raises (A := unit) (HttpError 429)) 3).2
         <= 10 * (2 ^ (3 - 1) - 1).
Proof.
  apply (retry_on_error_bounded
           (λ _, Raises (A := unit) (HttpError 429)) 3).
  lia.
Defined.

End RetryBound.

Section BatchFacts.
Import Reader.
#[local] Open Scope Z_scope.
Implicit Types (total_rows batch_size : Z).

(** The number of batches is the least number of batches that hold all
    rows. *)
Lemma batch_count_spec total_rows batch_size :
  1 <= batch_size →
  let batch_count := (total_rows + batch_size - 1) / batch_size in
  (batch_count - 1) * batch_size < total_rows <= batch_count * batch_size.
Proof.
  intros Hbs batch_count. subst batch_count.
  pose proof (Z.div_mod (total_rows + batch_size - 1) batch_size
                ltac:(lia)) as Hdm.
  pose proof (Z.mod_pos_bound (total_rows + batch_size - 1) batch_size
                ltac:(lia)) as Hmod.
  nia.
Qed.

Lemma seqZ_snoc (k : nat) : seqZ 0 (Z.of_nat (S k)) = seqZ 0 (Z.of_nat k) ++ [Z.of_nat k].
Proof.
  rewrite Nat2Z.inj_succ. unfold Z.succ.
  rewrite seqZ_app by lia. done.
Qed.

(** The first [k] batches of a faithful read give the first rows of the
    sheet. *)
Lemma read_batches server sheet total_rows batch_size (k : nat) :
  1 <= batch_size →
  (∀ b, 0 <= b < Z.of_nat k →
        get_batch server (batch_range total_rows batch_size b)
        = rows_of sheet (batch_range total_rows batch_size b)) →
  (Z.of_nat k - 1) * batch_size < total_rows ∨ k = 0%nat →
  seqZ 0 (Z.of_nat k)
  ≫= (λ b, get_batch server (batch_range total_rows batch_size b))
  = take (Z.to_nat (Z.min (Z.of_nat k * batch_size) total_rows)) sheet.
Proof.
  intros Hbs. induction k as [|k IH]; intros Hget Hk.
  - replace (Z.to_nat (Z.min (Z.of_nat 0 * batch_size) total_rows))
      with 0%nat by lia.
    done.
  - rewrite seqZ_snoc, bind_app, IH; [|intros; apply Hget; lia|nia].
    cbn [mbind list_bind]. rewrite app_nil_r.
    rewrite Hget by lia. unfold rows_of, batch_range. cbn [fst snd].
    destruct Hk as [Hk|?]; [|done].
    replace (Z.to_nat (Z.of_nat k * batch_size + 1 - 1))
      with (Z.to_nat (Z.min (Z.of_nat k * batch_size) total_rows)) by nia.
    rewrite take_take_drop. f_equal. nia.
Qed.

End BatchFacts.

Section BatchTheorems.
Import Reader Uploader.
#[local] Open Scope Z_scope.
Implicit Types (total_rows batch_size : Z).

Lemma batch_ranges_lookup total_rows batch_size (i : nat) r :
  batch_ranges total_rows batch_size !! i = Some r ↔
  Z.of_nat i < (total_rows + batch_size - 1) / batch_size
  ∧ r = batch_range total_rows batch_size (Z.of_nat i).
Proof.
  unfold batch_ranges. rewrite list_lookup_fmap, fmap_Some. split.
  - intros (b & Hb & ->). apply lookup_seqZ in Hb as [-> Hlt].
    split; [done|]. by f_equal.
  - intros [Hlt ->]. exists (Z.of_nat i). split; [|done].
    apply lookup_seqZ. split; [lia | done].
Qed.

(** The batches of a read tile the rows: the first batch starts at row
    1, each batch holds between 1 and [batch_size] rows and is followed
    by the batch that starts at the next row, and the last batch ends
    at row [total_rows]. *)
Theorem batch_ranges_tile total_rows batch_size :
  1 <= total_rows → 1 <= batch_size →
  let ranges := batch_ranges total_rows batch_size in
  (∃ r, ranges !! 0%nat = Some r ∧ r.1 = 1)
  ∧ (∃ r, last ranges = Some r ∧ r.2 = total_rows)
  ∧ (∀ i r r', ranges !! i = Some r → ranges !! S i = Some r' →
               r'.1 = r.2 + 1)
  ∧ (∀ r, r ∈ ranges → r.1 <= r.2 <= r.1 + batch_size - 1).
Proof.
  intros Htotal Hbs ranges. subst ranges.
  pose proof (batch_count_spec total_rows batch_size Hbs) as Hcount.
  cbv zeta in Hcount.
  set (batch_count := (total_rows + batch_size - 1) / batch_size) in *.
  assert (1 <= batch_count) as Hone by nia.
  split; [|split; [|split]].
  - exists (batch_range total_rows batch_size 0).
    split; [|done]. apply batch_ranges_lookup. fold batch_count.
    split; [lia | done].
  - exists (batch_range total_rows batch_size (batch_count - 1)). split.
    + rewrite last_lookup.
      replace (length (batch_ranges total_rows batch_size))
        with (Z.to_nat batch_count)
        by (unfold batch_ranges; by rewrite length_fmap, length_seqZ).
      apply batch_ranges_lookup. fold batch_count. split; [lia|].
      f_equal. lia.
    + unfold batch_range. cbn [snd]. lia.
  - intros i r r' [Hi ->]%batch_ranges_lookup [Hi' ->]%batch_ranges_lookup.
    fold batch_count in Hi, Hi'. unfold batch_range. cbn [fst snd]. nia.
  - intros r (i & Hr)%list_elem_of_lookup.
    apply batch_ranges_lookup in Hr as [Hi ->]. fold batch_count in Hi.
    unfold batch_range. cbn [fst snd]. nia.
Qed.

Lemma batch_ranges_tile_witness :
  let ranges := batch_ranges 25000 10000 in
  (∃ r, ranges !! 0%nat = Some r ∧ r.1 = 1)
  ∧ (∃ r, last ranges = Some r ∧ r.2 = 25000)
  ∧ (∀ i r r', ranges !! i = Some r → ranges !! S i = Some r' →
               r'.1 = r.2 + 1)
  ∧ (∀ r, r ∈ ranges → r.1 <= r.2 <= r.1 + 10000 - 1).
Proof.
  apply (batch_ranges_tile 25000 10000); lia.
Defined.

(** When no batch fails and each read gives the rows of its range, the
    batched read gives the first [total_rows] rows of the sheet, in
    order and without gap or repetition. *)
Theorem batched_read_faithful (server : Server) (sheet : list Row)
    total_rows batch_size :
  1 <= batch_size →
  (∀ r, r ∈ batch_ranges total_rows batch_size →
        get_batch server r = rows_of sheet r) →
  _get_data_in_batches server total_rows batch_size
  = take (Z.to_nat total_rows) sheet.
Proof.
  intros Hbs Hget. unfold _get_data_in_batches.
  rewrite bool_decide_false by lia.
  pose proof (batch_count_spec total_rows batch_size Hbs) as Hcount.
  cbv zeta in Hcount.
  set (batch_count := (total_rows + batch_size - 1) / batch_size) in *.
  destruct (decide (batch_count <= 0)) as [Hneg|Hpos].
  - unfold seqZ. replace (Z.to_nat batch_count) with 0%nat by lia.
    replace (Z.to_nat total_rows) with 0%nat by nia. done.
  - replace batch_count with (Z.of_nat (Z.to_nat batch_count)) by lia.
    rewrite (read_batches server sheet); [f_equal; nia|done| |left; nia].
    intros b Hb. apply Hget.
    apply (list_elem_of_lookup_2 _ (Z.to_nat b)), batch_ranges_lookup.
    fold batch_count. split; [lia|]. f_equal. lia.
Qed.

Lemma batched_read_faithful_witness :
  let sheet := [["Name"]; ["#1"]; ["#2"]; ["#3"]; ["#4"]] in
  let server : Server := λ s e _, Returns (rows_of sheet (s, e)) in
  _get_data_in_batches server 5 2 = take (Z.to_nat 5) sheet.
Proof.
  apply (batched_read_faithful
           (λ s e _, Returns (rows_of
                                [["Name"]; ["#1"]; ["#2"]; ["#3"]; ["#4"]]
                                (s, e)))
           [["Name"]; ["#1"]; ["#2"]; ["#3"]; ["#4"]] 5 2).
  - lia.
  - intros [s e] _. reflexivity.
Defined.

End BatchTheorems.

Section BatchFailure.
Import Reader Uploader.
#[local] Open Scope Z_scope.
Implicit Types (total_rows batch_size : Z).

(** What the first [k] batches can hold when batch [lost] gives
    nothing and no batch gives more rows than its range has. *)
Lemma read_batches_length server total_rows batch_size lost (k : nat) :
  1 <= batch_size → 0 <= lost → 0 <= total_rows →
  (∀ b, 0 <= b < Z.of_nat k →
        Z.of_nat (length (get_batch server
                            (batch_range total_rows batch_size b)))
        <= (batch_range total_rows batch_size b).2
           - (batch_range total_rows batch_size b).1 + 1) →
  (lost < Z.of_nat k →
   get_batch server (batch_range total_rows batch_size lost) = []) →
  (Z.of_nat k - 1) * batch_size < total_rows ∨ k = 0%nat →
  Z.of_nat (length (seqZ 0 (Z.of_nat k)
                    ≫= (λ b, get_batch server
                               (batch_range total_rows batch_size b))))
  <= Z.min (Z.of_nat k * batch_size) total_rows
     - (if bool_decide (lost < Z.of_nat k) then 1 else 0).
Proof.
  intros Hbs Hlost Htotal. induction k as [|k IH]; intros Hlen Hnone Hk.
  - rewrite bool_decide_false by lia. simpl. lia.
  - rewrite seqZ_snoc, bind_app, length_app, Nat2Z.inj_add.
    cbn [mbind list_bind]. rewrite app_nil_r.
    destruct Hk as [Hk|?]; [|done].
    assert (Z.of_nat (length (seqZ 0 (Z.of_nat k)
                      ≫= (λ b, get_batch server
                                 (batch_range total_rows batch_size b))))
            <= Z.min (Z.of_nat k * batch_size) total_rows
               - (if bool_decide (lost < Z.of_nat k) then 1 else 0))
      as Hprev.
    { apply IH; [intros; apply Hlen; lia | intros; apply Hnone; lia | nia]. }
    pose proof (Hlen (Z.of_nat k) ltac:(lia)) as Hthis.
    set (this := Z.of_nat (length (get_batch server
                  (batch_range total_rows batch_size (Z.of_nat k))))) in *.
    set (prev := Z.of_nat (length (seqZ 0 (Z.of_nat k) ≫= _))) in *.
    unfold batch_range in Hthis. cbn [fst snd] in Hthis.
    destruct (decide (lost = Z.of_nat k)) as [->|Hne].
    + assert (this = 0) as ->
        by (unfold this; by rewrite Hnone by lia).
      rewrite bool_decide_false in Hprev by lia.
      rewrite bool_decide_true by lia. nia.
    + repeat case_bool_decide; try lia; nia.
Qed.

Lemma next_empty_row_bound (existing incoming : list Row) :
  (next_empty_row (reconcile existing incoming)
   <= Nat.max 2 (length existing + 1))%nat.
Proof.
  unfold reconcile, find_duplicate_rows.
  destruct existing as [|headers [|r0 rest]]; simpl; [lia..|].
  destruct (resolve_id_column headers) as [[idx|] evs]; simpl; [|lia].
  destruct (classify _ _ _ _ _). simpl. lia.
Qed.

(** A batch that fails is skipped without a trace: the reader then
    returns fewer rows than the sheet holds, and the reconciler places
    the rows to append at a row that the sheet already holds, at or
    before row [total_rows]. *)
Theorem failed_batch_misplaces_appends (server : Server)
    total_rows batch_size (lost : Z) (incoming : list Row) :
  2 <= total_rows → 1 <= batch_size →
  (∀ r, r ∈ batch_ranges total_rows batch_size →
        Z.of_nat (length (get_batch server r)) <= r.2 - r.1 + 1) →
  batch_range total_rows batch_size lost
  ∈ batch_ranges total_rows batch_size →
  get_batch server (batch_range total_rows batch_size lost) = [] →
  let existing := _get_data_in_batches server total_rows batch_size in
  Z.of_nat (length existing) < total_rows
  ∧ Z.of_nat (next_empty_row (reconcile existing incoming)) <= total_rows.
Proof.
  intros Htotal Hbs Hlen Hin Hnone existing.
  pose proof (batch_count_spec total_rows batch_size Hbs) as Hcount.
  cbv zeta in Hcount.
  assert (Z.of_nat (length existing) < total_rows) as Hshort.
  { subst existing. unfold _get_data_in_batches.
    rewrite bool_decide_false by lia.
    set (batch_count := (total_rows + batch_size - 1) / batch_size) in *.
    assert (0 <= lost < batch_count) as Hlost.
    { apply list_elem_of_lookup in Hin as [i Hi].
      apply batch_ranges_lookup in Hi as [Hi Heq]. fold batch_count in Hi.
      unfold batch_range in Heq. injection Heq as Heq _.
      assert (lost = Z.of_nat i) by nia. lia. }
    replace batch_count with (Z.of_nat (Z.to_nat batch_count)) by lia.
    pose proof (read_batches_length server total_rows batch_size lost
                  (Z.to_nat batch_count) Hbs ltac:(lia) ltac:(lia))
      as Hbound.
    rewrite bool_decide_true in Hbound by lia.
    assert (∀ b, 0 <= b < batch_count →
                 batch_range total_rows batch_size b
                 ∈ batch_ranges total_rows batch_size) as Hmem.
    { intros b Hb.
      apply (list_elem_of_lookup_2 _ (Z.to_nat b)), batch_ranges_lookup.
      fold batch_count. split; [lia|]. f_equal. lia. }
    specialize (Hbound ltac:(intros; apply Hlen, Hmem; lia)
                       ltac:(done) ltac:(left; nia)).
    lia. }
  split; [done|].
  pose proof (next_empty_row_bound existing incoming) as Hnext.
  clearbody existing. lia.
Qed.

Lemma failed_batch_misplaces_appends_witness :
  let sheet := [["Name"]; ["#1"]; ["#2"]; ["#3"]; ["#4"]] in
  let server : Server := λ s e _,
    if bool_decide (s = 3) then Raises (HttpError 500)
    else Returns (rows_of sheet (s, e)) in
  let existing := _get_data_in_batches server 5 2 in
  Z.of_nat (length existing) < 5
  ∧ Z.of_nat (next_empty_row (reconcile existing [["Name"]; ["#5"]])) <= 5.
Proof.
  apply (failed_batch_misplaces_appends
           (λ s e _,
              if bool_decide (s = 3) then Raises (HttpError 500)
              else Returns (rows_of
                              [["Name"]; ["#1"]; ["#2"]; ["#3"]; ["#4"]]
                              (s, e)))
           5 2 1 [["Name"]; ["#5"]]).
  - lia.
  - lia.
  - intros r Hr. vm_compute in Hr.
    repeat (apply elem_of_cons in Hr as [->|Hr]; [vm_compute; discriminate|]).
    by apply elem_of_nil in Hr.
  - vm_compute. right. by left.
  - reflexivity.
Defined.

End BatchFailure.

(** * Updating rows in place *)

Section UpdaterFacts.
Import Uploader UploaderSpec Updater.

Lemma batches_concat {A} (l : list A) (n : nat) :
  concat ((λ k, slice (k * 200) (k * 200 + 200) l) <$> seq 0 n)
  = take (n * 200) l.
Proof.
  induction n as [|n IH]; [done|].
  rewrite seq_S, fmap_app, concat_app, IH. cbn [fmap list_fmap concat].
  rewrite app_nil_r. unfold slice.
  replace (0 + n)%nat with n by lia.
  replace (n * 200 + 200 - n * 200)%nat with 200%nat by lia.
  rewrite take_take_drop. f_equal. lia.
Qed.

Lemma batch_count_bounds (len : nat) :
  let n := ((len + 200 - 1) / 200)%nat in
  ((n - 1) * 200 < len ∨ n = 0%nat) ∧ (len <= n * 200)%nat.
Proof.
  intros n. subst n.
  pose proof (Nat.div_mod_eq (len + 200 - 1) 200) as Hdm.
  pose proof (Nat.mod_upper_bound (len + 200 - 1) 200 ltac:(lia)) as Hmod.
  lia.
Qed.
End UpdaterFacts.

Section UpdaterTheorems.
Import Uploader UploaderSpec Updater.

Lemma sent_batches (sheet_id : Z) fails (duplicates : list (string * DupInfo)) :
  duplicates ≠ [] →
  sent (update_duplicate_rows (Some sheet_id) fails duplicates)
  = batches (request_of sheet_id <$> Py.dict_values duplicates).
Proof. by destruct duplicates. Qed.

Lemma batches_partition (requests : list UpdateCells) :
  concat (batches requests) = requests
  ∧ Forall (λ batch, 1 ≤ length batch ≤ 200) (batches requests).
Proof.
  unfold batches, batch_size.
  destruct (batch_count_bounds (length requests)) as [Hlow Hhigh].
  cbv zeta in Hlow, Hhigh.
  set (n := (length requests + 200 - 1) / 200) in *. clearbody n. split.
  - rewrite batches_concat. by rewrite take_ge by lia.
  - apply Forall_fmap, Forall_forall. intros k Hk%elem_of_seq.
    cbn [Nat.add] in Hk. unfold slice, compose. cbv beta zeta.
    rewrite length_take, length_drop.
    destruct Hlow as [Hlow|Hzero]; lia.
Qed.

(** The update requests are sent whole and in small batches: there is
    one request per entry of [duplicates], in the order of the entries;
    every batch holds between 1 and 200 of them; and the call returns
    [True] whether the service applies the batches or not, a batch that
    fails being skipped. *)
Theorem update_batches_partition (sheet_id : Z) (fails : nat → bool)
    (duplicates : list (string * DupInfo)) :
  duplicates ≠ [] →
  let out := update_duplicate_rows (Some sheet_id) fails duplicates in
  returned out = true
  ∧ concat (sent out) = request_of sheet_id <$> Py.dict_values duplicates
  ∧ Forall (λ batch, 1 ≤ length batch ≤ 200) (sent out)
  ∧ applied out `sublist_of` sent out
  ∧ ((∀ k, fails k = true) → applied out = []).
Proof.
  intros Hne out. subst out. rewrite sent_batches by done.
  destruct (batches_partition
              (request_of sheet_id <$> Py.dict_values duplicates))
    as [Hconcat Hsizes].
  destruct duplicates as [|d duplicates]; [done|].
  split; [done|]. split; [done|]. split; [done|].
  cbn [update_duplicate_rows applied].
  set (bs := batches _).
  split.
  - replace bs with ((zip (seq 0 (length bs)) bs).*2) at 3
      by (apply snd_zip; by rewrite length_seq).
    apply fmap_sublist, sublist_filter.
  - intros Hall. rewrite filter_none; [done|].
    apply Forall_forall. intros [k batch] _. simpl. by rewrite Hall.
Qed.

Lemma update_batches_partition_witness :
  let dups := [("A2", {| existing_row := 3; new_data := ["A2"; "21"] |})] in
  let out := update_duplicate_rows (Some 7%Z) (λ _, true) dups in
  returned out = true
  ∧ concat (sent out) = request_of 7%Z <$> Py.dict_values dups
  ∧ Forall (λ batch, 1 ≤ length batch ≤ 200) (sent out)
  ∧ applied out `sublist_of` sent out
  ∧ ((∀ k, (λ _ : nat, true) k = true) → applied out = []).
Proof.
  apply (update_batches_partition 7%Z (λ _, true)
           [("A2", {| existing_row := 3; new_data := ["A2"; "21"] |})]).
  discriminate.
Defined.

(** The updates of a reconciliation rewrite one existing data row each:
    every request sent covers exactly one row, from its first column to
    the width of the new data; the rows are pairwise distinct; none is
    the header row, and all lie before the row where appended rows
    start. *)
Theorem reconciled_updates_one_row_each (existing incoming : list Row)
    (sheet_id : Z) (fails : nat → bool) :
  let r := reconcile existing incoming in
  let requests :=
    concat (sent (update_duplicate_rows (Some sheet_id) fails
                    (duplicates r))) in
  NoDup (startRowIndex <$> requests)
  ∧ ∀ req, req ∈ requests →
      (1 ≤ startRowIndex req)%Z
      ∧ endRowIndex req = (startRowIndex req + 1)%Z
      ∧ (endRowIndex req < Z.of_nat (next_empty_row r))%Z
      ∧ startColumnIndex req = 0%Z
      ∧ endColumnIndex req = Z.of_nat (length (values req)).
Proof.
  intros r requests. subst requests.
  pose proof (duplicates_rows_NoDup existing incoming) as Hrows.
  pose proof (λ k info, duplicates_rows_range existing incoming k info)
    as Hrange.
  fold r in Hrows, Hrange.
  destruct (duplicates r) as [|d dups] eqn:Hd.
  { split; [constructor|]. by intros req ?%elem_of_nil. }
  rewrite sent_batches by done.
  rewrite (proj1 (batches_partition _)). split.
  - rewrite <- list_fmap_compose.
    replace (startRowIndex ∘ request_of sheet_id)
      with ((λ n, Z.of_nat n - 1)%Z ∘ existing_row) by done.
    rewrite list_fmap_compose.
    apply NoDup_fmap_2; [|done]. intros n1 n2 ?. lia.
  - intros req (info & -> & Hin)%list_elem_of_fmap.
    unfold Py.dict_values in Hin.
    apply list_elem_of_fmap in Hin as ([k info'] & -> & Hin).
    specialize (Hrange k info' Hin). simpl. lia.
Qed.

End UpdaterTheorems.

(** * Appending rows *)

Section AppenderTheorems.
Import Uploader Sheets Appender.
#[local] Open Scope Z_scope.

(** A successful append writes one block of rows inside the grid: when
    the call returns [True] for rows to add, it has made exactly one
    write, of all the new rows, to the rows [start_row] to
    [start_row + len(new_rows) - 1], and the sheet has at least that
    many rows by then. *)
Theorem append_new_rows_within_grid (name : string) (new_rows : list Row)
    (start : Z) (update : Reader.Outcome unit) (s : Service) :
  unique_ids s →
  new_rows ≠ [] →
  (append_new_rows name new_rows start update s).1.1 = Returned true →
  ∃ call sh,
    (append_new_rows name new_rows start update s).1.2 = [call]
    ∧ start_row call = start
    ∧ end_row call = start + Z.of_nat (length new_rows) - 1
    ∧ body call = new_rows
    ∧ sheet_by_title name
        (sheets (append_new_rows name new_rows start update s).2)
      = Some sh
    ∧ end_row call <= rowCount sh.
Proof.
  intros Huniq Hne. unfold append_new_rows.
  destruct new_rows as [|first_row rest]; [done|].
  set (required := start + Z.of_nat (length (first_row :: rest)) - 1).
  pose proof (ensure_sheet_has_rows_true name required s Huniq) as Hcap.
  destruct (_ensure_sheet_has_rows name required s) as [[] s'];
    cbn [negb fst snd] in *; [|done].
  destruct (Hcap eq_refl) as (sh & Hsh & Hrows).
  destruct update as [[]|[status|message]]; cbn [fst snd]; [|done..].
  intros _. eexists _, sh. by repeat split.
Qed.

Lemma append_new_rows_within_grid_witness :
  let s := {| sheets := [ {| title := "db"; sheetId := 7;
                             rowCount := 4 |} ];
              sent := []; faults := [] |} in
  let out := append_new_rows "db" [["#5"; "10"]; ["#6"; "20"]] 5
               (Reader.Returns ()) s in
  ∃ call sh,
    out.1.2 = [call]
    ∧ start_row call = 5
    ∧ end_row call = 5 + Z.of_nat (length [["#5"; "10"]; ["#6"; "20"]]) - 1
    ∧ body call = [["#5"; "10"]; ["#6"; "20"]]
    ∧ sheet_by_title "db" (sheets out.2) = Some sh
    ∧ end_row call <= rowCount sh.
Proof.
  apply (append_new_rows_within_grid "db" [["#5"; "10"]; ["#6"; "20"]] 5
           (Reader.Returns ())
           {| sheets := [ {| title := "db"; sheetId := 7;
                             rowCount := 4 |} ];
              sent := []; faults := [] |}).
  - intros sh1 sh2 ->%list_elem_of_singleton ->%list_elem_of_singleton _.
    reflexivity.
  - discriminate.
  - reflexivity.
Defined.

End AppenderTheorems.
